(** * embedvideos: job dispatch and the video / job state machines

    A shallow embedding of
      - src/database/mongodb.ts      (class [Database]),
      - src/dispatcher/jobDispatcher.ts (class [JobDispatcher]),
      - src/index.ts                 (the [/webhook] and
        [/video/:permlink/thumbnail] routes and [onUploadFinish]).

    Conventions.
      - JavaScript numbers that only ever hold small non-negative integers
        (attempt counters, the round-robin cursor, progress, timestamps in
        milliseconds) are [nat]: number arithmetic is exact on integers
        below 2^53.
      - A MongoDB collection is the list of its documents in insertion
        order; [updateOne] rewrites the first document that matches the
        filter and does nothing when none matches.
      - [async] code is sequential between awaits, so it is written in a
        state-and-exception monad [M] over a [World]; a thrown exception
        keeps the state reached so far (nothing is rolled back).
      - What the outside world answers ([new Date()], [fetch]) is read from
        oracles indexed by the number of interactions so far. *)

From Stdlib Require Import String Ascii List Arith Bool Lia DecimalString.
From Stdlib Require Import Sorting.Permutation Sorting.Sorted.
Import ListNotations.
Local Open Scope list_scope.
Local Open Scope string_scope.

Set Implicit Arguments.

(** ** Primitive data *)

(** [Date]: milliseconds since the epoch. *)
Definition Date := nat.

(** JavaScript truthiness of a [string | null] value: [null] and the empty
    string are falsy. *)
Definition truthy (s : option string) : bool :=
  match s with
  | None => false
  | Some s => negb (s =? "")
  end.

(** [a || b] on a [string | null | undefined] left operand. *)
Definition or_default (a : option string) (b : string) : string :=
  match a with
  | Some s => if s =? "" then b else s
  | None => b
  end.

(** Template-literal rendering of a small natural number. *)
Definition show_nat (n : nat) : string :=
  NilEmpty.string_of_uint (Nat.to_uint n).

(** ** database/mongodb.ts: the record types *)

Module VideoStatus.
Inductive t := uploading | processing | published | failed | deleted.
End VideoStatus.

Module JobStatus.
Inductive t := pending | encoding | completed | failed.

Definition eqb (a b : t) : bool :=
  match a, b with
  | pending, pending | encoding, encoding
  | completed, completed | failed, failed => true
  | _, _ => false
  end.

Lemma job_status_eqb_eq a b : eqb a b = true <-> a = b.
Proof. destruct a, b; simpl; split; congruence. Qed.
End JobStatus.

Module VideoMetadata.
Record t := mk {
  owner : string;
  permlink : string;
  frontend_app : string;
  status : VideoStatus.t;
  input_cid : option string;
  manifest_cid : option string;
  thumbnail_url : option string;
  short : bool;
  duration : option nat;
  size : option nat;
  encodingProgress : nat;
  originalFilename : option string;
  createdAt : Date;
  updatedAt : Date
}.

(** One [key: value] entry of a [Partial<VideoMetadata>] / [$set]
    document. *)
Inductive assign :=
| Owner (x : string)
| Permlink (x : string)
| Frontend_app (x : string)
| Status (x : VideoStatus.t)
| Input_cid (x : option string)
| Manifest_cid (x : option string)
| Thumbnail_url (x : option string)
| Short (x : bool)
| Duration (x : option nat)
| Size (x : option nat)
| EncodingProgress (x : nat)
| OriginalFilename (x : option string)
| CreatedAt (x : Date)
| UpdatedAt (x : Date).

Definition set (a : assign) (v : t) : t :=
  let '(mk o p f s i m th sh d sz e fn c u) := v in
  match a with
  | Owner x => mk x p f s i m th sh d sz e fn c u
  | Permlink x => mk o x f s i m th sh d sz e fn c u
  | Frontend_app x => mk o p x s i m th sh d sz e fn c u
  | Status x => mk o p f x i m th sh d sz e fn c u
  | Input_cid x => mk o p f s x m th sh d sz e fn c u
  | Manifest_cid x => mk o p f s i x th sh d sz e fn c u
  | Thumbnail_url x => mk o p f s i m x sh d sz e fn c u
  | Short x => mk o p f s i m th x d sz e fn c u
  | Duration x => mk o p f s i m th sh x sz e fn c u
  | Size x => mk o p f s i m th sh d x e fn c u
  | EncodingProgress x => mk o p f s i m th sh d sz x fn c u
  | OriginalFilename x => mk o p f s i m th sh d sz e x c u
  | CreatedAt x => mk o p f s i m th sh d sz e fn x u
  | UpdatedAt x => mk o p f s i m th sh d sz e fn c x
  end.

(** [$set] with an object literal: entries are applied left to right, so
    an entry spread in later overrides an earlier one with the same key. *)
Definition patch (doc : list assign) (v : t) : t :=
  fold_left (fun acc a => set a acc) doc v.
End VideoMetadata.

Module EncodingJob.
Record t := mk {
  owner : string;
  permlink : string;
  status : JobStatus.t;
  assignedWorker : option string;
  encoderJobId : option string;
  assignedAt : option Date;
  attemptCount : nat;
  lastError : option string;
  webhookReceivedAt : option Date;
  createdAt : Date;
  updatedAt : Date
}.

Inductive assign :=
| Owner (x : string)
| Permlink (x : string)
| Status (x : JobStatus.t)
| AssignedWorker (x : option string)
| EncoderJobId (x : option string)
| AssignedAt (x : option Date)
| AttemptCount (x : nat)
| LastError (x : option string)
| WebhookReceivedAt (x : option Date)
| CreatedAt (x : Date)
| UpdatedAt (x : Date).

Definition set (a : assign) (j : t) : t :=
  let '(mk o p s w e a' n le wr c u) := j in
  match a with
  | Owner x => mk x p s w e a' n le wr c u
  | Permlink x => mk o x s w e a' n le wr c u
  | Status x => mk o p x w e a' n le wr c u
  | AssignedWorker x => mk o p s x e a' n le wr c u
  | EncoderJobId x => mk o p s w x a' n le wr c u
  | AssignedAt x => mk o p s w e x n le wr c u
  | AttemptCount x => mk o p s w e a' x le wr c u
  | LastError x => mk o p s w e a' n x wr c u
  | WebhookReceivedAt x => mk o p s w e a' n le x c u
  | CreatedAt x => mk o p s w e a' n le wr x u
  | UpdatedAt x => mk o p s w e a' n le wr c x
  end.

Definition patch (doc : list assign) (j : t) : t :=
  fold_left (fun acc a => set a acc) doc j.

(** [{ $inc: { attemptCount: 1 }, $set: { updatedAt } }] *)
Definition inc_attempt (now : Date) (j : t) : t :=
  set (UpdatedAt now) (set (AttemptCount (attemptCount j + 1)) j).
End EncodingJob.

(** ** Collections *)

Section Collection.
Variable A : Type.

(** [collection.findOne(filter)] *)
Definition findOne (filter : A -> bool) (docs : list A) : option A :=
  find filter docs.

(** [collection.updateOne(filter, update)] *)
Fixpoint updateOne (filter : A -> bool) (update : A -> A) (docs : list A)
  : list A :=
  match docs with
  | [] => []
  | d :: rest =>
      if filter d then update d :: rest
      else d :: updateOne filter update rest
  end.

(** [cursor.sort({ key: 1 })]: ascending and stable. *)
Fixpoint insert_by (key : A -> nat) (x : A) (l : list A) : list A :=
  match l with
  | [] => [x]
  | y :: rest =>
      if (key x <=? key y)%nat then x :: y :: rest
      else y :: insert_by key x rest
  end.

Definition sort_by (key : A -> nat) (l : list A) : list A :=
  fold_right (insert_by key) [] l.
End Collection.

(** The state of the [Database] object: [connected] is false while
    [this.db] and [this.collection] are still [null] (both are assigned
    together in [connect]); [videos] is the ['embed-video'] collection and
    [jobs] is ['embed-jobs']. *)
Record Database := mkDatabase {
  connected : bool;
  videos : list VideoMetadata.t;
  jobs : list EncodingJob.t
}.

(** ** config/config.ts *)

Record EncoderConfig := mkEncoder {
  name : string;
  url : string;
  apiKey : string;
  enabled : bool
}.

Record Config := mkConfig {
  encoders : list EncoderConfig;
  webhookApiKey : string;
  webhookUrl : string
}.


(** ** The process state and the monad of [async] code *)

(** [database] is the shared [Database] instance, [currentEncoderIndex] the
    private field of the single [JobDispatcher], and [ticks] counts the
    interactions with the outside world so far. *)
Record World := mkWorld {
  database : Database;
  currentEncoderIndex : nat;
  ticks : nat
}.

Inductive Outcome (A : Type) :=
| Returns (a : A)
| Throws (message : string).
Arguments Returns {A} a.
Arguments Throws {A} message.

Definition M (A : Type) := World -> Outcome A * World.

Definition ret {A} (a : A) : M A := fun w => (Returns a, w).

Definition bind {A B} (c : M A) (k : A -> M B) : M B :=
  fun w =>
    match c w with
    | (Returns a, w') => k a w'
    | (Throws e, w') => (Throws e, w')
    end.

(** [throw new Error(message)] *)
Definition throw {A} (message : string) : M A := fun w => (Throws message, w).

(** [try { c } catch (error) { handler(error.message) }] *)
Definition tryCatch {A} (c : M A) (handler : string -> M A) : M A :=
  fun w =>
    match c w with
    | (Returns a, w') => (Returns a, w')
    | (Throws e, w') => handler e w'
    end.

Declare Scope monad_scope.
Delimit Scope monad_scope with monad.
Notation "x <- c ;; k" := (bind c (fun x => k))
  (at level 61, c at next level, right associativity) : monad_scope.
Notation "c ;; k" := (bind c (fun _ => k))
  (at level 61, right associativity) : monad_scope.
Local Open Scope monad_scope.

(** [for (const x of l) { await body(x) }] *)
Fixpoint forEach {A} (l : list A) (body : A -> M unit) : M unit :=
  match l with
  | [] => ret tt
  | x :: rest => body x ;; forEach rest body
  end.

(** ** What the encoder answers to [fetch] *)

Record EncoderRequest := mkEncoderRequest {
  req_owner : string;
  req_permlink : string;
  req_input_cid : string;
  req_short : bool;
  req_webhook_url : string;
  req_api_key : string;
  req_frontend_app : string;
  req_originalFilename : option string
}.

(** [ok] and [status] as on a [Response]; [text] is what [response.text()]
    resolves to, [json] is the [job_id] field of what [response.json()]
    resolves to ([None] when the field is missing). *)
Record HttpResponse := mkHttpResponse {
  ok : bool;
  status : nat;
  text : Outcome string;
  json : Outcome (option string)
}.

(** ** Express requests and responses *)

(** The value of [req.headers[name]]. *)
Inductive HeaderValue :=
| absent
| single (value : string)
| multiple (values : list string).

(** [header !== secret] for a string [secret]. *)
Definition header_differs (header : HeaderValue) (secret : string) : bool :=
  match header with
  | single value => negb (value =? secret)
  | _ => true
  end.

Inductive Json :=
| JString (s : string)
| JBool (b : bool)
| JNull.

Record Response := mkResponse {
  statusCode : nat;
  body : list (string * Json)
}.

(** The fields the webhook route reads from [req.body]. *)
Record WebhookBody := mkWebhookBody {
  wh_owner : string;
  wh_permlink : string;
  wh_status : string;
  wh_manifest_cid : option string;
  wh_error : option string
}.

(** The fields [onUploadFinish] reads from the tus [upload]. *)
Record Upload := mkUpload {
  meta_permlink : option string;
  meta_owner : option string;
  upload_size : option nat;
  storage_path : option string
}.

(** [upload.size || null] *)
Definition size_or_null (n : option nat) : option nat :=
  match n with
  | Some 0 => None
  | _ => n
  end.

(** ** The service *)

Section Service.

(** [config] is the result of [loadConfig()], fixed for the life of the
    process. [clock n] is what [new Date()] returns, [fetch n] what the
    encoder answers and [pinFile n] what the IPFS pin returns when it is the
    interaction number [n] of the process. *)
Variable config : Config.
Variable clock : nat -> Date.
Variable fetch : nat -> string -> string -> EncoderRequest -> Outcome HttpResponse.
Variable pinFile : nat -> string -> Outcome string.

Definition tick (w : World) : World :=
  mkWorld (database w) (currentEncoderIndex w) (S (ticks w)).

(** [new Date()] *)
Definition newDate : M Date :=
  fun w => (Returns (clock (ticks w)), tick w).

(** [await fetch(url, { headers: { 'X-API-Key': key }, body })] *)
Definition callFetch (target key : string) (request : EncoderRequest)
  : M HttpResponse :=
  fun w => (fetch (ticks w) target key request, tick w).

(** [await pinFile(filePath)] *)
Definition callPinFile (filePath : string) : M string :=
  fun w => (pinFile (ticks w) filePath, tick w).

(** Resolving or rejecting with a result already received. *)
Definition settle {A} (o : Outcome A) : M A := fun w => (o, w).

(** *** database/mongodb.ts: class Database *)

(** [if (!this.db) throw new Error('Database not connected')], and the same
    test on [this.collection]. *)
Definition requireConnected : M Database :=
  fun w =>
    if connected (database w) then (Returns (database w), w)
    else (Throws "Database not connected", w).

Definition putVideos (vs : list VideoMetadata.t) : M unit :=
  fun w =>
    (Returns tt,
     mkWorld (mkDatabase (connected (database w)) vs (jobs (database w)))
             (currentEncoderIndex w) (ticks w)).

Definition putJobs (js : list EncodingJob.t) : M unit :=
  fun w =>
    (Returns tt,
     mkWorld (mkDatabase (connected (database w)) (videos (database w)) js)
             (currentEncoderIndex w) (ticks w)).

(** The filter [{ permlink }] on videos. *)
Definition video_is (permlink : string) (v : VideoMetadata.t) : bool :=
  VideoMetadata.permlink v =? permlink.

(** The filter [{ owner, permlink }] on jobs. *)
Definition job_is (owner permlink : string) (j : EncodingJob.t) : bool :=
  (EncodingJob.owner j =? owner) && (EncodingJob.permlink j =? permlink).

(** The compound key of the unique index on jobs. *)
Definition job_key (j : EncodingJob.t) : string * string :=
  (EncodingJob.owner j, EncodingJob.permlink j).

Definition createVideoEntry (metadata : VideoMetadata.t) : M unit :=
  db <- requireConnected ;;
  putVideos (videos db ++ [metadata])%list.

Definition updateVideoStatus (permlink : string) (status : VideoStatus.t)
  (additionalData : list VideoMetadata.assign) : M unit :=
  db <- requireConnected ;;
  now <- newDate ;;
  putVideos
    (updateOne (video_is permlink)
       (VideoMetadata.patch
          (VideoMetadata.Status status :: VideoMetadata.UpdatedAt now
             :: additionalData))
       (videos db)).

Definition getVideo (permlink : string) : M (option VideoMetadata.t) :=
  db <- requireConnected ;;
  ret (findOne (video_is permlink) (videos db)).

(** [createIndex({ owner: 1, permlink: 1 }, { unique: true })] makes
    [insertOne] reject a second job with the same owner and permlink. *)
Definition createJob (job : EncodingJob.t) : M unit :=
  db <- requireConnected ;;
  match findOne (job_is (EncodingJob.owner job) (EncodingJob.permlink job))
          (jobs db) with
  | Some _ => throw "E11000 duplicate key error"
  | None => putJobs (jobs db ++ [job])%list
  end.

Definition getJob (owner permlink : string) : M (option EncodingJob.t) :=
  db <- requireConnected ;;
  ret (findOne (job_is owner permlink) (jobs db)).

Definition is_pending (j : EncodingJob.t) : bool :=
  JobStatus.eqb (EncodingJob.status j) JobStatus.pending.

(** [find({ status: 'pending' }).sort({ createdAt: 1 }).limit(limit)] *)
Definition pendingBatch (limit : nat) (js : list EncodingJob.t)
  : list EncodingJob.t :=
  firstn limit (sort_by EncodingJob.createdAt (filter is_pending js)).

(** The job stored under (owner, permlink) is part of the batch that the
    next poll fetches. *)
Definition polled (owner permlink : string) (w : World) : Prop :=
  exists job,
    In job (pendingBatch 5 (jobs (database w))) /\
    job_key job = (owner, permlink).

Definition getPendingJobs (limit : nat) : M (list EncodingJob.t) :=
  db <- requireConnected ;;
  ret (pendingBatch limit (jobs db)).

Definition updateJobStatus (owner permlink : string) (status : JobStatus.t)
  (additionalData : list EncodingJob.assign) : M unit :=
  db <- requireConnected ;;
  now <- newDate ;;
  putJobs
    (updateOne (job_is owner permlink)
       (EncodingJob.patch
          (EncodingJob.Status status :: EncodingJob.UpdatedAt now
             :: additionalData))
       (jobs db)).

Definition incrementJobAttempt (owner permlink : string) : M unit :=
  db <- requireConnected ;;
  now <- newDate ;;
  putJobs
    (updateOne (job_is owner permlink) (EncodingJob.inc_attempt now)
       (jobs db)).

(** *** The Video Lifecycle operations, as the call sites write them *)

(** [onUploadFinish]: [updateVideoStatus(permlink, 'processing',
    { size, input_cid, encodingProgress: 0 })] *)
Definition markProcessing (permlink input_cid : string) (size : option nat)
  : M unit :=
  updateVideoStatus permlink VideoStatus.processing
    [VideoMetadata.Size size; VideoMetadata.Input_cid (Some input_cid);
     VideoMetadata.EncodingProgress 0].

(** [/webhook], complete: [updateVideoStatus(permlink, 'published',
    { manifest_cid, encodingProgress: 100 })] *)
Definition markPublished (permlink : string) (manifest_cid : option string)
  : M unit :=
  updateVideoStatus permlink VideoStatus.published
    [VideoMetadata.Manifest_cid manifest_cid;
     VideoMetadata.EncodingProgress 100].

(** [/webhook], failed, and the [catch] of [onUploadFinish]:
    [updateVideoStatus(permlink, 'failed', { encodingProgress: 0 })] *)
Definition markFailed (permlink : string) : M unit :=
  updateVideoStatus permlink VideoStatus.failed
    [VideoMetadata.EncodingProgress 0].

(** *** dispatcher/jobDispatcher.ts: class JobDispatcher *)

Definition enabledEncoders : list EncoderConfig :=
  filter enabled (encoders config).

(** [enabledEncoders[i % length]] is always within bounds once the list is
    known to be non-empty, so the default of [nth] is never returned. *)
Definition getNextEncoder : M EncoderConfig :=
  fun w =>
    match enabledEncoders with
    | [] => (Throws "No enabled encoders available", w)
    | first :: _ =>
        (Returns
           (nth (currentEncoderIndex w mod length enabledEncoders)
              enabledEncoders first),
         mkWorld (database w) (S (currentEncoderIndex w)) (ticks w))
    end.

(** [m] consecutive selections, in the order they are made. *)
Fixpoint selectMany (m : nat) : M (list EncoderConfig) :=
  match m with
  | 0 => ret []
  | S m' =>
      encoder <- getNextEncoder ;;
      later <- selectMany m' ;;
      ret (encoder :: later)
  end.

(** One background poll after another: [setInterval] runs [processJobs]
    [n] times. *)
Fixpoint polls (poll : M unit) (n : nat) (w : World) : World :=
  match n with
  | 0 => w
  | S n' => polls poll n' (snd (poll w))
  end.

Definition ipfsGateway : string := "https://ipfs.3speak.tv/ipfs".

Definition dispatchJob (owner permlink : string) : M unit :=
  video <- getVideo permlink ;;
  match video with
  | None => throw ("Video not found: " ++ permlink)
  | Some video =>
      if negb (truthy (VideoMetadata.input_cid video)) then
        throw ("Video has no input_cid: " ++ permlink)
      else
        let encoderRequest :=
          mkEncoderRequest owner permlink
            (ipfsGateway ++ "/"
               ++ or_default (VideoMetadata.input_cid video) "")
            (VideoMetadata.short video)
            (webhookUrl config)
            (webhookApiKey config)
            (VideoMetadata.frontend_app video)
            (VideoMetadata.originalFilename video) in
        encoder <- getNextEncoder ;;
        response <- callFetch (url encoder ++ "/encode") (apiKey encoder)
                      encoderRequest ;;
        if negb (ok response) then
          errorText <- settle (text response) ;;
          throw ("Encoder API error: " ++ show_nat (status response)
                   ++ " - " ++ errorText)
        else
          job_id <- settle (json response) ;;
          now <- newDate ;;
          updateJobStatus owner permlink JobStatus.encoding
            [EncodingJob.EncoderJobId job_id;
             EncodingJob.AssignedWorker (Some (name encoder));
             EncodingJob.AssignedAt (Some now)]
  end.

(** The [catch (error)] block of the loop in [processJobs]; [job] is the
    element of [pendingJobs] being processed and [error] the message of
    what [dispatchJob] threw. *)
Definition dispatchFailed (job : EncodingJob.t) (error : string) : M unit :=
  incrementJobAttempt (EncodingJob.owner job) (EncodingJob.permlink job) ;;
  updateJobStatus (EncodingJob.owner job) (EncodingJob.permlink job)
    JobStatus.pending [EncodingJob.LastError (Some error)] ;;
  if (3 <=? EncodingJob.attemptCount job)%nat then
    updateJobStatus (EncodingJob.owner job) (EncodingJob.permlink job)
      JobStatus.failed
      [EncodingJob.LastError (Some ("Max attempts exceeded: " ++ error))] ;;
    updateVideoStatus (EncodingJob.permlink job) VideoStatus.failed []
  else
    ret tt.

(** One iteration of the loop in [processJobs]. *)
Definition processJob (job : EncodingJob.t) : M unit :=
  tryCatch
    (dispatchJob (EncodingJob.owner job) (EncodingJob.permlink job))
    (dispatchFailed job).

Definition processJobs : M unit :=
  tryCatch
    (pendingJobs <- getPendingJobs 5 ;;
     if (length pendingJobs =? 0)%nat then ret tt
     else forEach pendingJobs processJob)
    (fun _ => ret tt).

(** *** index.ts: the routes *)

Definition respond (code : nat) (fields : list (string * Json)) : M Response :=
  ret (mkResponse code fields).

(** [app.post('/webhook', ...)]; [x_api_key] is
    [req.headers['x-api-key']]. *)
Definition webhook (x_api_key : HeaderValue) (payload : WebhookBody)
  : M Response :=
  tryCatch
    (if header_differs x_api_key (webhookApiKey config) then
       respond 401 [("error", JString "Unauthorized")]
     else if wh_status payload =? "complete" then
       markPublished (wh_permlink payload) (wh_manifest_cid payload) ;;
       now <- newDate ;;
       updateJobStatus (wh_owner payload) (wh_permlink payload)
         JobStatus.completed [EncodingJob.WebhookReceivedAt (Some now)] ;;
       respond 200 [("success", JBool true);
                    ("message", JString "Webhook processed successfully")]
     else if wh_status payload =? "failed" then
       markFailed (wh_permlink payload) ;;
       now <- newDate ;;
       updateJobStatus (wh_owner payload) (wh_permlink payload)
         JobStatus.failed
         [EncodingJob.WebhookReceivedAt (Some now);
          EncodingJob.LastError
            (Some (or_default (wh_error payload) "Encoding failed"))] ;;
       respond 200 [("success", JBool true);
                    ("message",
                     JString "Webhook processed (failure recorded)")]
     else
       respond 400 [("error", JString "Unknown status")])
    (fun _ => respond 500 [("error", JString "Internal server error")]).

(** The handler of [app.post('/video/:permlink/thumbnail', requireApiKey,
    ...)], which runs once the [requireApiKey] middleware has called
    [next()]. *)
Definition setThumbnail (permlink : string) (thumbnail_url : option string)
  : M Response :=
  tryCatch
    (if negb (truthy thumbnail_url) then
       respond 400 [("error", JString "thumbnail_url is required")]
     else
       video <- getVideo permlink ;;
       match video with
       | None => respond 404 [("error", JString "Video not found")]
       | Some video =>
           updateVideoStatus permlink (VideoMetadata.status video)
             [VideoMetadata.Thumbnail_url thumbnail_url] ;;
           respond 200 [("success", JBool true);
                        ("thumbnail_url",
                         match thumbnail_url with
                         | Some u => JString u
                         | None => JNull
                         end)]
       end)
    (fun _ => respond 500 [("error", JString "Internal server error")]).

(** [onUploadFinish(req, res, upload)] of the tus server; the clean-up of
    the uploaded file with [unlinkSync] touches no record and swallows its
    own errors. *)
Definition onUploadFinish (upload : Upload) : M unit :=
  if truthy (meta_permlink upload) && truthy (meta_owner upload) then
    match storage_path upload with
    | None => ret tt
    | Some filePath =>
        let permlink := or_default (meta_permlink upload) "" in
        let owner := or_default (meta_owner upload) "" in
        tryCatch
          (input_cid <- callPinFile filePath ;;
           markProcessing permlink input_cid
             (size_or_null (upload_size upload)) ;;
           created <- newDate ;;
           updated <- newDate ;;
           createJob
             (EncodingJob.mk owner permlink JobStatus.pending None None None
                0 None None created updated))
          (fun _ => markFailed permlink)
    end
  else ret tt.

End Service.

(** ** What failed dispatches of a batch leave behind

    [FailedBatch batch w w'] relates the world before and after every job
    of [batch] has gone through the [catch] block once: the store is still
    connected and holds the same keys, jobs outside the batch are as they
    were, each job of the batch has one more attempt and is [pending] or
    [failed] according to the count in the batch, a video keeps any
    property that marking it failed preserves, and the video of a job
    whose count had reached 3 is [failed]. *)
Record FailedBatch (batch : list EncodingJob.t) (w w' : World) : Prop := {
  fb_connected : connected (database w') = true;
  fb_keys :
    map job_key (jobs (database w')) = map job_key (jobs (database w));
  fb_other : forall owner permlink,
    ~ In (owner, permlink) (map job_key batch) ->
    findOne (job_is owner permlink) (jobs (database w'))
    = findOne (job_is owner permlink) (jobs (database w));
  fb_video : forall P : VideoMetadata.t -> Prop,
    (forall t v,
        P v ->
        P (VideoMetadata.patch
             [VideoMetadata.Status VideoStatus.failed;
              VideoMetadata.UpdatedAt t] v)) ->
    forall permlink v,
      findOne (video_is permlink) (videos (database w)) = Some v -> P v ->
      exists v',
        findOne (video_is permlink) (videos (database w')) = Some v' /\ P v';
  fb_job : forall job j,
    In job batch ->
    findOne (job_is (EncodingJob.owner job) (EncodingJob.permlink job))
      (jobs (database w)) = Some j ->
    exists j',
      findOne (job_is (EncodingJob.owner job) (EncodingJob.permlink job))
        (jobs (database w')) = Some j' /\
      EncodingJob.attemptCount j' = EncodingJob.attemptCount j + 1 /\
      (EncodingJob.attemptCount job < 3 ->
       EncodingJob.status j' = JobStatus.pending) /\
      (3 <= EncodingJob.attemptCount job ->
       EncodingJob.status j' = JobStatus.failed /\
       exists e,
         EncodingJob.lastError j' = Some ("Max attempts exceeded: " ++ e));
  fb_failed : forall job v,
    In job batch ->
    3 <= EncodingJob.attemptCount job ->
    findOne (video_is (EncodingJob.permlink job)) (videos (database w))
    = Some v ->
    exists v',
      findOne (video_is (EncodingJob.permlink job)) (videos (database w'))
      = Some v' /\
      VideoMetadata.status v' = VideoStatus.failed
}.

(** ** Observations and sample data used in the examples *)

Definition jobStatusOf (owner permlink : string) (w : World)
  : option JobStatus.t :=
  option_map EncodingJob.status
    (findOne (job_is owner permlink) (jobs (database w))).

Definition videoStatusOf (permlink : string) (w : World)
  : option VideoStatus.t :=
  option_map VideoMetadata.status
    (findOne (video_is permlink) (videos (database w))).

Definition thumbnailOf (permlink : string) (w : World)
  : option (option string) :=
  option_map VideoMetadata.thumbnail_url
    (findOne (video_is permlink) (videos (database w))).

Definition sample_clock : nat -> Date := fun n => 1000 + n.

Definition sample_fetch
  : nat -> string -> string -> EncoderRequest -> Outcome HttpResponse :=
  fun _ _ _ _ => Throws "fetch failed".

Definition sample_encoder (label : string) (on : bool) : EncoderConfig :=
  mkEncoder label ("https://" ++ label ++ ".example") "key" on.

(** Three encoders in rotation and one switched off. *)
Definition sample_config : Config :=
  mkConfig
    [sample_encoder "w1" true; sample_encoder "off" false;
     sample_encoder "w2" true; sample_encoder "w3" true]
    "secret" "https://embed.example/webhook".

(** Encoders configured, none enabled. *)
Definition idle_config : Config :=
  mkConfig [sample_encoder "w1" false] "secret"
    "https://embed.example/webhook".

Definition sample_video (status : VideoStatus.t) : VideoMetadata.t :=
  VideoMetadata.mk "alice" "ab12cd34" "demo" status (Some "Qm123") None None
    false None (Some 4096) 0 (Some "clip.mp4") 10 20.

Definition sample_job (attempts : nat) : EncodingJob.t :=
  EncodingJob.mk "alice" "ab12cd34" JobStatus.pending None None None attempts
    None None 30 30.

Definition sample_world (status : VideoStatus.t) (attempts : nat) : World :=
  mkWorld (mkDatabase true [sample_video status] [sample_job attempts]) 0 0.

(** An encoder that accepts every job, and a pin that succeeds. *)
Definition accepting_fetch
  : nat -> string -> string -> EncoderRequest -> Outcome HttpResponse :=
  fun _ _ _ _ =>
    Returns (mkHttpResponse true 200 (Returns "") (Returns (Some "job-1"))).

Definition sample_pin : nat -> string -> Outcome string :=
  fun _ _ => Returns "Qm123".

Definition single_config : Config :=
  mkConfig [sample_encoder "w1" true] "secret"
    "https://embed.example/webhook".

(** The store right after [onUploadCreate]: the video is [uploading], not
    pinned yet, and has no job. *)
Definition fresh_upload_world : World :=
  mkWorld
    (mkDatabase true
       [VideoMetadata.mk "alice" "ab12cd34" "demo" VideoStatus.uploading
          None None None false None (Some 4096) 0 (Some "clip.mp4") 10 10]
       [])
    0 0.

Definition sample_upload : Upload :=
  mkUpload (Some "ab12cd34") (Some "alice") (Some 4096)
    (Some "/uploads/f00").

Definition sample_report : WebhookBody :=
  mkWebhookBody "alice" "ab12cd34" "complete" (Some "Qm456") None.

(** The upload carries a permlink, an owner and a stored file. *)
Definition finishable (upload : Upload) (owner permlink filePath : string)
  : Prop :=
  meta_permlink upload = Some permlink /\ permlink <> "" /\
  meta_owner upload = Some owner /\ owner <> "" /\
  storage_path upload = Some filePath.

(** A queue with an older and a newer pending job around a completed
    one. *)
Definition queued_job (owner permlink : string) (status : JobStatus.t)
  (created : Date) : EncodingJob.t :=
  EncodingJob.mk owner permlink status None None None 0 None None created
    created.

Definition busy_world : World :=
  mkWorld
    (mkDatabase true [sample_video VideoStatus.processing]
       [queued_job "alice" "ab12cd34" JobStatus.pending 30;
        queued_job "bob" "bb22bb22" JobStatus.completed 20;
        queued_job "carol" "cc33cc33" JobStatus.pending 10])
    0 0.

(** An encoder that answers 503 with a text body. *)
Definition refusing_fetch
  : nat -> string -> string -> EncoderRequest -> Outcome HttpResponse :=
  fun _ _ _ _ =>
    Returns (mkHttpResponse false 503 (Returns "busy") (Throws "no body")).

Definition failing_pin : nat -> string -> Outcome string :=
  fun _ _ => Throws "connect ECONNREFUSED".

Definition failed_report : WebhookBody :=
  mkWebhookBody "alice" "ab12cd34" "failed" None (Some "ffmpeg exited").

(** ** API keys: database/mongodb.ts, middleware/auth.ts,
    middleware/adminAuth.ts, utils/keyGenerator.ts and the admin routes *)

Module ApiKey.
Record t := mk {
  key : string;
  app_name : string;
  owner : string;
  active : bool;
  createdAt : Date;
  lastUsed : option Date
}.

(** [{ $set: { active } }] *)
Definition set_active (a : bool) (k : t) : t :=
  mk (key k) (app_name k) (owner k) a (createdAt k) (lastUsed k).

(** [{ $set: { lastUsed: new Date() } }] *)
Definition set_lastUsed (now : Date) (k : t) : t :=
  mk (key k) (app_name k) (owner k) (active k) (createdAt k) (Some now).
End ApiKey.

(** The process state together with the ['embed-api-keys'] collection of
    the same [Database] object. *)
Record Server := mkServer {
  world : World;
  apiKeys : list ApiKey.t
}.

(** The monad of [async] code that also touches the API keys. *)
Definition K (A : Type) := Server -> Outcome A * Server.

Definition retK {A} (a : A) : K A := fun s => (Returns a, s).

Definition bindK {A B} (c : K A) (k : A -> K B) : K B :=
  fun s =>
    match c s with
    | (Returns a, s') => k a s'
    | (Throws e, s') => (Throws e, s')
    end.

Definition tryCatchK {A} (c : K A) (handler : string -> K A) : K A :=
  fun s =>
    match c s with
    | (Returns a, s') => (Returns a, s')
    | (Throws e, s') => handler e s'
    end.

(** Code that only touches videos, jobs, the cursor or the clock. *)
Definition liftW {A} (c : M A) : K A :=
  fun s =>
    match c (world s) with
    | (o, w') => (o, mkServer w' (apiKeys s))
    end.

Declare Scope server_scope.
Delimit Scope server_scope with server.
Notation "x <- c ;; k" := (bindK c (fun x => k))
  (at level 61, c at next level, right associativity) : server_scope.
Notation "c ;; k" := (bindK c (fun _ => k))
  (at level 61, right associativity) : server_scope.

(** What [req.headers[name] as string || req.headers['authorization']
    ?.replace('Bearer ', '')] evaluates to, as far as the code goes on to
    use it: falsy ([undefined] or the empty string), a non-empty string, or
    an array of strings. *)
Inductive Credential :=
| no_credential
| credential (value : string)
| not_a_string.

(** [s.slice(n)] *)
Fixpoint drop (n : nat) (s : string) : string :=
  match n, s with
  | S n', String _ rest => drop n' rest
  | _, _ => s
  end.

(** [s.replace(pattern, replacement)] for a string pattern: the first
    occurrence only. *)
Fixpoint replace_first (pattern replacement s : string) : string :=
  if String.prefix pattern s then
    replacement ++ drop (String.length pattern) s
  else
    match s with
    | "" => ""
    | String c rest => String c (replace_first pattern replacement rest)
    end.

Definition bearer (authorization : option string) : Credential :=
  match authorization with
  | None => no_credential
  | Some value =>
      let token := replace_first "Bearer " "" value in
      if token =? "" then no_credential else credential token
  end.

Definition credential_of (header : HeaderValue)
  (authorization : option string) : Credential :=
  match header with
  | absent => bearer authorization
  | single value =>
      if value =? "" then bearer authorization else credential value
  | multiple _ => not_a_string
  end.

(** What a middleware does with a request: call [next()], here with what
    it attached to the request, or answer it. *)
Inductive Gate (A : Type) :=
| next (attached : A)
| refused (response : Response).
Arguments next {A} attached.
Arguments refused {A} response.

(** [middleware/adminAuth.ts]: [createAdminAuthMiddleware(config)];
    [adminPassword] is [config.adminPassword]. *)
Definition requireAdminAuth (adminPassword : string)
  (x_admin_password : HeaderValue) (authorization : option string)
  : Gate unit :=
  match credential_of x_admin_password authorization with
  | no_credential =>
      refused
        (mkResponse 401
           [("error", JString "Admin password required");
            ("message",
             JString "Please provide admin password in X-Admin-Password or Authorization header")])
  | credential password =>
      if negb (password =? adminPassword) then
        refused
          (mkResponse 403
             [("error", JString "Invalid admin password");
              ("message",
               JString "The provided admin password is incorrect")])
      else next tt
  | not_a_string =>
      refused
        (mkResponse 403
           [("error", JString "Invalid admin password");
            ("message", JString "The provided admin password is incorrect")])
  end.





Section Keys.
Variable clock : nat -> Date.
(** [randomHex n] is what [crypto.randomBytes(24).toString('hex')] gives
    and [videoId n] what [generateVideoId()] gives when it is the
    interaction number [n] of the process. *)
Variable randomHex : nat -> string.
Variable videoId : nat -> string.
(** [config.baseUrl] *)
Variable baseUrl : string.

Local Open Scope server_scope.

Definition putKeys (ks : list ApiKey.t) : K unit :=
  fun s => (Returns tt, mkServer (world s) ks).

Definition readKeys : K (list ApiKey.t) :=
  fun s => (Returns (apiKeys s), s).

(** [if (!this.db) throw new Error('Database not connected')] *)
Definition requireDb : K unit :=
  _ <- liftW requireConnected ;; retK tt.

(** The filter [{ key }] on API keys. *)
Definition key_is (key : string) (k : ApiKey.t) : bool :=
  ApiKey.key k =? key.


Definition getApiKey (key : string) : K (option ApiKey.t) :=
  requireDb ;;
  ks <- readKeys ;;
  retK (findOne (key_is key) ks).

Definition updateApiKeyStatus (key : string) (active : bool) : K unit :=
  requireDb ;;
  ks <- readKeys ;;
  putKeys (updateOne (key_is key) (ApiKey.set_active active) ks).

Definition updateApiKeyLastUsed (key : string) : K unit :=
  requireDb ;;
  now <- liftW (newDate clock) ;;
  ks <- readKeys ;;
  putKeys (updateOne (key_is key) (ApiKey.set_lastUsed now) ks).

(** [getApiKey] called with what the headers gave: no stored key is an
    array, so an array finds nothing. *)
Definition findCredential (c : Credential) : K (option ApiKey.t) :=
  match c with
  | credential key => getApiKey key
  | _ => requireDb ;; retK None
  end.

(** [database.updateApiKeyLastUsed(apiKey).catch(console.error)] *)
Definition touchLastUsed (c : Credential) : K unit :=
  match c with
  | credential key =>
      tryCatchK (updateApiKeyLastUsed key) (fun _ => retK tt)
  | _ => tryCatchK requireDb (fun _ => retK tt)
  end.

Definition respondK (code : nat) (fields : list (string * Json))
  : K Response :=
  retK (mkResponse code fields).

(** [middleware/auth.ts]: [createApiKeyMiddleware(database)] *)
Definition requireApiKey (x_api_key : HeaderValue)
  (authorization : option string) : K (Gate ApiKey.t) :=
  tryCatchK
    (let apiKey := credential_of x_api_key authorization in
     match apiKey with
     | no_credential =>
         retK (refused
                 (mkResponse 401
                    [("error", JString "API key required");
                     ("message",
                      JString "Please provide an API key in X-API-Key or Authorization header")]))
     | _ =>
         keyData <- findCredential apiKey ;;
         match keyData with
         | None =>
             retK (refused
                     (mkResponse 401
                        [("error", JString "Invalid API key");
                         ("message",
                          JString "The provided API key does not exist")]))
         | Some keyData =>
             if negb (ApiKey.active keyData) then
               retK (refused
                       (mkResponse 403
                          [("error", JString "API key revoked");
                           ("message",
                            JString "This API key has been deactivated. Please contact support.")]))
             else
               touchLastUsed apiKey ;;
               retK (next keyData)
         end
     end)
    (fun _ =>
       retK (refused
               (mkResponse 500 [("error", JString "Internal server error")]))).

(** [app.post('/video/:permlink/thumbnail', requireApiKey, handler)] *)
Definition postThumbnail (x_api_key : HeaderValue)
  (authorization : option string) (permlink : string)
  (thumbnail_url : option string) : K Response :=
  gate <- requireApiKey x_api_key authorization ;;
  match gate with
  | refused response => retK response
  | next _ => liftW (setThumbnail clock permlink thumbnail_url)
  end.


(** The handler of [app.patch('/admin/api-keys/:key', requireAdminAuth,
    ...)]; [active] is [None] when [req.body.active] is not a boolean. *)
Definition patchApiKey (key : string) (active : option bool) : K Response :=
  tryCatchK
    (match active with
     | None => respondK 400 [("error", JString "active must be a boolean")]
     | Some active =>
         apiKey <- getApiKey key ;;
         match apiKey with
         | None => respondK 404 [("error", JString "API key not found")]
         | Some _ =>
             updateApiKeyStatus key active ;;
             respondK 200 [("success", JBool true); ("key", JString key);
                           ("active", JBool active)]
         end
     end)
    (fun _ => respondK 500 [("error", JString "Internal server error")]).

(** The [upload.metadata] and [upload.size] that [onUploadCreate] reads. *)
Record NewUpload := mkNewUpload {
  new_owner : option string;
  new_username : option string;
  new_frontend_app : option string;
  new_short : option string;
  new_filename : option string;
  new_size : option nat
}.

(** [metadata?.short === 'true'] *)
Definition is_true (flag : option string) : bool :=
  match flag with
  | Some value => value =? "true"
  | None => false
  end.

(** [a || null] on a [string | undefined] *)
Definition or_null (a : option string) : option string :=
  if truthy a then a else None.

(** What [onUploadCreate] leaves on the response and on the upload: either
    the upload goes on, with the permlink and owner written into its
    metadata and the embed URL in the [X-Embed-URL] header, or the request
    is answered with an error. *)
Inductive Creation :=
| created (permlink owner embedUrl : string)
| denied (response : Response).

(** [onUploadCreate(req, res, upload)] of the tus server. *)
Definition onUploadCreate (x_api_key : HeaderValue)
  (authorization : option string) (upload : NewUpload) : K Creation :=
  tryCatchK
    (let apiKey := credential_of x_api_key authorization in
     match apiKey with
     | no_credential =>
         retK (denied (mkResponse 401 [("error", JString "API key required")]))
     | _ =>
         keyData <- findCredential apiKey ;;
         if match keyData with
            | Some keyData => ApiKey.active keyData
            | None => false
            end
         then
           touchLastUsed apiKey ;;
           let owner :=
             or_default (new_owner upload)
               (or_default (new_username upload) "unknown") in
           permlink <- liftW (fun w => (Returns (videoId (ticks w)), tick w)) ;;
           let frontend_app := or_default (new_frontend_app upload) "unknown" in
           createdAt <- liftW (newDate clock) ;;
           updatedAt <- liftW (newDate clock) ;;
           liftW (createVideoEntry
                    (VideoMetadata.mk owner permlink frontend_app
                       VideoStatus.uploading None None None
                       (is_true (new_short upload)) None
                       (size_or_null (new_size upload)) 0
                       (or_null (new_filename upload))
                       createdAt updatedAt)) ;;
           retK (created permlink owner
                   (baseUrl ++ "?v=" ++ owner ++ "/" ++ permlink))
         else
           retK (denied
                   (mkResponse 401
                      [("error", JString "Invalid or inactive API key")]))
     end)
    (fun _ =>
       retK (denied
               (mkResponse 500 [("error", JString "Upload creation failed")]))).

End Keys.

(** Sample data for the API keys. *)
Definition sample_key (active : bool) : ApiKey.t :=
  ApiKey.mk "sk_demo_0123" "demo" "system" active 5 None.

Definition sample_server (active : bool) : Server :=
  mkServer (sample_world VideoStatus.processing 0) [sample_key active].


Definition sample_videoId : nat -> string := fun _ => "zz99zz99".

Definition sample_new_upload : NewUpload :=
  mkNewUpload None (Some "bob") None (Some "true") (Some "clip.mp4")
    (Some 4096).

(** ** dispatcher/jobDispatcher.ts: [start] and [stop] *)

(** The fields [intervalId] and [isRunning] of the dispatcher; a timer
    handle is a number. *)
Record Poller := mkPoller {
  intervalId : option nat;
  isRunning : bool
}.

(** What [start] and [stop] ask of the runtime. *)
Inductive TimerCall :=
| RunProcessJobs
| SetInterval (handle milliseconds : nat)
| ClearInterval (handle : nat).

(** [start(intervalSeconds = 30)]; [handle] is what [setInterval]
    returns. *)
Definition start (intervalSeconds : option nat) (handle : nat) (p : Poller)
  : Poller * list TimerCall :=
  if isRunning p then (p, [])
  else
    (mkPoller (Some handle) true,
     [RunProcessJobs;
      SetInterval handle
        (match intervalSeconds with
         | Some seconds => seconds
         | None => 30
         end * 1000)]).

Definition stop (p : Poller) : Poller * list TimerCall :=
  match intervalId p with
  | Some handle => (mkPoller None false, [ClearInterval handle])
  | None => (p, [])
  end.

Inductive PollerCall :=
| Start (intervalSeconds : option nat)
| Stop.

(** A sequence of calls on one dispatcher; the runtime hands out the
    handles [fresh], [fresh + 1], ... *)
Fixpoint drive (calls : list PollerCall) (fresh : nat) (p : Poller)
  : Poller * list TimerCall :=
  match calls with
  | [] => (p, [])
  | Start seconds :: rest =>
      let '(p1, asked1) := start seconds fresh p in
      let '(p2, asked2) := drive rest (S fresh) p1 in
      (p2, (asked1 ++ asked2)%list)
  | Stop :: rest =>
      let '(p1, asked1) := stop p in
      let '(p2, asked2) := drive rest fresh p1 in
      (p2, (asked1 ++ asked2)%list)
  end.

(** The intervals that are set and not cleared after the given calls,
    starting from the intervals [running]. *)
Fixpoint live (asked : list TimerCall) (running : list nat) : list nat :=
  match asked with
  | [] => running
  | RunProcessJobs :: rest => live rest running
  | SetInterval handle _ :: rest => live rest (handle :: running)
  | ClearInterval handle :: rest =>
      live rest (filter (fun h => negb (h =? handle)%nat) running)
  end.

(** The dispatcher's fields agree with the intervals that are running. *)
Definition in_step (p : Poller) (running : list nat) : Prop :=
  running = match intervalId p with
            | Some handle => [handle]
            | None => []
            end /\
  (isRunning p = true <-> intervalId p <> None).

(** ** config/config.ts: [parseEncoders] *)

(** The environment variables [parseEncoders] reads. *)
Record Env := mkEnv {
  ENCODERS : option string;
  ENCODER_API_URL : option string;
  ENCODER_API_KEY : option string
}.

(** [parse] is [JSON.parse(...) as EncoderConfig[]]. *)
Definition parseEncoders (parse : string -> Outcome (list EncoderConfig))
  (env : Env) : list EncoderConfig :=
  let encoders :=
    if truthy (ENCODERS env) then
      match parse (or_default (ENCODERS env) "") with
      | Returns parsed => filter enabled parsed
      | Throws _ => []
      end
    else [] in
  if (length encoders =? 0)%nat && truthy (ENCODER_API_URL env)
     && truthy (ENCODER_API_KEY env)
  then
    (encoders
       ++ [mkEncoder "default" (or_default (ENCODER_API_URL env) "")
             (or_default (ENCODER_API_KEY env) "") true])%list
  else encoders.

(** ** utils/ipfs.ts: [pinFile] *)

(** [addToIpfs n apiUrl filePath] is what the [n]-th call of [addToIpfs]
    resolves or rejects with; [supernode] is
    [config.ipfsSupernodeEndpoint]. A rejection is an [Error], which a
    template literal renders as "Error: " followed by its message. *)
Definition pinFile_via (addToIpfs : nat -> string -> string -> Outcome string)
  (supernode filePath : string) : Outcome string :=
  match addToIpfs 0 "http://127.0.0.1:5001" filePath with
  | Returns cid => Returns cid
  | Throws _ =>
      match addToIpfs 1 supernode filePath with
      | Returns cid => Returns cid
      | Throws supernodeError =>
          Throws ("Failed to pin file to IPFS: " ++ "Error: "
                    ++ supernodeError)
      end
  end.

(** Sample data for the configuration and the pin. *)
Definition sample_parse : string -> Outcome (list EncoderConfig) :=
  fun _ => Returns [sample_encoder "w1" true; sample_encoder "off" false].

Definition sample_env : Env := mkEnv (Some "[]") None None.

Definition sample_addToIpfs : nat -> string -> string -> Outcome string :=
  fun n _ _ =>
    match n with
    | 0 => Throws "connect ECONNREFUSED"
    | _ => Returns "Qm123"
    end.

(** ** What any batch leaves behind

    [BatchEffect batch w w'] is what one pass over [batch] guarantees
    whether the dispatches succeed or fail: the store stays connected and
    holds the same job keys, jobs outside the batch are as they were, each
    job of the batch has either been handed to an encoder or been charged
    one attempt, and a video keeps any property that marking it failed
    preserves. *)
Record BatchEffect (batch : list EncodingJob.t) (w w' : World) : Prop := {
  be_connected : connected (database w') = true;
  be_keys :
    map job_key (jobs (database w')) = map job_key (jobs (database w));
  be_other : forall owner permlink,
    ~ In (owner, permlink) (map job_key batch) ->
    findOne (job_is owner permlink) (jobs (database w'))
    = findOne (job_is owner permlink) (jobs (database w));
  be_job : forall job j,
    In job batch ->
    findOne (job_is (EncodingJob.owner job) (EncodingJob.permlink job))
      (jobs (database w)) = Some j ->
    exists j',
      findOne (job_is (EncodingJob.owner job) (EncodingJob.permlink job))
        (jobs (database w')) = Some j' /\
      ((EncodingJob.status j' = JobStatus.encoding /\
        EncodingJob.attemptCount j' = EncodingJob.attemptCount j) \/
       (EncodingJob.attemptCount j' = EncodingJob.attemptCount j + 1 /\
        EncodingJob.status j'
        = if (3 <=? EncodingJob.attemptCount job)%nat
          then JobStatus.failed else JobStatus.pending));
  be_video : forall P : VideoMetadata.t -> Prop,
    (forall t v,
        P v ->
        P (VideoMetadata.patch
             [VideoMetadata.Status VideoStatus.failed;
              VideoMetadata.UpdatedAt t] v)) ->
    forall permlink v,
      findOne (video_is permlink) (videos (database w)) = Some v -> P v ->
      exists v',
        findOne (video_is permlink) (videos (database w')) = Some v' /\ P v'
}.

(** * Properties *)

(** ** Collections *)

Section CollectionFacts.
Variable A : Type.
Variables (f : A -> bool) (u : A -> A).

Lemma updateOne_absent (l : list A) :
  findOne f l = None -> updateOne f u l = l.
Proof.
  unfold findOne.
  induction l as [|d rest IH]; simpl; [reflexivity|].
  destruct (f d); [discriminate|].
  intros H. now rewrite IH.
Qed.

Lemma findOne_updateOne_same (l : list A) (x : A) :
  findOne f l = Some x -> f (u x) = true ->
  findOne f (updateOne f u l) = Some (u x).
Proof.
  unfold findOne.
  induction l as [|d rest IH]; simpl; [discriminate|].
  destruct (f d) eqn:Hd; simpl.
  - intros [= ->] Hx. now rewrite Hx.
  - intros H Hx. rewrite Hd. now apply IH.
Qed.

(** A filter that the update preserves and that never holds together with
    the update's own filter sees the same document before and after. *)
Lemma findOne_updateOne_other (g : A -> bool) (l : list A) :
  (forall x, g (u x) = g x) ->
  (forall x, f x = true -> g x = false) ->
  findOne g (updateOne f u l) = findOne g l.
Proof.
  unfold findOne. intros Hu Hfg.
  induction l as [|d rest IH]; simpl; [reflexivity|].
  destruct (f d) eqn:Hd; simpl.
  - rewrite Hu, (Hfg d Hd). reflexivity.
  - now rewrite IH.
Qed.

Lemma map_updateOne B (key : A -> B) (l : list A) :
  (forall x, key (u x) = key x) ->
  map key (updateOne f u l) = map key l.
Proof.
  intros Hk. induction l as [|d rest IH]; simpl; [reflexivity|].
  destruct (f d); simpl; [now rewrite Hk | now rewrite IH].
Qed.

End CollectionFacts.

(** ** The filters survive the updates the code performs *)

Lemma video_patch_permlink (doc : list VideoMetadata.assign) :
  (forall x, ~ In (VideoMetadata.Permlink x) doc) ->
  forall v,
    VideoMetadata.permlink (VideoMetadata.patch doc v)
    = VideoMetadata.permlink v.
Proof.
  unfold VideoMetadata.patch.
  induction doc as [|a doc IH]; intros Hno v; simpl; [reflexivity|].
  rewrite IH.
  - destruct v, a; try reflexivity.
    exfalso. apply (Hno x). now left.
  - intros x Hx. apply (Hno x). now right.
Qed.

Lemma job_patch_key (doc : list EncodingJob.assign) :
  (forall x, ~ In (EncodingJob.Owner x) doc) ->
  (forall x, ~ In (EncodingJob.Permlink x) doc) ->
  forall j,
    EncodingJob.owner (EncodingJob.patch doc j) = EncodingJob.owner j /\
    EncodingJob.permlink (EncodingJob.patch doc j) = EncodingJob.permlink j.
Proof.
  unfold EncodingJob.patch.
  induction doc as [|a doc IH]; intros Ho Hp j; simpl; [now split|].
  destruct (IH (fun x H => Ho x (or_intror H))
               (fun x H => Hp x (or_intror H)) (EncodingJob.set a j))
    as [-> ->].
  destruct j, a; simpl; try (now split); exfalso.
  - apply (Ho x). now left.
  - apply (Hp x). now left.
Qed.

(** ** Reading the store *)

Lemma getVideo_inv permlink w r w' :
  getVideo permlink w = (Returns r, w') ->
  connected (database w) = true /\ w' = w /\
  r = findOne (video_is permlink) (videos (database w)).
Proof.
  unfold getVideo, bind, requireConnected, ret.
  destruct (connected (database w)); [|discriminate].
  intros [= <- <-]. auto.
Qed.

Lemma getJob_inv owner permlink w r w' :
  getJob owner permlink w = (Returns r, w') ->
  connected (database w) = true /\ w' = w /\
  r = findOne (job_is owner permlink) (jobs (database w)).
Proof.
  unfold getJob, bind, requireConnected, ret.
  destruct (connected (database w)); [|discriminate].
  intros [= <- <-]. auto.
Qed.

Lemma getVideo_connected permlink w :
  connected (database w) = true ->
  getVideo permlink w
  = (Returns (findOne (video_is permlink) (videos (database w))), w).
Proof.
  intros H. unfold getVideo, bind, requireConnected, ret. now rewrite H.
Qed.

Lemma getJob_connected owner permlink w :
  connected (database w) = true ->
  getJob owner permlink w
  = (Returns (findOne (job_is owner permlink) (jobs (database w))), w).
Proof.
  intros H. unfold getJob, bind, requireConnected, ret. now rewrite H.
Qed.

(** ** Writing the store: what each call leaves behind *)

Section Writes.
Variable clock : nat -> Date.

Lemma updateVideoStatus_connected permlink status additionalData w :
  connected (database w) = true ->
  updateVideoStatus clock permlink status additionalData w
  = (Returns tt,
     mkWorld
       (mkDatabase true
          (updateOne (video_is permlink)
             (VideoMetadata.patch
                (VideoMetadata.Status status
                   :: VideoMetadata.UpdatedAt (clock (ticks w))
                   :: additionalData))
             (videos (database w)))
          (jobs (database w)))
       (currentEncoderIndex w) (S (ticks w))).
Proof.
  intros H.
  unfold updateVideoStatus, bind, requireConnected, newDate, putVideos.
  rewrite H. simpl. now rewrite H.
Qed.

Lemma updateJobStatus_connected owner permlink status additionalData w :
  connected (database w) = true ->
  updateJobStatus clock owner permlink status additionalData w
  = (Returns tt,
     mkWorld
       (mkDatabase true (videos (database w))
          (updateOne (job_is owner permlink)
             (EncodingJob.patch
                (EncodingJob.Status status
                   :: EncodingJob.UpdatedAt (clock (ticks w))
                   :: additionalData))
             (jobs (database w))))
       (currentEncoderIndex w) (S (ticks w))).
Proof.
  intros H.
  unfold updateJobStatus, bind, requireConnected, newDate, putJobs.
  rewrite H. simpl. now rewrite H.
Qed.

Lemma incrementJobAttempt_connected owner permlink w :
  connected (database w) = true ->
  incrementJobAttempt clock owner permlink w
  = (Returns tt,
     mkWorld
       (mkDatabase true (videos (database w))
          (updateOne (job_is owner permlink)
             (EncodingJob.inc_attempt (clock (ticks w)))
             (jobs (database w))))
       (currentEncoderIndex w) (S (ticks w))).
Proof.
  intros H.
  unfold incrementJobAttempt, bind, requireConnected, newDate, putJobs.
  rewrite H. simpl. now rewrite H.
Qed.


End Writes.

(** ** Video status updates on a permlink that has no record *)

Section MissingVideo.
Variable config : Config.
Variable clock : nat -> Date.

Lemma updateVideoStatus_absent permlink status additionalData w :
  getVideo permlink w = (Returns None, w) ->
  updateVideoStatus clock permlink status additionalData w
  = (Returns tt, tick w).
Proof.
  intros H. apply getVideo_inv in H. destruct H as (Hc & _ & Hnone).
  rewrite updateVideoStatus_connected by exact Hc.
  rewrite updateOne_absent by (symmetry; exact Hnone).
  unfold tick. destruct w as [[c vs js] i t]. simpl in *. now subst c.
Qed.

(** C10. A video status update on a permlink for which the store holds no
    video returns normally and leaves every record as it was: this holds
    for [updateVideoStatus] with any status and any additional data, hence
    for [markProcessing], [markPublished] and [markFailed]; and a webhook
    report for such a permlink is answered with success while the video
    collection stays unchanged. *)
Theorem video_update_without_record_is_noop permlink w :
  getVideo permlink w = (Returns None, w) ->
  (forall status additionalData,
      updateVideoStatus clock permlink status additionalData w
      = (Returns tt, tick w)) /\
  (forall input_cid size,
      markProcessing clock permlink input_cid size w = (Returns tt, tick w)) /\
  (forall manifest_cid,
      markPublished clock permlink manifest_cid w = (Returns tt, tick w)) /\
  markFailed clock permlink w = (Returns tt, tick w) /\
  database (tick w) = database w /\
  (forall payload,
      wh_permlink payload = permlink ->
      wh_status payload = "complete" \/ wh_status payload = "failed" ->
      let out :=
        webhook config clock (single (webhookApiKey config)) payload w in
      (exists response,
          fst out = Returns response /\ statusCode response = 200) /\
      videos (database (snd out)) = videos (database w)).
Proof.
  intros H.
  pose proof (getVideo_inv _ _ H) as (Hc & _ & Hnone).
  split; [intros; now apply updateVideoStatus_absent|].
  split; [intros; now apply updateVideoStatus_absent|].
  split; [intros; now apply updateVideoStatus_absent|].
  split; [now apply updateVideoStatus_absent|].
  split; [reflexivity|].
  intros payload Hp Hstatus. cbv zeta.
  unfold webhook, tryCatch, bind, header_differs.
  rewrite String.eqb_refl. cbn [negb].
  unfold markPublished, markFailed. rewrite Hp.
  destruct Hstatus as [Hs|Hs]; rewrite Hs; simpl;
    rewrite updateVideoStatus_absent by exact H;
    unfold newDate; simpl;
    rewrite updateJobStatus_connected by exact Hc;
    (split; [eexists; split; reflexivity | reflexivity]).
Qed.

End MissingVideo.

(** ** The Video Lifecycle operations *)

Lemma updateOne_again A (f : A -> bool) (u1 u2 u2' : A -> A) (l : list A) :
  (forall x, f x = true -> f (u1 x) = true) ->
  (forall x, u2 (u1 x) = u2' (u1 x)) ->
  updateOne f u2 (updateOne f u1 l) = updateOne f u2' (updateOne f u1 l).
Proof.
  intros Hf Hu. induction l as [|d rest IH]; simpl; [reflexivity|].
  destruct (f d) eqn:Hd; simpl.
  - now rewrite (Hf d Hd), Hu.
  - now rewrite Hd, IH.
Qed.

Lemma video_is_patch permlink doc v :
  (forall x, ~ In (VideoMetadata.Permlink x) doc) ->
  video_is permlink (VideoMetadata.patch doc v) = video_is permlink v.
Proof.
  intros H. unfold video_is. now rewrite video_patch_permlink.
Qed.

Lemma job_is_patch owner permlink doc j :
  (forall x, ~ In (EncodingJob.Owner x) doc) ->
  (forall x, ~ In (EncodingJob.Permlink x) doc) ->
  job_is owner permlink (EncodingJob.patch doc j) = job_is owner permlink j.
Proof.
  intros Ho Hp. unfold job_is.
  now destruct (job_patch_key doc Ho Hp j) as [-> ->].
Qed.

(** Discharges "this [$set] document does not assign the key". *)
Ltac no_key :=
  let x := fresh in let H := fresh in
  intros x H; simpl in H;
  repeat (destruct H as [H|H]; [discriminate H|]); exact H.

Lemma findOne_video_other permlink other doc vs :
  other <> permlink ->
  (forall x, ~ In (VideoMetadata.Permlink x) doc) ->
  findOne (video_is other)
    (updateOne (video_is permlink) (VideoMetadata.patch doc) vs)
  = findOne (video_is other) vs.
Proof.
  intros Hne Hdoc. apply findOne_updateOne_other.
  - intros x. now apply video_is_patch.
  - unfold video_is. intros x Hx. apply String.eqb_eq in Hx.
    apply String.eqb_neq. congruence.
Qed.

Section Lifecycle.
Variable clock : nat -> Date.

(** C8. On a connected store [markFailed] never throws, and calling it a
    second time on the same permlink changes nothing but the [updatedAt]
    of the video it had already marked: after the first call the video has
    status [failed] and [encodingProgress] 0, after the second call it is
    that same record with a fresh [updatedAt], and no other video and no
    job differs. *)
Theorem markFailed_idempotent permlink w :
  connected (database w) = true ->
  exists w1 w2,
    markFailed clock permlink w = (Returns tt, w1) /\
    markFailed clock permlink w1 = (Returns tt, w2) /\
    (forall v,
        getVideo permlink w = (Returns (Some v), w) ->
        exists v1,
          getVideo permlink w1 = (Returns (Some v1), w1) /\
          VideoMetadata.status v1 = VideoStatus.failed /\
          VideoMetadata.encodingProgress v1 = 0 /\
          getVideo permlink w2
          = (Returns
               (Some (VideoMetadata.set
                        (VideoMetadata.UpdatedAt (clock (ticks w1))) v1)),
             w2)) /\
    videos (database w2)
    = updateOne (video_is permlink)
        (VideoMetadata.set (VideoMetadata.UpdatedAt (clock (ticks w1))))
        (videos (database w1)) /\
    jobs (database w2) = jobs (database w) /\
    connected (database w2) = true.
Proof.
  intros Hc. unfold markFailed.
  rewrite updateVideoStatus_connected by exact Hc.
  eexists; eexists. split; [reflexivity|].
  rewrite updateVideoStatus_connected by reflexivity. simpl.
  split; [reflexivity|]. simpl.
  assert (Hagain : forall t (l : list VideoMetadata.t),
    updateOne (video_is permlink)
      (VideoMetadata.patch
         [VideoMetadata.Status VideoStatus.failed;
          VideoMetadata.UpdatedAt t; VideoMetadata.EncodingProgress 0])
      (updateOne (video_is permlink)
         (VideoMetadata.patch
            [VideoMetadata.Status VideoStatus.failed;
             VideoMetadata.UpdatedAt (clock (ticks w));
             VideoMetadata.EncodingProgress 0]) l)
    = updateOne (video_is permlink)
        (VideoMetadata.set (VideoMetadata.UpdatedAt t))
        (updateOne (video_is permlink)
           (VideoMetadata.patch
              [VideoMetadata.Status VideoStatus.failed;
               VideoMetadata.UpdatedAt (clock (ticks w));
               VideoMetadata.EncodingProgress 0]) l)).
  { intros t l. apply updateOne_again.
    - intros x Hx. rewrite video_is_patch; [exact Hx | no_key].
    - intros [o p f s i m th sh d sz e fn c u]. reflexivity. }
  repeat split.
  - intros v Hv. apply getVideo_inv in Hv. destruct Hv as (_ & _ & Hv).
    symmetry in Hv.
    pose proof (findOne_updateOne_same (video_is permlink)
      (VideoMetadata.patch
         [VideoMetadata.Status VideoStatus.failed;
          VideoMetadata.UpdatedAt (clock (ticks w));
          VideoMetadata.EncodingProgress 0]) _ Hv) as H1.
    assert (Hk : video_is permlink v = true)
      by (apply (find_some _ _ Hv)).
    rewrite video_is_patch in H1 by no_key. specialize (H1 Hk).
    eexists. split; [|split; [|split]].
    + rewrite getVideo_connected by reflexivity. simpl. now rewrite H1.
    + destruct v; reflexivity.
    + destruct v; reflexivity.
    + rewrite getVideo_connected by reflexivity. simpl.
      rewrite Hagain.
      erewrite findOne_updateOne_same; [reflexivity | exact H1 |].
      destruct v; exact Hk.
  - apply Hagain.
Qed.

(** C7, as the code has it. On a connected store [markProcessing] never
    throws and never looks at the current status: the first video with the
    permlink, whatever its status, gets status [processing], the given
    [input_cid] and [size], [encodingProgress] 0 and a fresh [updatedAt],
    its other fields staying as they were; no video under another permlink
    and no job changes; and when no video has the permlink nothing changes
    at all. *)
Theorem markProcessing_unconditional permlink input_cid size w :
  connected (database w) = true ->
  exists w',
    markProcessing clock permlink input_cid size w = (Returns tt, w') /\
    jobs (database w') = jobs (database w) /\
    (forall v,
        getVideo permlink w = (Returns (Some v), w) ->
        getVideo permlink w'
        = (Returns
             (Some (VideoMetadata.mk
                      (VideoMetadata.owner v) (VideoMetadata.permlink v)
                      (VideoMetadata.frontend_app v) VideoStatus.processing
                      (Some input_cid) (VideoMetadata.manifest_cid v)
                      (VideoMetadata.thumbnail_url v) (VideoMetadata.short v)
                      (VideoMetadata.duration v) size 0
                      (VideoMetadata.originalFilename v)
                      (VideoMetadata.createdAt v) (clock (ticks w)))),
           w')) /\
    (forall other,
        other <> permlink ->
        getVideo other w' = (fst (getVideo other w), w')) /\
    (getVideo permlink w = (Returns None, w) ->
     database w' = database w).
Proof.
  intros Hc.
  eexists. split; [|split; [|split; [|split]]].
  - unfold markProcessing. now rewrite updateVideoStatus_connected by exact Hc.
  - reflexivity.
  - intros v Hv. apply getVideo_inv in Hv. destruct Hv as (_ & _ & Hv).
    symmetry in Hv.
    rewrite getVideo_connected by reflexivity. simpl.
    erewrite findOne_updateOne_same; [| exact Hv |].
    + destruct v; reflexivity.
    + rewrite video_is_patch by no_key. apply (find_some _ _ Hv).
  - intros other Hother.
    rewrite !getVideo_connected by (exact Hc || reflexivity). simpl.
    rewrite findOne_video_other; [reflexivity | exact Hother | no_key].
  - intros Hv. apply getVideo_inv in Hv. destruct Hv as (_ & _ & Hv).
    simpl. rewrite updateOne_absent by (symmetry; exact Hv).
    destruct w as [[c vs js] i t]. simpl in *. now subst c.
Qed.

(** C9, as the code has it. For a video in any status, [deleted] included,
    the thumbnail route answers 200 and the stored video is the one that
    was read with [thumbnail_url] set to the given URL and a fresh
    [updatedAt]; its status and every other field are as they were, and no
    video under another permlink and no job changes. *)
Theorem setThumbnail_any_status permlink thumbnail_url w v :
  thumbnail_url <> "" ->
  getVideo permlink w = (Returns (Some v), w) ->
  exists w',
    setThumbnail clock permlink (Some thumbnail_url) w
    = (Returns (mkResponse 200 [("success", JBool true);
                                ("thumbnail_url", JString thumbnail_url)]),
       w') /\
    getVideo permlink w'
    = (Returns
         (Some (VideoMetadata.mk
                  (VideoMetadata.owner v) (VideoMetadata.permlink v)
                  (VideoMetadata.frontend_app v) (VideoMetadata.status v)
                  (VideoMetadata.input_cid v) (VideoMetadata.manifest_cid v)
                  (Some thumbnail_url) (VideoMetadata.short v)
                  (VideoMetadata.duration v) (VideoMetadata.size v)
                  (VideoMetadata.encodingProgress v)
                  (VideoMetadata.originalFilename v)
                  (VideoMetadata.createdAt v) (clock (ticks w)))),
       w') /\
    (forall other,
        other <> permlink ->
        getVideo other w' = (fst (getVideo other w), w')) /\
    jobs (database w') = jobs (database w).
Proof.
  intros Hurl Hv.
  pose proof (getVideo_inv _ _ Hv) as (Hc & _ & Hfind). symmetry in Hfind.
  unfold setThumbnail, tryCatch, bind. simpl.
  apply String.eqb_neq in Hurl. rewrite Hurl. simpl.
  rewrite Hv. rewrite updateVideoStatus_connected by exact Hc.
  unfold respond, ret.
  eexists. split; [reflexivity|]. split; [|split; [|reflexivity]].
  - rewrite getVideo_connected by reflexivity. simpl.
    erewrite findOne_updateOne_same; [| exact Hfind |].
    + destruct v; reflexivity.
    + rewrite video_is_patch by no_key. apply (find_some _ _ Hfind).
  - intros other Hother.
    rewrite !getVideo_connected by (exact Hc || reflexivity). simpl.
    rewrite findOne_video_other; [reflexivity | exact Hother | no_key].
Qed.

End Lifecycle.

(** ** The webhook route *)

Section Webhook.
Variable config : Config.
Variable clock : nat -> Date.

(** C6. A webhook call whose [x-api-key] header is not exactly the
    configured secret (a different string, no header at all, or a repeated
    header) is answered 401 Unauthorized whatever its body holds, and the
    process state, with every job and video record, is untouched. *)
Theorem webhook_rejects_bad_credential x_api_key payload w :
  x_api_key <> single (webhookApiKey config) ->
  webhook config clock x_api_key payload w
  = (Returns (mkResponse 401 [("error", JString "Unauthorized")]), w).
Proof.
  intros Hne. unfold webhook, tryCatch.
  assert (Hd : header_differs x_api_key (webhookApiKey config) = true).
  { destruct x_api_key as [|value|values]; simpl; try reflexivity.
    apply negb_true_iff, String.eqb_neq. congruence. }
  now rewrite Hd.
Qed.

(** C5. An authenticated webhook report with status [complete], for a
    permlink that has a video and an (owner, permlink) that has a job, is
    answered 200; the video then has status [published], [encodingProgress]
    100 and the reported [manifest_cid], and the job has status [completed]
    with [webhookReceivedAt] the time read while handling the report. Apart
    from [updatedAt], no other field of either record changes. *)
Theorem webhook_complete payload w v j :
  wh_status payload = "complete" ->
  getVideo (wh_permlink payload) w = (Returns (Some v), w) ->
  getJob (wh_owner payload) (wh_permlink payload) w = (Returns (Some j), w) ->
  exists w',
    webhook config clock (single (webhookApiKey config)) payload w
    = (Returns
         (mkResponse 200
            [("success", JBool true);
             ("message", JString "Webhook processed successfully")]),
       w') /\
    getVideo (wh_permlink payload) w'
    = (Returns
         (Some (VideoMetadata.mk
                  (VideoMetadata.owner v) (VideoMetadata.permlink v)
                  (VideoMetadata.frontend_app v) VideoStatus.published
                  (VideoMetadata.input_cid v) (wh_manifest_cid payload)
                  (VideoMetadata.thumbnail_url v) (VideoMetadata.short v)
                  (VideoMetadata.duration v) (VideoMetadata.size v) 100
                  (VideoMetadata.originalFilename v)
                  (VideoMetadata.createdAt v) (clock (ticks w)))),
       w') /\
    getJob (wh_owner payload) (wh_permlink payload) w'
    = (Returns
         (Some (EncodingJob.mk
                  (EncodingJob.owner j) (EncodingJob.permlink j)
                  JobStatus.completed
                  (EncodingJob.assignedWorker j) (EncodingJob.encoderJobId j)
                  (EncodingJob.assignedAt j) (EncodingJob.attemptCount j)
                  (EncodingJob.lastError j)
                  (Some (clock (S (ticks w))))
                  (EncodingJob.createdAt j) (clock (S (S (ticks w)))))),
       w').
Proof.
  intros Hs Hv Hj.
  pose proof (getVideo_inv _ _ Hv) as (Hc & _ & Hfv). symmetry in Hfv.
  pose proof (getJob_inv _ _ _ Hj) as (_ & _ & Hfj). symmetry in Hfj.
  unfold webhook, tryCatch, bind, header_differs.
  rewrite String.eqb_refl, Hs. simpl.
  unfold markPublished.
  rewrite updateVideoStatus_connected by exact Hc.
  unfold newDate. simpl.
  eexists. split; [reflexivity|]. split.
  - rewrite getVideo_connected by reflexivity. simpl.
    erewrite findOne_updateOne_same; [| exact Hfv |].
    + destruct v; reflexivity.
    + rewrite video_is_patch by no_key. apply (find_some _ _ Hfv).
  - rewrite getJob_connected by reflexivity. simpl.
    erewrite findOne_updateOne_same; [| exact Hfj |].
    + destruct j; reflexivity.
    + rewrite job_is_patch by no_key. apply (find_some _ _ Hfj).
Qed.

End Webhook.


(** ** Failure handling in the poll loop *)

Section DispatchFailure.
Variable config : Config.
Variable clock : nat -> Date.
Variable fetch : nat -> string -> string -> EncoderRequest -> Outcome HttpResponse.

Ltac thrown :=
  let H := fresh in intros H; inversion H; subst; reflexivity.

(** A dispatch that throws has written nothing to the store. *)
Lemma dispatchJob_throws_database owner permlink w e w1 :
  dispatchJob config clock fetch owner permlink w = (Throws e, w1) ->
  database w1 = database w.
Proof.
  unfold dispatchJob, getVideo, updateJobStatus, requireConnected, ret,
    throw, getNextEncoder, callFetch, settle, newDate, putJobs, bind.
  destruct (connected (database w)) eqn:Hc; simpl; [|thrown].
  destruct (findOne (video_is permlink) (videos (database w))) as [video|];
    simpl; [|thrown].
  destruct (truthy (VideoMetadata.input_cid video)); simpl; [|thrown].
  destruct (enabledEncoders config) as [|first rest]; simpl; [thrown|].
  destruct (fetch _ _ _ _) as [response|msg]; simpl; [|thrown].
  destruct (ok response); simpl.
  - destruct (json response); simpl; [|thrown].
    rewrite Hc. simpl. discriminate.
  - destruct (text response); simpl; thrown.
Qed.

(** The two shapes of the store after the [catch] block. *)
Lemma dispatchFailed_below job error w :
  connected (database w) = true ->
  EncodingJob.attemptCount job < 3 ->
  dispatchFailed clock job error w
  = (Returns tt,
     mkWorld
       (mkDatabase true (videos (database w))
          (updateOne
             (job_is (EncodingJob.owner job) (EncodingJob.permlink job))
             (EncodingJob.patch
                [EncodingJob.Status JobStatus.pending;
                 EncodingJob.UpdatedAt (clock (S (ticks w)));
                 EncodingJob.LastError (Some error)])
             (updateOne
                (job_is (EncodingJob.owner job) (EncodingJob.permlink job))
                (EncodingJob.inc_attempt (clock (ticks w)))
                (jobs (database w)))))
       (currentEncoderIndex w) (S (S (ticks w)))).
Proof.
  intros Hc Hn. unfold dispatchFailed, bind.
  rewrite incrementJobAttempt_connected by exact Hc.
  rewrite updateJobStatus_connected by reflexivity. simpl.
  apply Nat.leb_gt in Hn.
  destruct (EncodingJob.attemptCount job) as [|[|[|n]]]; try reflexivity.
  simpl in Hn. discriminate.
Qed.

Lemma dispatchFailed_exhausted job error w :
  connected (database w) = true ->
  3 <= EncodingJob.attemptCount job ->
  dispatchFailed clock job error w
  = (Returns tt,
     mkWorld
       (mkDatabase true
          (updateOne (video_is (EncodingJob.permlink job))
             (VideoMetadata.patch
                [VideoMetadata.Status VideoStatus.failed;
                 VideoMetadata.UpdatedAt (clock (S (S (S (ticks w)))))])
             (videos (database w)))
          (updateOne
             (job_is (EncodingJob.owner job) (EncodingJob.permlink job))
             (EncodingJob.patch
                [EncodingJob.Status JobStatus.failed;
                 EncodingJob.UpdatedAt (clock (S (S (ticks w))));
                 EncodingJob.LastError
                   (Some ("Max attempts exceeded: " ++ error))])
             (updateOne
                (job_is (EncodingJob.owner job) (EncodingJob.permlink job))
                (EncodingJob.patch
                   [EncodingJob.Status JobStatus.pending;
                    EncodingJob.UpdatedAt (clock (S (ticks w)));
                    EncodingJob.LastError (Some error)])
                (updateOne
                   (job_is (EncodingJob.owner job)
                      (EncodingJob.permlink job))
                   (EncodingJob.inc_attempt (clock (ticks w)))
                   (jobs (database w))))))
       (currentEncoderIndex w) (S (S (S (S (ticks w)))))).
Proof.
  intros Hc Hn. unfold dispatchFailed, bind.
  rewrite incrementJobAttempt_connected by exact Hc.
  rewrite updateJobStatus_connected by reflexivity. simpl.
  destruct (EncodingJob.attemptCount job) as [|[|[|n]]]; try lia.
  reflexivity.
Qed.

(** C3. When the dispatch of a stored job throws and the job's
    [attemptCount] is below 3, the loop iteration ends normally and the job
    is the same record with status [pending], [attemptCount] one higher,
    [lastError] the message of what was thrown and a fresh [updatedAt];
    the video collection is exactly what it was. *)
Theorem failed_dispatch_within_budget job w e w1 :
  getJob (EncodingJob.owner job) (EncodingJob.permlink job) w
  = (Returns (Some job), w) ->
  dispatchJob config clock fetch
    (EncodingJob.owner job) (EncodingJob.permlink job) w = (Throws e, w1) ->
  EncodingJob.attemptCount job < 3 ->
  exists w',
    processJob config clock fetch job w = (Returns tt, w') /\
    getJob (EncodingJob.owner job) (EncodingJob.permlink job) w'
    = (Returns
         (Some (EncodingJob.mk
                  (EncodingJob.owner job) (EncodingJob.permlink job)
                  JobStatus.pending
                  (EncodingJob.assignedWorker job)
                  (EncodingJob.encoderJobId job)
                  (EncodingJob.assignedAt job)
                  (EncodingJob.attemptCount job + 1)
                  (Some e)
                  (EncodingJob.webhookReceivedAt job)
                  (EncodingJob.createdAt job) (clock (S (ticks w1))))),
       w') /\
    videos (database w') = videos (database w).
Proof.
  intros Hj Hthrow Hn.
  pose proof (getJob_inv _ _ _ Hj) as (Hc & _ & Hfind). symmetry in Hfind.
  pose proof (dispatchJob_throws_database _ _ _ Hthrow) as Hdb.
  assert (Hc1 : connected (database w1) = true) by now rewrite Hdb.
  assert (Hkey : job_is (EncodingJob.owner job) (EncodingJob.permlink job) job
                 = true) by apply (find_some _ _ Hfind).
  unfold processJob, tryCatch. rewrite Hthrow.
  rewrite dispatchFailed_below by assumption.
  eexists. split; [reflexivity|]. split.
  - rewrite getJob_connected by reflexivity. simpl. rewrite Hdb.
    pose proof (findOne_updateOne_same _
      (EncodingJob.inc_attempt (clock (ticks w1))) _ Hfind) as F1.
    specialize (F1 ltac:(destruct job; exact Hkey)).
    pose proof (findOne_updateOne_same _
      (EncodingJob.patch
         [EncodingJob.Status JobStatus.pending;
          EncodingJob.UpdatedAt (clock (S (ticks w1)));
          EncodingJob.LastError (Some e)]) _ F1) as F2.
    specialize (F2 ltac:(destruct job; exact Hkey)).
    rewrite F2. destruct job; reflexivity.
  - simpl. now rewrite Hdb.
Qed.

(** C1. When the dispatch of a stored job throws and the job's
    [attemptCount] is already 3 or more, the loop iteration ends normally
    and the job is the same record with status [failed], a [lastError]
    that starts with "Max attempts exceeded" and carries the message of
    what was thrown, and [attemptCount] one higher; the video with the
    job's permlink, when there is one, is the same record with status
    [failed] and a fresh [updatedAt]. *)
Theorem failed_dispatch_budget_exhausted job w e w1 :
  getJob (EncodingJob.owner job) (EncodingJob.permlink job) w
  = (Returns (Some job), w) ->
  dispatchJob config clock fetch
    (EncodingJob.owner job) (EncodingJob.permlink job) w = (Throws e, w1) ->
  3 <= EncodingJob.attemptCount job ->
  exists w',
    processJob config clock fetch job w = (Returns tt, w') /\
    getJob (EncodingJob.owner job) (EncodingJob.permlink job) w'
    = (Returns
         (Some (EncodingJob.mk
                  (EncodingJob.owner job) (EncodingJob.permlink job)
                  JobStatus.failed
                  (EncodingJob.assignedWorker job)
                  (EncodingJob.encoderJobId job)
                  (EncodingJob.assignedAt job)
                  (EncodingJob.attemptCount job + 1)
                  (Some ("Max attempts exceeded: " ++ e))
                  (EncodingJob.webhookReceivedAt job)
                  (EncodingJob.createdAt job) (clock (S (S (ticks w1)))))),
       w') /\
    String.prefix "Max attempts exceeded" ("Max attempts exceeded: " ++ e)
    = true /\
    (forall v,
        getVideo (EncodingJob.permlink job) w = (Returns (Some v), w) ->
        getVideo (EncodingJob.permlink job) w'
        = (Returns
             (Some (VideoMetadata.mk
                      (VideoMetadata.owner v) (VideoMetadata.permlink v)
                      (VideoMetadata.frontend_app v) VideoStatus.failed
                      (VideoMetadata.input_cid v)
                      (VideoMetadata.manifest_cid v)
                      (VideoMetadata.thumbnail_url v) (VideoMetadata.short v)
                      (VideoMetadata.duration v) (VideoMetadata.size v)
                      (VideoMetadata.encodingProgress v)
                      (VideoMetadata.originalFilename v)
                      (VideoMetadata.createdAt v)
                      (clock (S (S (S (ticks w1))))))),
           w')).
Proof.
  intros Hj Hthrow Hn.
  pose proof (getJob_inv _ _ _ Hj) as (Hc & _ & Hfind). symmetry in Hfind.
  pose proof (dispatchJob_throws_database _ _ _ Hthrow) as Hdb.
  assert (Hc1 : connected (database w1) = true) by now rewrite Hdb.
  assert (Hkey : job_is (EncodingJob.owner job) (EncodingJob.permlink job) job
                 = true) by apply (find_some _ _ Hfind).
  unfold processJob, tryCatch. rewrite Hthrow.
  rewrite dispatchFailed_exhausted by assumption.
  eexists. split; [reflexivity|]. split; [|split].
  - rewrite getJob_connected by reflexivity.
    cbn [database jobs videos]. rewrite Hdb.
    pose proof (findOne_updateOne_same _
      (EncodingJob.inc_attempt (clock (ticks w1))) _ Hfind) as F1.
    specialize (F1 ltac:(destruct job; exact Hkey)).
    pose proof (findOne_updateOne_same _
      (EncodingJob.patch
         [EncodingJob.Status JobStatus.pending;
          EncodingJob.UpdatedAt (clock (S (ticks w1)));
          EncodingJob.LastError (Some e)]) _ F1) as F2.
    specialize (F2 ltac:(destruct job; exact Hkey)).
    pose proof (findOne_updateOne_same _
      (EncodingJob.patch
         [EncodingJob.Status JobStatus.failed;
          EncodingJob.UpdatedAt (clock (S (S (ticks w1))));
          EncodingJob.LastError (Some ("Max attempts exceeded: " ++ e))])
      _ F2) as F3.
    specialize (F3 ltac:(destruct job; exact Hkey)).
    rewrite F3. destruct job; reflexivity.
  - reflexivity.
  - intros v Hv. apply getVideo_inv in Hv. destruct Hv as (_ & _ & Hv).
    symmetry in Hv.
    rewrite getVideo_connected by reflexivity. simpl. rewrite Hdb.
    erewrite findOne_updateOne_same; [| exact Hv |].
    + destruct v; reflexivity.
    + rewrite video_is_patch by no_key. apply (find_some _ _ Hv).
Qed.

End DispatchFailure.

(** ** Jobs under their compound key *)

Lemma job_is_key owner permlink j :
  job_is owner permlink j = true <-> job_key j = (owner, permlink).
Proof.
  unfold job_is, job_key. rewrite andb_true_iff, !String.eqb_eq.
  split; [intros [-> ->]; reflexivity | intros [= -> ->]; now split].
Qed.

Lemma job_is_same_key owner permlink j j' :
  job_key j' = job_key j ->
  job_is owner permlink j' = job_is owner permlink j.
Proof. unfold job_is, job_key. now intros [= -> ->]. Qed.

Lemma job_key_patch doc j :
  (forall x, ~ In (EncodingJob.Owner x) doc) ->
  (forall x, ~ In (EncodingJob.Permlink x) doc) ->
  job_key (EncodingJob.patch doc j) = job_key j.
Proof.
  intros Ho Hp. unfold job_key.
  now destruct (job_patch_key doc Ho Hp j) as [-> ->].
Qed.

Lemma job_key_inc_attempt now j :
  job_key (EncodingJob.inc_attempt now j) = job_key j.
Proof. now destruct j. Qed.

Section JobKeys.
Variables (owner permlink : string) (u : EncodingJob.t -> EncodingJob.t).
Hypothesis u_key : forall j, job_key (u j) = job_key j.

Lemma findOne_job_same js j :
  findOne (job_is owner permlink) js = Some j ->
  findOne (job_is owner permlink) (updateOne (job_is owner permlink) u js)
  = Some (u j).
Proof.
  intros H. apply findOne_updateOne_same; [exact H|].
  rewrite (job_is_same_key _ _ (u_key j)). apply (find_some _ _ H).
Qed.

Lemma findOne_job_other owner' permlink' js :
  (owner', permlink') <> (owner, permlink) ->
  findOne (job_is owner' permlink')
    (updateOne (job_is owner permlink) u js)
  = findOne (job_is owner' permlink') js.
Proof.
  intros Hne. apply findOne_updateOne_other.
  - intros x. apply job_is_same_key, u_key.
  - intros x Hx. apply job_is_key in Hx.
    destruct (job_is owner' permlink' x) eqn:Hx'; [|reflexivity].
    apply job_is_key in Hx'. congruence.
Qed.

Lemma job_keys_updateOne js :
  map job_key (updateOne (job_is owner permlink) u js) = map job_key js.
Proof. apply map_updateOne, u_key. Qed.
End JobKeys.

(** Under the unique index a stored job is the one found under its key. *)
Lemma findOne_unique js j :
  NoDup (map job_key js) -> In j js ->
  findOne (job_is (EncodingJob.owner j) (EncodingJob.permlink j)) js = Some j.
Proof.
  unfold findOne.
  induction js as [|d rest IH]; simpl; intros Hnd Hin; [contradiction|].
  inversion Hnd as [|k ks Hnotin Hrest]; subst.
  destruct Hin as [->|Hin].
  - assert (H : job_is (EncodingJob.owner j) (EncodingJob.permlink j) j = true)
      by now apply job_is_key.
    now rewrite H.
  - destruct (job_is (EncodingJob.owner j) (EncodingJob.permlink j) d) eqn:Hd.
    + apply job_is_key in Hd. exfalso. apply Hnotin.
      change (EncodingJob.owner j, EncodingJob.permlink j) with (job_key j)
        in Hd.
      rewrite Hd. now apply in_map.
    + now apply IH.
Qed.

(** [createJob] keeps the keys distinct, and no other writer changes a
    key ([job_keys_updateOne]). *)
Lemma createJob_unique job w w' :
  NoDup (map job_key (jobs (database w))) ->
  createJob job w = (Returns tt, w') ->
  NoDup (map job_key (jobs (database w'))).
Proof.
  intros Hnd. unfold createJob, bind, requireConnected, throw, putJobs.
  destruct (connected (database w)); [|discriminate].
  destruct (findOne _ (jobs (database w))) eqn:Hfind; [discriminate|].
  intros H. inversion H; subst; clear H. cbn [database jobs].
  rewrite map_app. simpl.
  apply NoDup_rev in Hnd. rewrite <- (rev_involutive (_ ++ _)%list).
  apply NoDup_rev. rewrite rev_app_distr. simpl.
  constructor; [|exact Hnd].
  rewrite <- in_rev. intros Hin.
  apply in_map_iff in Hin. destruct Hin as (x & Hx & Hin).
  pose proof (find_none _ _ Hfind x Hin) as Hno.
  assert (Hyes : job_is (EncodingJob.owner job) (EncodingJob.permlink job) x
                 = true) by now apply job_is_key.
  congruence.
Qed.

(** ** Round-robin selection *)

Section RoundRobin.
Variable config : Config.
Variable clock : nat -> Date.
Variable fetch : nat -> string -> string -> EncoderRequest -> Outcome HttpResponse.

Lemma getNextEncoder_some w :
  enabledEncoders config <> [] ->
  exists encoder,
    getNextEncoder config w
    = (Returns encoder,
       mkWorld (database w) (S (currentEncoderIndex w)) (ticks w)) /\
    nth_error (enabledEncoders config)
      (currentEncoderIndex w mod length (enabledEncoders config))
    = Some encoder.
Proof.
  intros Hne. unfold getNextEncoder.
  destruct (enabledEncoders config) as [|first rest] eqn:He;
    [congruence|].
  eexists. split; [reflexivity|].
  apply nth_error_nth'. apply Nat.mod_upper_bound. discriminate.
Qed.

Lemma selectMany_spec m : forall w,
  enabledEncoders config <> [] ->
  exists selected,
    selectMany config m w
    = (Returns selected,
       mkWorld (database w) (currentEncoderIndex w + m) (ticks w)) /\
    length selected = m /\
    forall i, i < m ->
      nth_error selected i
      = nth_error (enabledEncoders config)
          ((currentEncoderIndex w + i) mod length (enabledEncoders config)).
Proof.
  induction m as [|m IH]; intros w Hne.
  - exists []. simpl. unfold ret. rewrite Nat.add_0_r.
    destruct w; simpl. split; [reflexivity|].
    split; [reflexivity|]. intros i Hi; lia.
  - destruct (getNextEncoder_some w Hne) as (encoder & Hstep & Hnth).
    destruct (IH (mkWorld (database w) (S (currentEncoderIndex w)) (ticks w))
                Hne) as (later & Hrun & Hlen & Hlater).
    exists (encoder :: later). simpl in *.
    unfold bind. rewrite Hstep, Hrun. unfold ret.
    replace (S (currentEncoderIndex w + m))
      with (currentEncoderIndex w + S m) by lia.
    split; [reflexivity|]. split; [simpl; congruence|].
    intros [|i] Hi; simpl.
    + now rewrite Nat.add_0_r.
    + rewrite Hlater by lia. f_equal. f_equal. lia.
Qed.

(** A dispatch that returns has made exactly one selection, at the
    cursor it started from, and has stored the name of the selected
    encoder in the job. *)
Lemma dispatchJob_returns owner permlink w w' :
  dispatchJob config clock fetch owner permlink w = (Returns tt, w') ->
  exists encoder,
    nth_error (enabledEncoders config)
      (currentEncoderIndex w mod length (enabledEncoders config))
    = Some encoder /\
    currentEncoderIndex w' = S (currentEncoderIndex w) /\
    forall j,
      getJob owner permlink w = (Returns (Some j), w) ->
      exists j',
        getJob owner permlink w' = (Returns (Some j'), w') /\
        EncodingJob.status j' = JobStatus.encoding /\
        EncodingJob.assignedWorker j' = Some (name encoder).
Proof.
  unfold dispatchJob, getVideo, updateJobStatus, requireConnected, ret,
    throw, getNextEncoder, callFetch, settle, newDate, putJobs, bind.
  destruct (connected (database w)) eqn:Hc; cbn -[Nat.modulo]; [|discriminate].
  destruct (findOne (video_is permlink) (videos (database w))) as [video|];
    cbn -[Nat.modulo]; [|discriminate].
  destruct (truthy (VideoMetadata.input_cid video)); cbn -[Nat.modulo]; [|discriminate].
  destruct (enabledEncoders config) as [|first rest] eqn:He; cbn -[Nat.modulo];
    [discriminate|].
  destruct (fetch _ _ _ _) as [response|msg]; cbn -[Nat.modulo]; [|discriminate].
  destruct (ok response); cbn -[Nat.modulo].
  - destruct (json response) as [job_id|msg]; cbn -[Nat.modulo]; [|discriminate].
    rewrite Hc. cbn -[Nat.modulo]. intros H. inversion H; subst; clear H.
    eexists. split; [|split; [reflexivity|]].
    + apply nth_error_nth' with (d := first).
      apply Nat.mod_upper_bound. discriminate.
    + intros j Hj. apply getJob_inv in Hj. destruct Hj as (_ & _ & Hj).
      symmetry in Hj.
      eexists. split; [|split].
      * rewrite getJob_connected by exact Hc.
        cbn [database jobs].
        erewrite findOne_job_same; [reflexivity| |exact Hj].
        intros x. now rewrite job_key_patch by no_key.
      * destruct j; reflexivity.
      * destruct j; reflexivity.
  - destruct (text response); cbn -[Nat.modulo]; discriminate.
Qed.

(** C2. With at least one enabled encoder, one selection returns
    [enabledEncoders[cursor mod N]] and advances the cursor by exactly one,
    touching nothing else; so [m] consecutive selections starting at cursor
    [c] return [enabledEncoders[(c + i) mod N]] at index [i] and leave the
    cursor at [c + m]; from a fresh dispatcher (cursor 0) the selection at
    index [i] is [enabledEncoders[i mod N]]. A dispatch that returns has
    made one such selection and the job records that encoder's name as its
    [assignedWorker]. *)
Theorem round_robin_selection m w :
  enabledEncoders config <> [] ->
  (exists encoder,
      getNextEncoder config w
      = (Returns encoder,
         mkWorld (database w) (S (currentEncoderIndex w)) (ticks w)) /\
      nth_error (enabledEncoders config)
        (currentEncoderIndex w mod length (enabledEncoders config))
      = Some encoder) /\
  (exists selected,
      selectMany config m w
      = (Returns selected,
         mkWorld (database w) (currentEncoderIndex w + m) (ticks w)) /\
      length selected = m /\
      (forall i, i < m ->
         nth_error selected i
         = nth_error (enabledEncoders config)
             ((currentEncoderIndex w + i)
                mod length (enabledEncoders config))) /\
      (currentEncoderIndex w = 0 ->
       forall i, i < m ->
         nth_error selected i
         = nth_error (enabledEncoders config)
             (i mod length (enabledEncoders config)))) /\
  (forall owner permlink w',
      dispatchJob config clock fetch owner permlink w = (Returns tt, w') ->
      exists encoder,
        nth_error (enabledEncoders config)
          (currentEncoderIndex w mod length (enabledEncoders config))
        = Some encoder /\
        currentEncoderIndex w' = S (currentEncoderIndex w) /\
        forall j,
          getJob owner permlink w = (Returns (Some j), w) ->
          exists j',
            getJob owner permlink w' = (Returns (Some j'), w') /\
            EncodingJob.status j' = JobStatus.encoding /\
            EncodingJob.assignedWorker j' = Some (name encoder)).
Proof.
  intros Hne. split; [now apply getNextEncoder_some|]. split.
  - destruct (selectMany_spec m w Hne) as (selected & Hrun & Hlen & Hsel).
    exists selected. repeat split; try assumption.
    intros H0 i Hi. rewrite Hsel by exact Hi. now rewrite H0.
  - intros owner permlink w'. apply dispatchJob_returns.
Qed.

End RoundRobin.

(** ** What a poll fetches *)

Lemma insert_by_perm A (key : A -> nat) x l :
  Permutation (insert_by key x l) (x :: l).
Proof.
  induction l as [|y rest IH]; simpl; [reflexivity|].
  destruct (key x <=? key y)%nat; [reflexivity|].
  rewrite IH. apply perm_swap.
Qed.

Lemma sort_by_perm A (key : A -> nat) l : Permutation (sort_by key l) l.
Proof.
  induction l as [|x rest IH]; simpl; [reflexivity|].
  rewrite insert_by_perm. now constructor.
Qed.

Lemma NoDup_map_filter A B (key : A -> B) (f : A -> bool) l :
  NoDup (map key l) -> NoDup (map key (filter f l)).
Proof.
  induction l as [|x rest IH]; simpl; intros H; [constructor|].
  inversion H as [|k ks Hnotin Hrest]; subst.
  destruct (f x); simpl; [|now apply IH].
  constructor; [|now apply IH].
  intros Hin. apply Hnotin.
  apply in_map_iff in Hin. destruct Hin as (y & Hy & Hin).
  apply filter_In in Hin. rewrite <- Hy. apply in_map, Hin.
Qed.

Lemma pendingBatch_In limit js j :
  In j (pendingBatch limit js) -> In j js /\ is_pending j = true.
Proof.
  unfold pendingBatch. intros H.
  assert (H' : In j (sort_by EncodingJob.createdAt (filter is_pending js))).
  { rewrite <- (firstn_skipn limit). apply in_or_app. now left. }
  apply (Permutation_in _ (sort_by_perm _ _)) in H'.
  now apply filter_In in H'.
Qed.

Lemma pendingBatch_NoDup limit js :
  NoDup (map job_key js) -> NoDup (map job_key (pendingBatch limit js)).
Proof.
  intros H. unfold pendingBatch.
  rewrite <- firstn_map.
  apply NoDup_app_remove_r
    with (l' := skipn limit
                  (map job_key
                     (sort_by EncodingJob.createdAt (filter is_pending js)))).
  rewrite firstn_skipn.
  apply Permutation_NoDup with (l := map job_key (filter is_pending js)).
  - apply Permutation_map. symmetry. apply sort_by_perm.
  - now apply NoDup_map_filter.
Qed.

(** ** Polling with no enabled encoder *)

Lemma updateOne_compose A (f : A -> bool) (u1 u2 : A -> A) (l : list A) :
  (forall x, f x = true -> f (u1 x) = true) ->
  updateOne f u2 (updateOne f u1 l) = updateOne f (fun x => u2 (u1 x)) l.
Proof.
  intros Hf. induction l as [|d rest IH]; simpl; [reflexivity|].
  destruct (f d) eqn:Hd; simpl.
  - now rewrite (Hf d Hd).
  - now rewrite Hd, IH.
Qed.

Lemma findOne_video_step permlink t other vs (P : VideoMetadata.t -> Prop) v :
  (forall t v,
      P v ->
      P (VideoMetadata.patch
           [VideoMetadata.Status VideoStatus.failed;
            VideoMetadata.UpdatedAt t] v)) ->
  findOne (video_is other) vs = Some v -> P v ->
  exists v',
    findOne (video_is other)
      (updateOne (video_is permlink)
         (VideoMetadata.patch
            [VideoMetadata.Status VideoStatus.failed;
             VideoMetadata.UpdatedAt t]) vs) = Some v' /\ P v'.
Proof.
  intros HP Hv HPv.
  destruct (String.eqb_spec other permlink) as [->|Hne].
  - eexists. split; [|apply HP, HPv].
    apply findOne_updateOne_same; [exact Hv|].
    rewrite video_is_patch by no_key. apply (find_some _ _ Hv).
  - exists v. split; [|exact HPv].
    rewrite findOne_video_other; [exact Hv | exact Hne | no_key].
Qed.

Lemma FailedBatch_nil w :
  connected (database w) = true -> FailedBatch [] w w.
Proof.
  intros Hc. constructor; try easy.
  intros P _ permlink v Hv HPv. now exists v.
Qed.

Lemma FailedBatch_cons x rest w w1 w' :
  NoDup (map job_key (x :: rest)) ->
  FailedBatch [x] w w1 -> FailedBatch rest w1 w' ->
  FailedBatch (x :: rest) w w'.
Proof.
  intros Hnd H1 H2. simpl in Hnd.
  inversion Hnd as [|k ks Hx Hrest]; subst.
  constructor.
  - apply H2.
  - rewrite (fb_keys H2). apply H1.
  - intros owner permlink Hnot. simpl in Hnot.
    rewrite (fb_other H2) by tauto.
    apply (fb_other H1). simpl. tauto.
  - intros P HP permlink v Hv HPv.
    destruct (fb_video H1 P HP _ Hv HPv) as (v1 & Hv1 & HPv1).
    apply (fb_video H2 P HP _ Hv1 HPv1).
  - intros job j [->|Hin] Hj.
    + destruct (fb_job H1 job (or_introl eq_refl) Hj) as (j' & Hj' & Hrest').
      exists j'. split; [|exact Hrest'].
      rewrite (fb_other H2); [exact Hj'|]. exact Hx.
    + apply (fb_job H2 job Hin).
      rewrite (fb_other H1); [exact Hj|].
      simpl. intros [E|[]]. apply Hx.
      change (EncodingJob.owner job, EncodingJob.permlink job)
        with (job_key job) in E.
      rewrite E. now apply in_map.
  - intros job v [->|Hin] Hn Hv.
    + destruct (fb_failed H1 job (or_introl eq_refl) Hn Hv) as (v1 & Hv1 & Hs).
      apply (fb_video H2 (fun v => VideoMetadata.status v = VideoStatus.failed)
               ltac:(intros t [] _; reflexivity) _ Hv1 Hs).
    + destruct (fb_video H1 (fun _ => True) ltac:(easy) _ Hv I)
        as (v1 & Hv1 & _).
      apply (fb_failed H2 job Hin Hn Hv1).
Qed.

Section NoWorkers.
Variable config : Config.
Variable clock : nat -> Date.
Variable fetch : nat -> string -> string -> EncoderRequest -> Outcome HttpResponse.

Lemma job_is_inc_attempt owner permlink now j :
  job_is owner permlink j = true ->
  job_is owner permlink (EncodingJob.inc_attempt now j) = true.
Proof.
  intros H. now rewrite (job_is_same_key _ _ (job_key_inc_attempt now j)).
Qed.

Lemma job_is_patched owner permlink doc j :
  (forall x, ~ In (EncodingJob.Owner x) doc) ->
  (forall x, ~ In (EncodingJob.Permlink x) doc) ->
  job_is owner permlink j = true ->
  job_is owner permlink (EncodingJob.patch doc j) = true.
Proof. intros Ho Hp H. now rewrite job_is_patch. Qed.

Lemma not_in_single owner permlink job :
  ~ In (owner, permlink) (map job_key [job]) ->
  (owner, permlink) <> (EncodingJob.owner job, EncodingJob.permlink job).
Proof. simpl. intros H E. apply H. left. now rewrite E. Qed.

(** The [catch] block on a connected store, for any thrown message. *)
Lemma dispatchFailed_FailedBatch job error w :
  connected (database w) = true ->
  exists w',
    dispatchFailed clock job error w = (Returns tt, w') /\
    currentEncoderIndex w' = currentEncoderIndex w /\
    FailedBatch [job] w w'.
Proof.
  intros Hc.
  destruct (Nat.lt_ge_cases (EncodingJob.attemptCount job) 3) as [Hn|Hn].
  - rewrite dispatchFailed_below by assumption.
    eexists. split; [reflexivity|]. split; [reflexivity|].
    constructor; cbn [database jobs videos connected];
      try rewrite updateOne_compose
        by (intros x; apply job_is_inc_attempt).
    + reflexivity.
    + apply job_keys_updateOne. intros j.
      now rewrite job_key_patch, job_key_inc_attempt by no_key.
    + intros owner permlink Hnot. apply findOne_job_other.
      * intros j. now rewrite job_key_patch, job_key_inc_attempt by no_key.
      * now apply not_in_single.
    + intros P _ permlink v Hv HPv. now exists v.
    + intros job' j [<-|[]] Hj.
      eexists. split; [|split; [|split]].
      * apply findOne_job_same with (u := fun x => _); [|exact Hj].
        intros x. now rewrite job_key_patch, job_key_inc_attempt by no_key.
      * destruct j; reflexivity.
      * intros _. destruct j; reflexivity.
      * intros Hge. lia.
    + intros job' v [<-|[]] Hge. lia.
  - rewrite dispatchFailed_exhausted by assumption.
    eexists. split; [reflexivity|]. split; [reflexivity|].
    assert (Hkey : forall t1 t2 t3 e1 e2 x,
      job_key
        (EncodingJob.patch
           [EncodingJob.Status JobStatus.failed; EncodingJob.UpdatedAt t3;
            EncodingJob.LastError e2]
           (EncodingJob.patch
              [EncodingJob.Status JobStatus.pending; EncodingJob.UpdatedAt t2;
               EncodingJob.LastError e1]
              (EncodingJob.inc_attempt t1 x))) = job_key x).
    { intros. now rewrite !job_key_patch, job_key_inc_attempt by no_key. }
    constructor; cbn [database jobs videos connected];
      try (rewrite (updateOne_compose _ (EncodingJob.inc_attempt _))
             by (intros x; apply job_is_inc_attempt);
           rewrite updateOne_compose
             by (intros x Hx; apply job_is_patched;
                 [no_key | no_key | now apply job_is_inc_attempt])).
    + reflexivity.
    + apply job_keys_updateOne. intros j. apply Hkey.
    + intros owner permlink Hnot. apply findOne_job_other.
      * intros j. apply Hkey.
      * now apply not_in_single.
    + intros P HP permlink v Hv HPv.
      apply findOne_video_step with (v := v); assumption.
    + intros job' j [<-|[]] Hj.
      eexists. split; [|split; [|split]].
      * apply findOne_job_same with (u := fun x => _); [|exact Hj].
        intros x. apply Hkey.
      * destruct j; reflexivity.
      * intros Hlt. lia.
      * intros _. split; [destruct j; reflexivity|].
        exists error. destruct j; reflexivity.
    + intros job' v [<-|[]] _ Hv.
      eexists. split.
      * apply findOne_updateOne_same; [exact Hv|].
        rewrite video_is_patch by no_key. apply (find_some _ _ Hv).
      * destruct v; reflexivity.
Qed.

Hypothesis no_workers : enabledEncoders config = [].

Lemma getNextEncoder_none w :
  getNextEncoder config w = (Throws "No enabled encoders available", w).
Proof. unfold getNextEncoder. now rewrite no_workers. Qed.

Lemma dispatchJob_no_workers owner permlink w :
  connected (database w) = true ->
  exists e,
    dispatchJob config clock fetch owner permlink w = (Throws e, w) /\
    (forall v,
        getVideo permlink w = (Returns (Some v), w) ->
        truthy (VideoMetadata.input_cid v) = true ->
        e = "No enabled encoders available").
Proof.
  intros Hc. unfold dispatchJob, bind.
  rewrite getVideo_connected by exact Hc.
  destruct (findOne (video_is permlink) (videos (database w))) as [video|].
  - destruct (truthy (VideoMetadata.input_cid video)) eqn:Ht; simpl.
    + rewrite getNextEncoder_none. eexists. split; [reflexivity|]. easy.
    + eexists. split; [reflexivity|].
      intros v [= <-] Hv. congruence.
  - eexists. split; [reflexivity|]. intros v [=].
Qed.

Lemma processJob_no_workers job w :
  connected (database w) = true ->
  exists w',
    processJob config clock fetch job w = (Returns tt, w') /\
    currentEncoderIndex w' = currentEncoderIndex w /\
    FailedBatch [job] w w'.
Proof.
  intros Hc. unfold processJob, tryCatch.
  destruct (dispatchJob_no_workers
              (EncodingJob.owner job) (EncodingJob.permlink job) w Hc)
    as (e & -> & _).
  now apply dispatchFailed_FailedBatch.
Qed.

Lemma forEach_no_workers batch : forall w,
  connected (database w) = true ->
  NoDup (map job_key batch) ->
  exists w',
    forEach batch (processJob config clock fetch) w = (Returns tt, w') /\
    currentEncoderIndex w' = currentEncoderIndex w /\
    FailedBatch batch w w'.
Proof.
  induction batch as [|x rest IH]; intros w Hc Hnd.
  - exists w. split; [reflexivity|]. split; [reflexivity|].
    now apply FailedBatch_nil.
  - destruct (processJob_no_workers x w Hc) as (w1 & Hrun1 & Hi1 & H1).
    assert (Hnd' : NoDup (map job_key rest)) by now inversion Hnd.
    destruct (IH w1 (fb_connected H1) Hnd') as (w' & Hrun & Hi & H2).
    exists w'. split; [|split].
    + simpl. unfold bind. now rewrite Hrun1.
    + congruence.
    + now apply FailedBatch_cons with (w1 := w1).
Qed.

Lemma processJobs_no_workers w :
  connected (database w) = true ->
  NoDup (map job_key (jobs (database w))) ->
  exists w',
    processJobs config clock fetch w = (Returns tt, w') /\
    currentEncoderIndex w' = currentEncoderIndex w /\
    FailedBatch (pendingBatch 5 (jobs (database w))) w w'.
Proof.
  intros Hc Hnd.
  unfold processJobs, tryCatch, getPendingJobs, bind, requireConnected, ret.
  rewrite Hc.
  destruct (pendingBatch 5 (jobs (database w))) as [|x rest] eqn:Hb.
  - exists w. simpl. split; [reflexivity|]. split; [reflexivity|].
    now apply FailedBatch_nil.
  - cbn [length Nat.eqb].
    destruct (forEach_no_workers (x :: rest) w Hc)
      as (w' & Hrun & Hi & H).
    { rewrite <- Hb. now apply pendingBatch_NoDup. }
    exists w'. rewrite Hrun. auto.
Qed.

Lemma polls_snoc (poll : M unit) n : forall w,
  polls poll (S n) w = snd (poll (polls poll n w)).
Proof.
  induction n as [|n IH]; intros w; [reflexivity|].
  change (polls poll (S (S n)) w) with (polls poll (S n) (snd (poll w))).
  now rewrite IH.
Qed.

(** One poll, seen from a job that is part of its batch. *)
Lemma poll_progress owner permlink j w :
  connected (database w) = true ->
  NoDup (map job_key (jobs (database w))) ->
  polled owner permlink w ->
  findOne (job_is owner permlink) (jobs (database w)) = Some j ->
  let w' := snd (processJobs config clock fetch w) in
  connected (database w') = true /\
  NoDup (map job_key (jobs (database w'))) /\
  EncodingJob.status j = JobStatus.pending /\
  (exists j',
      findOne (job_is owner permlink) (jobs (database w')) = Some j' /\
      EncodingJob.attemptCount j' = EncodingJob.attemptCount j + 1 /\
      (EncodingJob.attemptCount j < 3 ->
       EncodingJob.status j' = JobStatus.pending) /\
      (3 <= EncodingJob.attemptCount j ->
       EncodingJob.status j' = JobStatus.failed /\
       exists e,
         EncodingJob.lastError j' = Some ("Max attempts exceeded: " ++ e))) /\
  (forall v,
      findOne (video_is permlink) (videos (database w)) = Some v ->
      exists v',
        findOne (video_is permlink) (videos (database w')) = Some v' /\
        (3 <= EncodingJob.attemptCount j ->
         VideoMetadata.status v' = VideoStatus.failed)).
Proof.
  intros Hc Hnd (s & Hin & Hkey) Hj.
  destruct (processJobs_no_workers w Hc Hnd) as (w1 & Hrun & _ & H).
  rewrite Hrun. cbn [snd].
  destruct (pendingBatch_In _ _ _ Hin) as [Hstored Hpending].
  pose proof (findOne_unique _ _ Hnd Hstored) as Hs.
  injection Hkey as Ho Hp. rewrite Ho, Hp in Hs.
  assert (s = j) by congruence. subst s.
  split; [apply H|]. split; [|split; [|split]].
  - rewrite (fb_keys H). exact Hnd.
  - now apply JobStatus.job_status_eqb_eq.
  - rewrite <- Ho, <- Hp. apply (fb_job H j Hin).
    now rewrite Ho, Hp.
  - intros v Hv.
    destruct (Nat.lt_ge_cases (EncodingJob.attemptCount j) 3) as [Hn|Hn].
    + destruct (fb_video H (fun _ => True) ltac:(easy) _ Hv I)
        as (v' & Hv' & _).
      exists v'. split; [exact Hv'|]. lia.
    + rewrite <- Hp in Hv |- *.
      destruct (fb_failed H j Hin Hn Hv) as (v' & Hv' & Hs').
      exists v'. now split.
Qed.

Lemma polls_count owner permlink job w n :
  connected (database w) = true ->
  NoDup (map job_key (jobs (database w))) ->
  findOne (job_is owner permlink) (jobs (database w)) = Some job ->
  EncodingJob.attemptCount job = 0 ->
  n <= 4 ->
  (forall m, m < n ->
     polled owner permlink (polls (processJobs config clock fetch) m w)) ->
  let wn := polls (processJobs config clock fetch) n w in
  connected (database wn) = true /\
  NoDup (map job_key (jobs (database wn))) /\
  (exists jn,
      findOne (job_is owner permlink) (jobs (database wn)) = Some jn /\
      EncodingJob.attemptCount jn = n /\
      (0 < n -> n < 4 -> EncodingJob.status jn = JobStatus.pending) /\
      (n = 4 ->
       EncodingJob.status jn = JobStatus.failed /\
       exists e,
         EncodingJob.lastError jn = Some ("Max attempts exceeded: " ++ e))) /\
  (forall v,
      findOne (video_is permlink) (videos (database w)) = Some v ->
      exists v',
        findOne (video_is permlink) (videos (database wn)) = Some v' /\
        (n = 4 -> VideoMetadata.status v' = VideoStatus.failed)).
Proof.
  intros Hc Hnd Hjob H0.
  induction n as [|n IH]; intros Hn Hpolled.
  - simpl. split; [exact Hc|]. split; [exact Hnd|]. split.
    + exists job. repeat split; try lia. exact Hjob.
    + intros v Hv. exists v. split; [exact Hv|lia].
  - destruct IH as (Hcn & Hndn & (jn & Hjn & Hcount & _) & Hvideo);
      [lia | intros m Hm; apply Hpolled; lia |].
    assert (Hp : polled owner permlink
                   (polls (processJobs config clock fetch) n w))
      by (apply Hpolled; lia).
    destruct (poll_progress Hcn Hndn Hp Hjn)
      as (Hc' & Hnd' & _ & (j' & Hj' & Hcount' & Hlow & Hhigh) & Hv').
    cbv zeta. rewrite polls_snoc.
    split; [exact Hc'|]. split; [exact Hnd'|]. split.
    + exists j'. split; [exact Hj'|]. split; [lia|]. split.
      * intros _ Hlt. apply Hlow. lia.
      * intros Hfour. apply Hhigh. lia.
    + intros v Hv. destruct (Hvideo v Hv) as (vn & Hvn & _).
      destruct (Hv' vn Hvn) as (v' & Hfound & Hfailed).
      exists v'. split; [exact Hfound|].
      intros Hfour. apply Hfailed. lia.
Qed.

(** C4. With no enabled encoder, selecting an encoder always throws
    "No enabled encoders available" and every dispatch throws at once,
    leaving the world as it was (with that very message when the video is
    there with its [input_cid]); each such failure goes through the
    ordinary attempt budget. A stored job with [attemptCount] 0 that is
    part of the batch of four consecutive polls is [pending] with
    [attemptCount] 0, 1, 2, 3 before them and, after the fourth, [failed]
    with [attemptCount] 4 and a "Max attempts exceeded" [lastError], and
    its video, when there is one, is [failed]. *)
Theorem no_workers_exhaust_budget owner permlink job w :
  getJob owner permlink w = (Returns (Some job), w) ->
  NoDup (map job_key (jobs (database w))) ->
  EncodingJob.attemptCount job = 0 ->
  (forall n, n < 4 ->
     polled owner permlink (polls (processJobs config clock fetch) n w)) ->
  (forall w0,
      connected (database w0) = true ->
      getNextEncoder config w0
      = (Throws "No enabled encoders available", w0) /\
      exists e,
        dispatchJob config clock fetch owner permlink w0 = (Throws e, w0) /\
        (forall v,
            getVideo permlink w0 = (Returns (Some v), w0) ->
            truthy (VideoMetadata.input_cid v) = true ->
            e = "No enabled encoders available")) /\
  (forall n, n < 4 ->
     let wn := polls (processJobs config clock fetch) n w in
     exists jn,
       getJob owner permlink wn = (Returns (Some jn), wn) /\
       EncodingJob.attemptCount jn = n /\
       EncodingJob.status jn = JobStatus.pending) /\
  (let w4 := polls (processJobs config clock fetch) 4 w in
   exists j4,
     getJob owner permlink w4 = (Returns (Some j4), w4) /\
     EncodingJob.status j4 = JobStatus.failed /\
     EncodingJob.attemptCount j4 = 4 /\
     (exists e,
         EncodingJob.lastError j4 = Some ("Max attempts exceeded: " ++ e)) /\
     (forall v,
         getVideo permlink w = (Returns (Some v), w) ->
         exists v4,
           getVideo permlink w4 = (Returns (Some v4), w4) /\
           VideoMetadata.status v4 = VideoStatus.failed)).
Proof.
  intros Hj Hnd H0 Hpolled.
  pose proof (getJob_inv _ _ _ Hj) as (Hc & _ & Hjob). symmetry in Hjob.
  split; [|split].
  - intros w0 Hc0. split; [apply getNextEncoder_none|].
    now apply dispatchJob_no_workers.
  - intros n Hn.
    destruct (@polls_count owner permlink job w n Hc Hnd Hjob H0)
      as (Hcn & Hndn & (jn & Hjn & Hcount & Hpend & _) & _);
      [lia | intros m Hm; apply Hpolled; lia |].
    cbv zeta. exists jn. split; [|split; [exact Hcount|]].
    + rewrite getJob_connected by exact Hcn. now rewrite Hjn.
    + destruct (poll_progress Hcn Hndn (Hpolled n Hn) Hjn)
        as (_ & _ & Hstatus & _).
      exact Hstatus.
  - destruct (@polls_count owner permlink job w 4 Hc Hnd Hjob H0)
      as (Hc4 & _ & (j4 & Hj4 & Hcount & _ & Hfailed) & Hvideo);
      [lia | intros m Hm; apply Hpolled; lia |].
    destruct (Hfailed eq_refl) as (Hstatus & Herror).
    cbv zeta. exists j4.
    split; [|split; [exact Hstatus|];
             split; [exact Hcount|]; split; [exact Herror|]].
    + rewrite getJob_connected by exact Hc4. now rewrite Hj4.
    + intros v Hv. apply getVideo_inv in Hv. destruct Hv as (_ & _ & Hv).
      destruct (Hvideo v (eq_sym Hv)) as (v4 & Hv4 & Hs).
      exists v4. split; [|now apply Hs].
      rewrite getVideo_connected by exact Hc4. now rewrite Hv4.
Qed.

End NoWorkers.

(** * Examples on sample data *)

(** The sample rotation, end to end. *)
Example sample_rotation :
  fst (selectMany sample_config 5 (sample_world VideoStatus.processing 0))
  = Returns (map (fun label => sample_encoder label true)
               ["w1"; "w2"; "w3"; "w1"; "w2"]).
Proof. reflexivity. Qed.

(** Scenario A, the webhook part: the video is published and the job
    completed. *)
Example sample_report_published :
  let w' := snd (webhook sample_config sample_clock (single "secret")
                   sample_report (sample_world VideoStatus.processing 0)) in
  videoStatusOf "ab12cd34" w' = Some VideoStatus.published /\
  jobStatusOf "alice" "ab12cd34" w' = Some JobStatus.completed.
Proof. split; reflexivity. Qed.

(** Scenario A: upload finished and pinned, one poll with the single
    encoder [w1], then the [complete] report. *)
Example sample_scenario_A :
  let w1 := snd (onUploadFinish sample_clock sample_pin sample_upload
                   fresh_upload_world) in
  let w2 := snd (processJobs single_config sample_clock accepting_fetch w1) in
  let w3 := snd (webhook single_config sample_clock (single "secret")
                   sample_report w2) in
  (videoStatusOf "ab12cd34" w1, jobStatusOf "alice" "ab12cd34" w1)
  = (Some VideoStatus.processing, Some JobStatus.pending) /\
  option_map VideoMetadata.input_cid
    (findOne (video_is "ab12cd34") (videos (database w1)))
  = Some (Some "Qm123") /\
  option_map (fun j => (EncodingJob.status j, EncodingJob.assignedWorker j))
    (findOne (job_is "alice" "ab12cd34") (jobs (database w2)))
  = Some (JobStatus.encoding, Some "w1") /\
  option_map
    (fun v => (VideoMetadata.status v, VideoMetadata.encodingProgress v,
               VideoMetadata.manifest_cid v))
    (findOne (video_is "ab12cd34") (videos (database w3)))
  = Some (VideoStatus.published, 100, Some "Qm456") /\
  jobStatusOf "alice" "ab12cd34" w3 = Some JobStatus.completed.
Proof. repeat split; reflexivity. Qed.

(** Scenario B on the sample world: status of the job and of the video
    after each of the four polls. *)
Example sample_four_polls :
  map (fun n =>
         let w := polls (processJobs idle_config sample_clock sample_fetch) n
                    (sample_world VideoStatus.processing 0) in
         (jobStatusOf "alice" "ab12cd34" w, videoStatusOf "ab12cd34" w))
      [1; 2; 3; 4]
  = [(Some JobStatus.pending, Some VideoStatus.processing);
     (Some JobStatus.pending, Some VideoStatus.processing);
     (Some JobStatus.pending, Some VideoStatus.processing);
     (Some JobStatus.failed, Some VideoStatus.failed)].
Proof. reflexivity. Qed.

(** ** The theorems at the sample data *)

Lemma failed_dispatch_budget_exhausted_witness :
  exists w',
    processJob idle_config sample_clock sample_fetch (sample_job 3)
      (sample_world VideoStatus.processing 3) = (Returns tt, w') /\
    jobStatusOf "alice" "ab12cd34" w' = Some JobStatus.failed /\
    videoStatusOf "ab12cd34" w' = Some VideoStatus.failed.
Proof.
  destruct (@failed_dispatch_budget_exhausted idle_config sample_clock
              sample_fetch (sample_job 3)
              (sample_world VideoStatus.processing 3)
              "No enabled encoders available"
              (sample_world VideoStatus.processing 3))
    as (w' & Hrun & Hjob & _ & Hvideo);
    [reflexivity | reflexivity | simpl; lia |].
  exists w'. split; [exact Hrun|]. split.
  - apply getJob_inv in Hjob. destruct Hjob as (_ & _ & Hjob).
    unfold jobStatusOf. simpl in Hjob. now rewrite <- Hjob.
  - specialize (Hvideo (sample_video VideoStatus.processing) eq_refl).
    apply getVideo_inv in Hvideo. destruct Hvideo as (_ & _ & Hvideo).
    unfold videoStatusOf. simpl in Hvideo. now rewrite <- Hvideo.
Defined.

Lemma round_robin_selection_witness :
  exists selected,
    selectMany sample_config 7 (sample_world VideoStatus.processing 0)
    = (Returns selected,
       mkWorld (database (sample_world VideoStatus.processing 0)) 7 0) /\
    nth_error selected 4 = Some (sample_encoder "w2" true).
Proof.
  destruct (@round_robin_selection sample_config sample_clock sample_fetch 7
              (sample_world VideoStatus.processing 0))
    as (_ & (selected & Hrun & _ & _ & Hfresh) & _); [discriminate|].
  exists selected. split; [exact Hrun|].
  rewrite Hfresh; [reflexivity | reflexivity | lia].
Defined.

Lemma failed_dispatch_within_budget_witness :
  exists w',
    processJob idle_config sample_clock sample_fetch (sample_job 2)
      (sample_world VideoStatus.processing 2) = (Returns tt, w') /\
    jobStatusOf "alice" "ab12cd34" w' = Some JobStatus.pending /\
    videos (database w')
    = videos (database (sample_world VideoStatus.processing 2)).
Proof.
  destruct (@failed_dispatch_within_budget idle_config sample_clock
              sample_fetch (sample_job 2)
              (sample_world VideoStatus.processing 2)
              "No enabled encoders available"
              (sample_world VideoStatus.processing 2))
    as (w' & Hrun & Hjob & Hvideos);
    [reflexivity | reflexivity | simpl; lia |].
  exists w'. split; [exact Hrun|]. split; [|exact Hvideos].
  apply getJob_inv in Hjob. destruct Hjob as (_ & _ & Hjob).
  unfold jobStatusOf. simpl in Hjob. now rewrite <- Hjob.
Defined.

Lemma no_workers_exhaust_budget_witness :
  let w4 := polls (processJobs idle_config sample_clock sample_fetch) 4
              (sample_world VideoStatus.processing 0) in
  jobStatusOf "alice" "ab12cd34" w4 = Some JobStatus.failed /\
  videoStatusOf "ab12cd34" w4 = Some VideoStatus.failed.
Proof.
  destruct (@no_workers_exhaust_budget idle_config sample_clock sample_fetch
              eq_refl "alice" "ab12cd34" (sample_job 0)
              (sample_world VideoStatus.processing 0))
    as (_ & _ & j4 & Hjob & Hstatus & _ & _ & Hvideo).
  - reflexivity.
  - simpl. constructor; [intros []|constructor].
  - reflexivity.
  - intros n Hn.
    destruct n as [|[|[|[|n]]]]; [| | | |lia];
      (eexists; split; [vm_compute; left; reflexivity | reflexivity]).
  - cbv zeta. split.
    + apply getJob_inv in Hjob. destruct Hjob as (_ & _ & Hjob).
      unfold jobStatusOf. rewrite <- Hjob. simpl. now rewrite Hstatus.
    + destruct (Hvideo (sample_video VideoStatus.processing) eq_refl)
        as (v4 & Hv4 & Hfailed).
      apply getVideo_inv in Hv4. destruct Hv4 as (_ & _ & Hv4).
      unfold videoStatusOf. rewrite <- Hv4. simpl. now rewrite Hfailed.
Defined.

Lemma webhook_complete_witness :
  exists w',
    fst (webhook sample_config sample_clock (single "secret") sample_report
           (sample_world VideoStatus.processing 0))
    = Returns (mkResponse 200
                 [("success", JBool true);
                  ("message", JString "Webhook processed successfully")]) /\
    snd (webhook sample_config sample_clock (single "secret") sample_report
           (sample_world VideoStatus.processing 0)) = w' /\
    videoStatusOf "ab12cd34" w' = Some VideoStatus.published /\
    jobStatusOf "alice" "ab12cd34" w' = Some JobStatus.completed.
Proof.
  destruct (@webhook_complete sample_config sample_clock sample_report
              (sample_world VideoStatus.processing 0)
              (sample_video VideoStatus.processing) (sample_job 0))
    as (w' & Hrun & Hvideo & Hjob); [reflexivity | reflexivity | reflexivity |].
  exists w'. change (webhookApiKey sample_config) with "secret" in Hrun.
  rewrite Hrun. split; [reflexivity|]. split; [reflexivity|]. split.
  - apply getVideo_inv in Hvideo. destruct Hvideo as (_ & _ & Hvideo).
    unfold videoStatusOf. simpl in Hvideo. now rewrite <- Hvideo.
  - apply getJob_inv in Hjob. destruct Hjob as (_ & _ & Hjob).
    unfold jobStatusOf. simpl in Hjob. now rewrite <- Hjob.
Defined.

Lemma webhook_rejects_bad_credential_witness :
  webhook sample_config sample_clock (single "Secret") sample_report
    (sample_world VideoStatus.processing 0)
  = (Returns (mkResponse 401 [("error", JString "Unauthorized")]),
     sample_world VideoStatus.processing 0) /\
  webhook sample_config sample_clock absent sample_report
    (sample_world VideoStatus.processing 0)
  = (Returns (mkResponse 401 [("error", JString "Unauthorized")]),
     sample_world VideoStatus.processing 0).
Proof.
  split; apply webhook_rejects_bad_credential; simpl; discriminate.
Defined.

Lemma markProcessing_unconditional_witness :
  exists w',
    markProcessing sample_clock "ab12cd34" "Qm999" (Some 77)
      (sample_world VideoStatus.uploading 0) = (Returns tt, w') /\
    videoStatusOf "ab12cd34" w' = Some VideoStatus.processing.
Proof.
  destruct (@markProcessing_unconditional sample_clock "ab12cd34" "Qm999"
              (Some 77) (sample_world VideoStatus.uploading 0))
    as (w' & Hrun & _ & Hvideo & _); [reflexivity|].
  exists w'. split; [exact Hrun|].
  specialize (Hvideo (sample_video VideoStatus.uploading) eq_refl).
  apply getVideo_inv in Hvideo. destruct Hvideo as (_ & _ & Hvideo).
  unfold videoStatusOf. simpl in Hvideo. now rewrite <- Hvideo.
Defined.

Lemma markFailed_idempotent_witness :
  exists w1 w2,
    markFailed sample_clock "ab12cd34"
      (sample_world VideoStatus.processing 0) = (Returns tt, w1) /\
    markFailed sample_clock "ab12cd34" w1 = (Returns tt, w2) /\
    jobs (database w2)
    = jobs (database (sample_world VideoStatus.processing 0)).
Proof.
  destruct (@markFailed_idempotent sample_clock "ab12cd34"
              (sample_world VideoStatus.processing 0))
    as (w1 & w2 & Hfirst & Hsecond & _ & _ & Hjobs & _); [reflexivity|].
  exists w1, w2. auto.
Defined.

Lemma setThumbnail_any_status_witness :
  exists w',
    setThumbnail sample_clock "ab12cd34" (Some "https://img.example/t.jpg")
      (sample_world VideoStatus.published 0)
    = (Returns (mkResponse 200
                  [("success", JBool true);
                   ("thumbnail_url", JString "https://img.example/t.jpg")]),
       w') /\
    thumbnailOf "ab12cd34" w' = Some (Some "https://img.example/t.jpg").
Proof.
  destruct (@setThumbnail_any_status sample_clock "ab12cd34"
              "https://img.example/t.jpg"
              (sample_world VideoStatus.published 0)
              (sample_video VideoStatus.published))
    as (w' & Hrun & Hvideo & _); [discriminate | reflexivity |].
  exists w'. split; [exact Hrun|].
  apply getVideo_inv in Hvideo. destruct Hvideo as (_ & _ & Hvideo).
  unfold thumbnailOf. simpl in Hvideo. now rewrite <- Hvideo.
Defined.

Lemma video_update_without_record_is_noop_witness :
  markFailed sample_clock "zz99zz99" (sample_world VideoStatus.processing 0)
  = (Returns tt, tick (sample_world VideoStatus.processing 0)) /\
  database (tick (sample_world VideoStatus.processing 0))
  = database (sample_world VideoStatus.processing 0).
Proof.
  destruct (@video_update_without_record_is_noop sample_config sample_clock
              "zz99zz99" (sample_world VideoStatus.processing 0))
    as (_ & _ & _ & Hfailed & Hsame & _); [reflexivity|].
  now split.
Defined.

(** ** Where the code departs from the specification *)

(** [markProcessing] neither requires the status [uploading] nor reports a
    missing video: a [published] video is moved to [processing], and for a
    permlink that the store does not hold the call returns normally. *)
Lemma markProcessing_counterexample :
  videoStatusOf "ab12cd34" (sample_world VideoStatus.published 0)
  = Some VideoStatus.published /\
  fst (markProcessing sample_clock "ab12cd34" "Qm999" (Some 77)
         (sample_world VideoStatus.published 0)) = Returns tt /\
  videoStatusOf "ab12cd34"
    (snd (markProcessing sample_clock "ab12cd34" "Qm999" (Some 77)
            (sample_world VideoStatus.published 0)))
  = Some VideoStatus.processing /\
  getVideo "zz99zz99" (sample_world VideoStatus.published 0)
  = (Returns None, sample_world VideoStatus.published 0) /\
  fst (markProcessing sample_clock "zz99zz99" "Qm999" (Some 77)
         (sample_world VideoStatus.published 0)) = Returns tt.
Proof. repeat split; reflexivity. Qed.

(** The thumbnail route does apply the update to a [deleted] video. *)
Lemma setThumbnail_counterexample :
  videoStatusOf "ab12cd34" (sample_world VideoStatus.deleted 0)
  = Some VideoStatus.deleted /\
  thumbnailOf "ab12cd34" (sample_world VideoStatus.deleted 0) = Some None /\
  fst (setThumbnail sample_clock "ab12cd34"
         (Some "https://img.example/t.jpg")
         (sample_world VideoStatus.deleted 0))
  = Returns (mkResponse 200
               [("success", JBool true);
                ("thumbnail_url", JString "https://img.example/t.jpg")]) /\
  thumbnailOf "ab12cd34"
    (snd (setThumbnail sample_clock "ab12cd34"
            (Some "https://img.example/t.jpg")
            (sample_world VideoStatus.deleted 0)))
  = Some (Some "https://img.example/t.jpg").
Proof. repeat split; reflexivity. Qed.

(** * Further properties of the code *)

(** ** database/mongodb.ts: the pending queue *)

Section SortFacts.
Variable A : Type.
Variable key : A -> nat.




End SortFacts.


(** ** database/mongodb.ts: inserting and finding *)

Lemma find_app A (f : A -> bool) (l l' : list A) :
  find f (l ++ l')%list
  = match find f l with
    | Some x => Some x
    | None => find f l'
    end.
Proof.
  induction l as [|d rest IH]; simpl; [reflexivity|].
  now destruct (f d).
Qed.

(** X2. [createJob] on a connected store: when no job has the owner and
    permlink, the job is stored and [getJob] returns exactly it, every
    other key reads as before, no video changes and the keys stay
    distinct; when a job with that owner and permlink is already there the
    call throws and nothing changes. *)
Theorem createJob_then_getJob job w :
  connected (database w) = true ->
  (getJob (EncodingJob.owner job) (EncodingJob.permlink job) w
   = (Returns None, w) ->
   exists w',
     createJob job w = (Returns tt, w') /\
     getJob (EncodingJob.owner job) (EncodingJob.permlink job) w'
     = (Returns (Some job), w') /\
     (forall owner permlink,
         (owner, permlink) <> job_key job ->
         getJob owner permlink w' = (fst (getJob owner permlink w), w')) /\
     videos (database w') = videos (database w) /\
     (NoDup (map job_key (jobs (database w))) ->
      NoDup (map job_key (jobs (database w'))))) /\
  (forall existing,
      getJob (EncodingJob.owner job) (EncodingJob.permlink job) w
      = (Returns (Some existing), w) ->
      exists e, createJob job w = (Throws e, w)).
Proof.
  intros Hc. split.
  - intros Hnone. apply getJob_inv in Hnone.
    destruct Hnone as (_ & _ & Hnone). symmetry in Hnone.
    assert (Hrun : createJob job w
                   = (Returns tt,
                      mkWorld (mkDatabase true (videos (database w))
                                 (jobs (database w) ++ [job])%list)
                        (currentEncoderIndex w) (ticks w))).
    { unfold createJob, bind, requireConnected, putJobs.
      rewrite Hc, Hnone. cbn [database connected videos jobs].
      now rewrite Hc. }
    eexists. split; [exact Hrun|].
    split; [|split; [|split; [reflexivity|]]].
    + rewrite getJob_connected by reflexivity. cbn [database jobs].
      unfold findOne in *. rewrite find_app, Hnone. simpl.
      assert (H : job_is (EncodingJob.owner job) (EncodingJob.permlink job)
                    job = true) by now apply job_is_key.
      now rewrite H.
    + intros owner permlink Hne.
      rewrite !getJob_connected by (exact Hc || reflexivity).
      cbn [database jobs fst]. unfold findOne. rewrite find_app.
      destruct (find (job_is owner permlink) (jobs (database w)));
        [reflexivity|].
      simpl. destruct (job_is owner permlink job) eqn:Hk; [|reflexivity].
      apply job_is_key in Hk. congruence.
    + intros Hnd. now apply (createJob_unique job w Hnd).
  - intros existing Hsome. apply getJob_inv in Hsome.
    destruct Hsome as (_ & _ & Hsome). symmetry in Hsome.
    eexists. unfold createJob, bind, requireConnected, throw.
    rewrite Hc, Hsome. reflexivity.
Qed.

(** X3. [createVideoEntry] appends without looking: on a connected store
    a permlink that was free reads back as the new entry, but when a video
    with the permlink is already stored, [getVideo] keeps returning the
    old one, so the new entry is never found under its permlink; other
    permlinks read as before and no job changes. *)
Theorem createVideoEntry_then_getVideo metadata w :
  connected (database w) = true ->
  exists w',
    createVideoEntry metadata w = (Returns tt, w') /\
    (getVideo (VideoMetadata.permlink metadata) w = (Returns None, w) ->
     getVideo (VideoMetadata.permlink metadata) w'
     = (Returns (Some metadata), w')) /\
    (forall old,
        getVideo (VideoMetadata.permlink metadata) w
        = (Returns (Some old), w) ->
        getVideo (VideoMetadata.permlink metadata) w'
        = (Returns (Some old), w')) /\
    (forall other,
        other <> VideoMetadata.permlink metadata ->
        getVideo other w' = (fst (getVideo other w), w')) /\
    jobs (database w') = jobs (database w).
Proof.
  intros Hc.
  assert (Hrun : createVideoEntry metadata w
                 = (Returns tt,
                    mkWorld (mkDatabase true
                               (videos (database w) ++ [metadata])%list
                               (jobs (database w)))
                      (currentEncoderIndex w) (ticks w))).
  { unfold createVideoEntry, bind, requireConnected, putVideos.
    rewrite Hc. cbn [database connected videos jobs]. now rewrite Hc. }
  eexists. split; [exact Hrun|].
  split; [|split; [|split; [|reflexivity]]].
  - intros Hnone. apply getVideo_inv in Hnone.
    destruct Hnone as (_ & _ & Hnone). symmetry in Hnone.
    rewrite getVideo_connected by reflexivity. cbn [database videos].
    unfold findOne in *. rewrite find_app, Hnone. simpl.
    unfold video_is. now rewrite String.eqb_refl.
  - intros old Hold. apply getVideo_inv in Hold.
    destruct Hold as (_ & _ & Hold). symmetry in Hold.
    rewrite getVideo_connected by reflexivity. cbn [database videos].
    unfold findOne in *. now rewrite find_app, Hold.
  - intros other Hne.
    rewrite !getVideo_connected by (exact Hc || reflexivity).
    cbn [database videos fst]. unfold findOne. rewrite find_app.
    destruct (find (video_is other) (videos (database w))); [reflexivity|].
    simpl. unfold video_is.
    destruct (String.eqb_spec (VideoMetadata.permlink metadata) other);
      [congruence | reflexivity].
Qed.

(** ** index.ts: the webhook route beyond the [complete] report *)

Section Reports.
Variable config : Config.
Variable clock : nat -> Date.

Lemma report_complete_run payload w :
  connected (database w) = true ->
  wh_status payload = "complete" ->
  webhook config clock (single (webhookApiKey config)) payload w
  = (Returns
       (mkResponse 200
          [("success", JBool true);
           ("message", JString "Webhook processed successfully")]),
     mkWorld
       (mkDatabase true
          (updateOne (video_is (wh_permlink payload))
             (VideoMetadata.patch
                [VideoMetadata.Status VideoStatus.published;
                 VideoMetadata.UpdatedAt (clock (ticks w));
                 VideoMetadata.Manifest_cid (wh_manifest_cid payload);
                 VideoMetadata.EncodingProgress 100])
             (videos (database w)))
          (updateOne (job_is (wh_owner payload) (wh_permlink payload))
             (EncodingJob.patch
                [EncodingJob.Status JobStatus.completed;
                 EncodingJob.UpdatedAt (clock (S (S (ticks w))));
                 EncodingJob.WebhookReceivedAt (Some (clock (S (ticks w))))])
             (jobs (database w))))
       (currentEncoderIndex w) (S (S (S (ticks w))))).
Proof.
  intros Hc Hs.
  unfold webhook, tryCatch, bind, header_differs.
  rewrite String.eqb_refl, Hs. simpl.
  unfold markPublished.
  rewrite updateVideoStatus_connected by exact Hc.
  reflexivity.
Qed.

Lemma report_failed_run payload w :
  connected (database w) = true ->
  wh_status payload = "failed" ->
  webhook config clock (single (webhookApiKey config)) payload w
  = (Returns
       (mkResponse 200
          [("success", JBool true);
           ("message", JString "Webhook processed (failure recorded)")]),
     mkWorld
       (mkDatabase true
          (updateOne (video_is (wh_permlink payload))
             (VideoMetadata.patch
                [VideoMetadata.Status VideoStatus.failed;
                 VideoMetadata.UpdatedAt (clock (ticks w));
                 VideoMetadata.EncodingProgress 0])
             (videos (database w)))
          (updateOne (job_is (wh_owner payload) (wh_permlink payload))
             (EncodingJob.patch
                [EncodingJob.Status JobStatus.failed;
                 EncodingJob.UpdatedAt (clock (S (S (ticks w))));
                 EncodingJob.WebhookReceivedAt (Some (clock (S (ticks w))));
                 EncodingJob.LastError
                   (Some (or_default (wh_error payload) "Encoding failed"))])
             (jobs (database w))))
       (currentEncoderIndex w) (S (S (S (ticks w))))).
Proof.
  intros Hc Hs.
  unfold webhook, tryCatch, bind, header_differs.
  rewrite String.eqb_refl, Hs. simpl.
  unfold markFailed.
  rewrite updateVideoStatus_connected by exact Hc.
  reflexivity.
Qed.

Lemma video_patched permlink doc vs v :
  (forall x, ~ In (VideoMetadata.Permlink x) doc) ->
  findOne (video_is permlink) vs = Some v ->
  findOne (video_is permlink)
    (updateOne (video_is permlink) (VideoMetadata.patch doc) vs)
  = Some (VideoMetadata.patch doc v).
Proof.
  intros Hdoc Hv. apply findOne_updateOne_same; [exact Hv|].
  rewrite video_is_patch by exact Hdoc. apply (find_some _ _ Hv).
Qed.

Lemma job_patched owner permlink doc js j :
  (forall x, ~ In (EncodingJob.Owner x) doc) ->
  (forall x, ~ In (EncodingJob.Permlink x) doc) ->
  findOne (job_is owner permlink) js = Some j ->
  findOne (job_is owner permlink)
    (updateOne (job_is owner permlink) (EncodingJob.patch doc) js)
  = Some (EncodingJob.patch doc j).
Proof.
  intros Ho Hp Hj. apply findOne_updateOne_same; [exact Hj|].
  rewrite job_is_patch by assumption. apply (find_some _ _ Hj).
Qed.

(** X4. An authenticated webhook report with status [failed], for a video
    and a job that exist, is answered 200; the video then has status
    [failed] and [encodingProgress] 0, and the job has status [failed],
    [webhookReceivedAt] the time read in the handler and [lastError] the
    reported error, or "Encoding failed" when the report carries none or
    an empty one. No other field but [updatedAt] changes, whatever the
    statuses were before. *)
Theorem webhook_failed_report payload w v j :
  wh_status payload = "failed" ->
  getVideo (wh_permlink payload) w = (Returns (Some v), w) ->
  getJob (wh_owner payload) (wh_permlink payload) w = (Returns (Some j), w) ->
  exists w',
    webhook config clock (single (webhookApiKey config)) payload w
    = (Returns
         (mkResponse 200
            [("success", JBool true);
             ("message", JString "Webhook processed (failure recorded)")]),
       w') /\
    getVideo (wh_permlink payload) w'
    = (Returns
         (Some (VideoMetadata.mk
                  (VideoMetadata.owner v) (VideoMetadata.permlink v)
                  (VideoMetadata.frontend_app v) VideoStatus.failed
                  (VideoMetadata.input_cid v) (VideoMetadata.manifest_cid v)
                  (VideoMetadata.thumbnail_url v) (VideoMetadata.short v)
                  (VideoMetadata.duration v) (VideoMetadata.size v) 0
                  (VideoMetadata.originalFilename v)
                  (VideoMetadata.createdAt v) (clock (ticks w)))),
       w') /\
    getJob (wh_owner payload) (wh_permlink payload) w'
    = (Returns
         (Some (EncodingJob.mk
                  (EncodingJob.owner j) (EncodingJob.permlink j)
                  JobStatus.failed
                  (EncodingJob.assignedWorker j) (EncodingJob.encoderJobId j)
                  (EncodingJob.assignedAt j) (EncodingJob.attemptCount j)
                  (Some (match wh_error payload with
                         | Some "" | None => "Encoding failed"
                         | Some reported => reported
                         end))
                  (Some (clock (S (ticks w))))
                  (EncodingJob.createdAt j) (clock (S (S (ticks w)))))),
       w').
Proof.
  intros Hs Hv Hj.
  pose proof (getVideo_inv _ _ Hv) as (Hc & _ & Hfv). symmetry in Hfv.
  pose proof (getJob_inv _ _ _ Hj) as (_ & _ & Hfj). symmetry in Hfj.
  rewrite report_failed_run by assumption.
  eexists. split; [reflexivity|]. split.
  - rewrite getVideo_connected by reflexivity. cbn [database videos].
    rewrite video_patched with (v := v); [| no_key | exact Hfv].
    destruct v; reflexivity.
  - rewrite getJob_connected by reflexivity. cbn [database jobs].
    rewrite job_patched with (j := j); [| no_key | no_key | exact Hfj].
    destruct j. cbn. do 3 f_equal.
    destruct (wh_error payload) as [[|c rest]|]; reflexivity.
Qed.



End Reports.

Section ReportSequences.
Variable config : Config.
Variable clock : nat -> Date.

(** X6. The route has no guard on the current state, so the last report
    wins: after an authenticated [complete] report, a later authenticated
    [failed] report for the same owner and permlink is answered 200 and
    turns the [published] video into [failed] with [encodingProgress] 0,
    still carrying the [manifest_cid] of the first report, and the
    [completed] job into [failed]. *)
Theorem webhook_last_report_wins done broken w v j :
  wh_status done = "complete" ->
  wh_status broken = "failed" ->
  wh_owner broken = wh_owner done ->
  wh_permlink broken = wh_permlink done ->
  getVideo (wh_permlink done) w = (Returns (Some v), w) ->
  getJob (wh_owner done) (wh_permlink done) w = (Returns (Some j), w) ->
  exists response1 w1 response2 w2,
    webhook config clock (single (webhookApiKey config)) done w
    = (Returns response1, w1) /\
    videoStatusOf (wh_permlink done) w1 = Some VideoStatus.published /\
    jobStatusOf (wh_owner done) (wh_permlink done) w1
    = Some JobStatus.completed /\
    webhook config clock (single (webhookApiKey config)) broken w1
    = (Returns response2, w2) /\
    statusCode response2 = 200 /\
    getVideo (wh_permlink done) w2
    = (Returns
         (Some (VideoMetadata.mk
                  (VideoMetadata.owner v) (VideoMetadata.permlink v)
                  (VideoMetadata.frontend_app v) VideoStatus.failed
                  (VideoMetadata.input_cid v) (wh_manifest_cid done)
                  (VideoMetadata.thumbnail_url v) (VideoMetadata.short v)
                  (VideoMetadata.duration v) (VideoMetadata.size v) 0
                  (VideoMetadata.originalFilename v)
                  (VideoMetadata.createdAt v) (clock (ticks w1)))),
       w2) /\
    jobStatusOf (wh_owner done) (wh_permlink done) w2
    = Some JobStatus.failed.
Proof.
  intros Hs1 Hs2 Ho Hp Hv Hj.
  pose proof (getVideo_inv _ _ Hv) as (Hc & _ & Hfv). symmetry in Hfv.
  pose proof (getJob_inv _ _ _ Hj) as (_ & _ & Hfj). symmetry in Hfj.
  rewrite report_complete_run by assumption.
  set (w1 := mkWorld _ _ _).
  eexists. exists w1.
  assert (Hv1 : findOne (video_is (wh_permlink done)) (videos (database w1))
                = Some (VideoMetadata.patch
                          [VideoMetadata.Status VideoStatus.published;
                           VideoMetadata.UpdatedAt (clock (ticks w));
                           VideoMetadata.Manifest_cid (wh_manifest_cid done);
                           VideoMetadata.EncodingProgress 100] v)).
  { subst w1. cbn [database videos].
    apply video_patched; [no_key | exact Hfv]. }
  assert (Hj1 : findOne (job_is (wh_owner done) (wh_permlink done))
                  (jobs (database w1))
                = Some (EncodingJob.patch
                          [EncodingJob.Status JobStatus.completed;
                           EncodingJob.UpdatedAt (clock (S (S (ticks w))));
                           EncodingJob.WebhookReceivedAt
                             (Some (clock (S (ticks w))))] j)).
  { subst w1. cbn [database jobs].
    apply job_patched; [no_key | no_key | exact Hfj]. }
  rewrite (report_failed_run config clock broken w1) by (reflexivity || exact Hs2).
  set (w2 := mkWorld _ _ _).
  eexists. exists w2.
  split; [reflexivity|]. split; [|split]; [| |split; [reflexivity|]].
  3: split; [reflexivity|split].
  - unfold videoStatusOf. rewrite Hv1. now destruct v.
  - unfold jobStatusOf. rewrite Hj1. now destruct j.
  - rewrite getVideo_connected by reflexivity.
    subst w2. cbn [database videos]. rewrite Hp.
    rewrite video_patched
      with (v := VideoMetadata.patch
                   [VideoMetadata.Status VideoStatus.published;
                    VideoMetadata.UpdatedAt (clock (ticks w));
                    VideoMetadata.Manifest_cid (wh_manifest_cid done);
                    VideoMetadata.EncodingProgress 100] v);
      [| no_key | exact Hv1].
    destruct v; reflexivity.
  - unfold jobStatusOf. subst w2. cbn [database jobs]. rewrite Ho, Hp.
    rewrite job_patched
      with (j := EncodingJob.patch
                   [EncodingJob.Status JobStatus.completed;
                    EncodingJob.UpdatedAt (clock (S (S (ticks w))));
                    EncodingJob.WebhookReceivedAt
                      (Some (clock (S (ticks w))))] j);
      [| no_key | no_key | exact Hj1].
    now destruct j.
Qed.

(** X7. Replaying a [complete] report is harmless: the second call is
    answered 200 again and leaves the video as the first call made it but
    for a fresh [updatedAt], and the job as the first call made it but for
    fresh [webhookReceivedAt] and [updatedAt]. *)
Theorem webhook_replay done w v j :
  wh_status done = "complete" ->
  getVideo (wh_permlink done) w = (Returns (Some v), w) ->
  getJob (wh_owner done) (wh_permlink done) w = (Returns (Some j), w) ->
  exists response w1 w2 v1 j1,
    webhook config clock (single (webhookApiKey config)) done w
    = (Returns response, w1) /\
    getVideo (wh_permlink done) w1 = (Returns (Some v1), w1) /\
    getJob (wh_owner done) (wh_permlink done) w1 = (Returns (Some j1), w1) /\
    webhook config clock (single (webhookApiKey config)) done w1
    = (Returns response, w2) /\
    statusCode response = 200 /\
    getVideo (wh_permlink done) w2
    = (Returns
         (Some (VideoMetadata.set
                  (VideoMetadata.UpdatedAt (clock (ticks w1))) v1)),
       w2) /\
    getJob (wh_owner done) (wh_permlink done) w2
    = (Returns
         (Some (EncodingJob.set
                  (EncodingJob.WebhookReceivedAt
                     (Some (clock (S (ticks w1)))))
                  (EncodingJob.set
                     (EncodingJob.UpdatedAt (clock (S (S (ticks w1)))))
                     j1))),
       w2).
Proof.
  intros Hs Hv Hj.
  pose proof (getVideo_inv _ _ Hv) as (Hc & _ & Hfv). symmetry in Hfv.
  pose proof (getJob_inv _ _ _ Hj) as (_ & _ & Hfj). symmetry in Hfj.
  rewrite report_complete_run by assumption.
  set (w1 := mkWorld _ _ _).
  eexists. exists w1.
  assert (Hv1 : findOne (video_is (wh_permlink done)) (videos (database w1))
                = Some (VideoMetadata.patch
                          [VideoMetadata.Status VideoStatus.published;
                           VideoMetadata.UpdatedAt (clock (ticks w));
                           VideoMetadata.Manifest_cid (wh_manifest_cid done);
                           VideoMetadata.EncodingProgress 100] v)).
  { subst w1. cbn [database videos].
    apply video_patched; [no_key | exact Hfv]. }
  assert (Hj1 : findOne (job_is (wh_owner done) (wh_permlink done))
                  (jobs (database w1))
                = Some (EncodingJob.patch
                          [EncodingJob.Status JobStatus.completed;
                           EncodingJob.UpdatedAt (clock (S (S (ticks w))));
                           EncodingJob.WebhookReceivedAt
                             (Some (clock (S (ticks w))))] j)).
  { subst w1. cbn [database jobs].
    apply job_patched; [no_key | no_key | exact Hfj]. }
  rewrite (report_complete_run config clock done w1) by (reflexivity || exact Hs).
  set (w2 := mkWorld _ _ _).
  exists w2. do 2 eexists.
  split; [reflexivity|]. split; [|split]; [| |split; [reflexivity|]].
  3: split; [reflexivity|split].
  - rewrite getVideo_connected by reflexivity. now rewrite Hv1.
  - rewrite getJob_connected by reflexivity. now rewrite Hj1.
  - rewrite getVideo_connected by reflexivity.
    subst w2. cbn [database videos].
    rewrite video_patched
      with (v := VideoMetadata.patch
                   [VideoMetadata.Status VideoStatus.published;
                    VideoMetadata.UpdatedAt (clock (ticks w));
                    VideoMetadata.Manifest_cid (wh_manifest_cid done);
                    VideoMetadata.EncodingProgress 100] v);
      [| no_key | exact Hv1].
    destruct v; reflexivity.
  - rewrite getJob_connected by reflexivity.
    subst w2. cbn [database jobs].
    rewrite job_patched
      with (j := EncodingJob.patch
                   [EncodingJob.Status JobStatus.completed;
                    EncodingJob.UpdatedAt (clock (S (S (ticks w))));
                    EncodingJob.WebhookReceivedAt
                      (Some (clock (S (ticks w))))] j);
      [| no_key | no_key | exact Hj1].
    destruct j; reflexivity.
Qed.

(** X8. A report about an upload the store does not know (no video with
    the permlink, no job with the owner and permlink) is still answered
    200 by a connected store, and no record is created or changed. *)
Theorem webhook_unknown_upload payload w :
  wh_status payload = "complete" \/ wh_status payload = "failed" ->
  getVideo (wh_permlink payload) w = (Returns None, w) ->
  getJob (wh_owner payload) (wh_permlink payload) w = (Returns None, w) ->
  exists response w',
    webhook config clock (single (webhookApiKey config)) payload w
    = (Returns response, w') /\
    statusCode response = 200 /\
    database w' = database w.
Proof.
  intros Hs Hv Hj.
  pose proof (getVideo_inv _ _ Hv) as (Hc & _ & Hfv). symmetry in Hfv.
  pose proof (getJob_inv _ _ _ Hj) as (_ & _ & Hfj). symmetry in Hfj.
  destruct Hs as [Hs|Hs];
    [rewrite report_complete_run by assumption
    |rewrite report_failed_run by assumption];
    do 2 eexists; (split; [reflexivity|]); (split; [reflexivity|]);
    cbn [database];
    rewrite (updateOne_absent _ _ _ Hfv), (updateOne_absent _ _ _ Hfj);
    destruct w as [[c vs js] i t]; simpl in *; now subst c.
Qed.

End ReportSequences.

(** ** index.ts: what the thumbnail route refuses *)

(** X9. The thumbnail route changes nothing unless it answers 200: a
    missing or empty [thumbnail_url] is answered 400 before the store is
    touched; with a URL, a permlink the connected store does not hold is
    answered 404, and a store that is not connected is answered 500. *)
Theorem setThumbnail_refusals clock permlink thumbnail_url w :
  (truthy thumbnail_url = false ->
   setThumbnail clock permlink thumbnail_url w
   = (Returns (mkResponse 400 [("error", JString "thumbnail_url is required")]),
      w)) /\
  (truthy thumbnail_url = true ->
   getVideo permlink w = (Returns None, w) ->
   setThumbnail clock permlink thumbnail_url w
   = (Returns (mkResponse 404 [("error", JString "Video not found")]), w)) /\
  (truthy thumbnail_url = true ->
   connected (database w) = false ->
   setThumbnail clock permlink thumbnail_url w
   = (Returns (mkResponse 500 [("error", JString "Internal server error")]),
      w)).
Proof.
  unfold setThumbnail, tryCatch, bind.
  split; [|split].
  - intros Ht. now rewrite Ht.
  - intros Ht Hv. rewrite Ht. cbn [negb]. now rewrite Hv.
  - intros Ht Hc. rewrite Ht. cbn [negb].
    unfold getVideo, bind, requireConnected. now rewrite Hc.
Qed.

(** ** dispatcher/jobDispatcher.ts: one dispatch, case by case *)

Section Dispatch.
Variable config : Config.
Variable clock : nat -> Date.
Variable fetch : nat -> string -> string -> EncoderRequest -> Outcome HttpResponse.

(** X10. A dispatch that cannot start leaves everything as it was, the
    round-robin cursor included, and calls no encoder: it throws
    "Database not connected" on a disconnected store, "Video not found"
    when no video has the permlink, and "Video has no input_cid" when the
    video's [input_cid] is null or empty. *)
Theorem dispatchJob_cannot_start owner permlink w :
  (connected (database w) = false ->
   dispatchJob config clock fetch owner permlink w
   = (Throws "Database not connected", w)) /\
  (getVideo permlink w = (Returns None, w) ->
   dispatchJob config clock fetch owner permlink w
   = (Throws ("Video not found: " ++ permlink), w)) /\
  (forall v,
      getVideo permlink w = (Returns (Some v), w) ->
      truthy (VideoMetadata.input_cid v) = false ->
      dispatchJob config clock fetch owner permlink w
      = (Throws ("Video has no input_cid: " ++ permlink), w)).
Proof.
  unfold dispatchJob, bind. split; [|split].
  - intros Hc. unfold getVideo, bind, requireConnected. now rewrite Hc.
  - intros Hv. now rewrite Hv.
  - intros v Hv Ht. rewrite Hv, Ht. reflexivity.
Qed.

(** Once the video is there with its [input_cid] and an encoder is
    selected, the outcome of the dispatch is the outcome of the call to
    that encoder. *)
Lemma dispatchJob_ready owner permlink w v cid encoder :
  getVideo permlink w = (Returns (Some v), w) ->
  VideoMetadata.input_cid v = Some cid ->
  cid <> "" ->
  nth_error (enabledEncoders config)
    (currentEncoderIndex w mod length (enabledEncoders config))
  = Some encoder ->
  let selected :=
    mkWorld (database w) (S (currentEncoderIndex w)) (S (ticks w)) in
  dispatchJob config clock fetch owner permlink w
  = match fetch (ticks w) (url encoder ++ "/encode") (apiKey encoder)
            (mkEncoderRequest owner permlink (ipfsGateway ++ "/" ++ cid)
               (VideoMetadata.short v) (webhookUrl config)
               (webhookApiKey config) (VideoMetadata.frontend_app v)
               (VideoMetadata.originalFilename v)) with
    | Throws msg => (Throws msg, selected)
    | Returns response =>
        if ok response then
          match json response with
          | Throws msg => (Throws msg, selected)
          | Returns job_id =>
              updateJobStatus clock owner permlink JobStatus.encoding
                [EncodingJob.EncoderJobId job_id;
                 EncodingJob.AssignedWorker (Some (name encoder));
                 EncodingJob.AssignedAt (Some (clock (S (ticks w))))]
                (tick selected)
          end
        else
          match text response with
          | Throws msg => (Throws msg, selected)
          | Returns errorText =>
              (Throws ("Encoder API error: " ++ show_nat (status response)
                         ++ " - " ++ errorText), selected)
          end
    end.
Proof.
  intros Hv Hcid Hne Hnth selected.
  assert (Hsel : getNextEncoder config w
                 = (Returns encoder,
                    mkWorld (database w) (S (currentEncoderIndex w))
                      (ticks w))).
  { destruct (getNextEncoder_some config w) as (e & Hrun & He).
    - intros Hnil. rewrite Hnil in Hnth. now destruct (_ mod _).
    - rewrite Hrun. congruence. }
  unfold dispatchJob, bind. rewrite Hv.
  unfold truthy, or_default. rewrite Hcid.
  apply String.eqb_neq in Hne. rewrite Hne. cbn [negb].
  rewrite Hsel. unfold callFetch. cbn [ticks].
  destruct (fetch _ _ _ _) as [response|msg]; [|reflexivity].
  destruct (ok response); cbn [negb].
  - unfold settle.
    destruct (json response) as [job_id|msg]; [|reflexivity].
    unfold newDate. reflexivity.
  - unfold settle.
    destruct (text response) as [errorText|msg]; reflexivity.
Qed.

(** X11. A dispatch that reaches an encoder and is refused has still used
    up that encoder's turn: when [fetch] rejects, or answers with a status
    that is not ok, or answers ok with a body that does not parse, the
    dispatch throws (for a non-ok answer the message is "Encoder API
    error: <status> - <body>"), the cursor has advanced by one and no
    record has changed. *)
Theorem dispatchJob_refused owner permlink w v cid encoder :
  getVideo permlink w = (Returns (Some v), w) ->
  VideoMetadata.input_cid v = Some cid ->
  cid <> "" ->
  nth_error (enabledEncoders config)
    (currentEncoderIndex w mod length (enabledEncoders config))
  = Some encoder ->
  let answer :=
    fetch (ticks w) (url encoder ++ "/encode") (apiKey encoder)
      (mkEncoderRequest owner permlink (ipfsGateway ++ "/" ++ cid)
         (VideoMetadata.short v) (webhookUrl config) (webhookApiKey config)
         (VideoMetadata.frontend_app v) (VideoMetadata.originalFilename v)) in
  let selected :=
    mkWorld (database w) (S (currentEncoderIndex w)) (S (ticks w)) in
  (forall msg,
      answer = Throws msg ->
      dispatchJob config clock fetch owner permlink w
      = (Throws msg, selected)) /\
  (forall response errorText,
      answer = Returns response -> ok response = false ->
      text response = Returns errorText ->
      dispatchJob config clock fetch owner permlink w
      = (Throws ("Encoder API error: " ++ show_nat (status response)
                   ++ " - " ++ errorText), selected)) /\
  (forall response msg,
      answer = Returns response -> ok response = true ->
      json response = Throws msg ->
      dispatchJob config clock fetch owner permlink w
      = (Throws msg, selected)).
Proof.
  intros Hv Hcid Hne Hnth answer selected.
  pose proof (@dispatchJob_ready owner permlink w v cid encoder
                Hv Hcid Hne Hnth) as Hrun.
  cbv zeta in Hrun. fold answer in Hrun. fold selected in Hrun.
  split; [|split].
  - intros msg Ha. now rewrite Hrun, Ha.
  - intros response errorText Ha Hok Htext.
    now rewrite Hrun, Ha, Hok, Htext.
  - intros response msg Ha Hok Hjson.
    now rewrite Hrun, Ha, Hok, Hjson.
Qed.

(** X12. A dispatch that the selected encoder accepts (an ok answer whose
    body parses) returns normally; the job is then [encoding], with
    [assignedWorker] the encoder's name, [encoderJobId] the [job_id] of
    the answer (null when the answer has none) and [assignedAt] the time
    read after the answer, while [attemptCount] and [lastError] are kept
    as they were; the cursor has advanced by one and no video changed. *)
Theorem dispatchJob_accepted owner permlink w v cid encoder response job_id j :
  getVideo permlink w = (Returns (Some v), w) ->
  VideoMetadata.input_cid v = Some cid ->
  cid <> "" ->
  nth_error (enabledEncoders config)
    (currentEncoderIndex w mod length (enabledEncoders config))
  = Some encoder ->
  fetch (ticks w) (url encoder ++ "/encode") (apiKey encoder)
    (mkEncoderRequest owner permlink (ipfsGateway ++ "/" ++ cid)
       (VideoMetadata.short v) (webhookUrl config) (webhookApiKey config)
       (VideoMetadata.frontend_app v) (VideoMetadata.originalFilename v))
  = Returns response ->
  ok response = true ->
  json response = Returns job_id ->
  getJob owner permlink w = (Returns (Some j), w) ->
  exists w',
    dispatchJob config clock fetch owner permlink w = (Returns tt, w') /\
    currentEncoderIndex w' = S (currentEncoderIndex w) /\
    videos (database w') = videos (database w) /\
    getJob owner permlink w'
    = (Returns
         (Some (EncodingJob.mk
                  (EncodingJob.owner j) (EncodingJob.permlink j)
                  JobStatus.encoding (Some (name encoder)) job_id
                  (Some (clock (S (ticks w))))
                  (EncodingJob.attemptCount j) (EncodingJob.lastError j)
                  (EncodingJob.webhookReceivedAt j)
                  (EncodingJob.createdAt j) (clock (S (S (ticks w)))))),
       w').
Proof.
  intros Hv Hcid Hne Hnth Ha Hok Hjson Hj.
  pose proof (getJob_inv _ _ _ Hj) as (Hc & _ & Hfj). symmetry in Hfj.
  pose proof (@dispatchJob_ready owner permlink w v cid encoder
                Hv Hcid Hne Hnth) as Hrun.
  cbv zeta in Hrun. rewrite Ha, Hok, Hjson in Hrun.
  rewrite updateJobStatus_connected in Hrun by exact Hc.
  rewrite Hrun. eexists. split; [reflexivity|].
  split; [reflexivity|]. split; [reflexivity|].
  rewrite getJob_connected by reflexivity. cbn [database jobs tick ticks].
  rewrite job_patched with (j := j); [| no_key | no_key | exact Hfj].
  destruct j; reflexivity.
Qed.

End Dispatch.

(** ** dispatcher/jobDispatcher.ts: one poll, whatever the encoders answer *)

Lemma BatchEffect_nil w :
  connected (database w) = true -> BatchEffect [] w w.
Proof.
  intros Hc. constructor; try easy.
  intros P _ permlink v Hv HPv. now exists v.
Qed.

Lemma BatchEffect_cons x rest w w1 w' :
  NoDup (map job_key (x :: rest)) ->
  BatchEffect [x] w w1 -> BatchEffect rest w1 w' ->
  BatchEffect (x :: rest) w w'.
Proof.
  intros Hnd H1 H2. simpl in Hnd.
  inversion Hnd as [|k ks Hx Hrest]; subst.
  constructor.
  - apply H2.
  - rewrite (be_keys H2). apply H1.
  - intros owner permlink Hnot. simpl in Hnot.
    rewrite (be_other H2) by tauto.
    apply (be_other H1). simpl. tauto.
  - intros job j [->|Hin] Hj.
    + destruct (be_job H1 job (or_introl eq_refl) Hj) as (j' & Hj' & Hrest').
      exists j'. split; [|exact Hrest'].
      rewrite (be_other H2); [exact Hj'|]. exact Hx.
    + apply (be_job H2 job Hin).
      rewrite (be_other H1); [exact Hj|].
      simpl. intros [E|[]]. apply Hx.
      change (EncodingJob.owner job, EncodingJob.permlink job)
        with (job_key job) in E.
      rewrite E. now apply in_map.
  - intros P HP permlink v Hv HPv.
    destruct (be_video H1 P HP _ Hv HPv) as (v1 & Hv1 & HPv1).
    apply (be_video H2 P HP _ Hv1 HPv1).
Qed.

Lemma FailedBatch_BatchEffect job w w' :
  FailedBatch [job] w w' -> BatchEffect [job] w w'.
Proof.
  intros H. constructor; try apply H.
  intros job' j Hin Hj.
  destruct (fb_job H job' Hin Hj) as (j' & Hj' & Hcount & Hlow & Hhigh).
  exists j'. split; [exact Hj'|]. right. split; [exact Hcount|].
  destruct Hin as [<-|[]].
  destruct (Nat.leb_spec 3 (EncodingJob.attemptCount job)) as [Hge|Hlt].
  - now apply Hhigh.
  - now apply Hlow.
Qed.

Lemma BatchEffect_from batch w w1 w' :
  database w1 = database w -> BatchEffect batch w1 w' -> BatchEffect batch w w'.
Proof.
  intros Hdb H. constructor.
  - apply H.
  - rewrite <- Hdb. apply H.
  - intros. rewrite <- Hdb. now apply H.
  - intros job j Hin Hj. rewrite <- Hdb in Hj. now apply (be_job H).
  - intros P HP permlink v Hv HPv. rewrite <- Hdb in Hv.
    apply (be_video H P HP permlink Hv HPv).
Qed.

Section AnyPoll.
Variable config : Config.
Variable clock : nat -> Date.
Variable fetch : nat -> string -> string -> EncoderRequest -> Outcome HttpResponse.

(** What a dispatch that returns has written. *)
Lemma dispatchJob_returns_store owner permlink w w' :
  dispatchJob config clock fetch owner permlink w = (Returns tt, w') ->
  connected (database w') = true /\
  videos (database w') = videos (database w) /\
  exists job_id worker assigned updated,
    jobs (database w')
    = updateOne (job_is owner permlink)
        (EncodingJob.patch
           [EncodingJob.Status JobStatus.encoding;
            EncodingJob.UpdatedAt updated;
            EncodingJob.EncoderJobId job_id;
            EncodingJob.AssignedWorker worker;
            EncodingJob.AssignedAt assigned])
        (jobs (database w)).
Proof.
  unfold dispatchJob, getVideo, updateJobStatus, requireConnected, ret,
    throw, getNextEncoder, callFetch, settle, newDate, putJobs, bind.
  destruct (connected (database w)) eqn:Hc; cbn -[Nat.modulo];
    [|discriminate].
  destruct (findOne (video_is permlink) (videos (database w))) as [video|];
    cbn -[Nat.modulo]; [|discriminate].
  destruct (truthy (VideoMetadata.input_cid video)); cbn -[Nat.modulo];
    [|discriminate].
  destruct (enabledEncoders config) as [|first rest]; cbn -[Nat.modulo];
    [discriminate|].
  destruct (fetch _ _ _ _) as [response|msg]; cbn -[Nat.modulo];
    [|discriminate].
  destruct (ok response); cbn -[Nat.modulo].
  - destruct (json response) as [job_id|msg]; cbn -[Nat.modulo];
      [|discriminate].
    rewrite Hc. cbn -[Nat.modulo]. intros H. inversion H; subst; clear H.
    cbn [database connected videos jobs].
    split; [exact Hc|]. split; [reflexivity|].
    do 4 eexists. reflexivity.
  - destruct (text response); cbn -[Nat.modulo]; discriminate.
Qed.

Lemma processJob_effect job w :
  connected (database w) = true ->
  exists w',
    processJob config clock fetch job w = (Returns tt, w') /\
    BatchEffect [job] w w'.
Proof.
  intros Hc. unfold processJob, tryCatch.
  destruct (dispatchJob config clock fetch (EncodingJob.owner job)
              (EncodingJob.permlink job) w) as [[[]|e] w1] eqn:Hrun.
  - exists w1. split; [reflexivity|].
    destruct (@dispatchJob_returns_store _ _ _ _ Hrun)
      as (Hc1 & Hvideos & job_id & worker & assigned & updated & Hjobs).
    constructor.
    + exact Hc1.
    + rewrite Hjobs. apply job_keys_updateOne.
      intros j. now rewrite job_key_patch by no_key.
    + intros owner permlink Hnot. rewrite Hjobs.
      apply findOne_job_other.
      * intros j. now rewrite job_key_patch by no_key.
      * now apply not_in_single.
    + intros job' j [<-|[]] Hj. rewrite Hjobs.
      eexists. split.
      * apply job_patched; [no_key | no_key | exact Hj].
      * left. destruct j; split; reflexivity.
    + intros P _ permlink v Hv HPv. rewrite Hvideos. now exists v.
  - pose proof (@dispatchJob_throws_database _ _ _ _ _ _ _ _ Hrun) as Hdb.
    assert (Hc1 : connected (database w1) = true) by now rewrite Hdb.
    destruct (dispatchFailed_FailedBatch clock job e w1 Hc1)
      as (w' & Hfail & _ & Hbatch).
    exists w'. split; [exact Hfail|].
    apply BatchEffect_from with (w1 := w1); [exact Hdb|].
    now apply FailedBatch_BatchEffect.
Qed.

Lemma forEach_effect batch : forall w,
  connected (database w) = true ->
  NoDup (map job_key batch) ->
  exists w',
    forEach batch (processJob config clock fetch) w = (Returns tt, w') /\
    BatchEffect batch w w'.
Proof.
  induction batch as [|x rest IH]; intros w Hc Hnd.
  - exists w. split; [reflexivity|]. now apply BatchEffect_nil.
  - destruct (processJob_effect x w Hc) as (w1 & Hrun1 & H1).
    assert (Hnd' : NoDup (map job_key rest)) by now inversion Hnd.
    destruct (IH w1 (be_connected H1) Hnd') as (w' & Hrun & H2).
    exists w'. split.
    + simpl. unfold bind. now rewrite Hrun1.
    + now apply BatchEffect_cons with (w1 := w1).
Qed.

Lemma processJobs_effect w :
  connected (database w) = true ->
  NoDup (map job_key (jobs (database w))) ->
  exists w',
    processJobs config clock fetch w = (Returns tt, w') /\
    BatchEffect (pendingBatch 5 (jobs (database w))) w w'.
Proof.
  intros Hc Hnd.
  unfold processJobs, tryCatch, getPendingJobs, bind, requireConnected, ret.
  rewrite Hc.
  destruct (pendingBatch 5 (jobs (database w))) as [|x rest] eqn:Hb.
  - exists w. simpl. split; [reflexivity|]. now apply BatchEffect_nil.
  - cbn [length Nat.eqb].
    destruct (forEach_effect (x :: rest) w Hc) as (w' & Hrun & H).
    { rewrite <- Hb. now apply pendingBatch_NoDup. }
    exists w'. rewrite Hrun. auto.
Qed.

(** X13. One poll on a connected store with distinct job keys, whatever
    the encoders answer: it returns normally and creates or deletes no
    job; a job that was not [pending] is left exactly as it was; and a
    video is either left exactly as it was or differs only in having
    status [failed] and another [updatedAt]. *)
Theorem processJobs_spares_the_rest w :
  connected (database w) = true ->
  NoDup (map job_key (jobs (database w))) ->
  exists w',
    processJobs config clock fetch w = (Returns tt, w') /\
    connected (database w') = true /\
    map job_key (jobs (database w')) = map job_key (jobs (database w)) /\
    (forall owner permlink j,
        getJob owner permlink w = (Returns (Some j), w) ->
        EncodingJob.status j <> JobStatus.pending ->
        getJob owner permlink w' = (Returns (Some j), w')) /\
    (forall permlink v,
        getVideo permlink w = (Returns (Some v), w) ->
        exists v',
          getVideo permlink w' = (Returns (Some v'), w') /\
          (v' = v \/
           (VideoMetadata.status v' = VideoStatus.failed /\
            VideoMetadata.set (VideoMetadata.Status (VideoMetadata.status v))
              (VideoMetadata.set
                 (VideoMetadata.UpdatedAt (VideoMetadata.updatedAt v)) v')
            = v))).
Proof.
  intros Hc Hnd.
  destruct (processJobs_effect w Hc Hnd) as (w' & Hrun & H).
  exists w'. split; [exact Hrun|]. split; [apply H|].
  split; [apply H|]. split.
  - intros owner permlink j Hj Hstatus.
    apply getJob_inv in Hj. destruct Hj as (_ & _ & Hj). symmetry in Hj.
    rewrite getJob_connected by apply H.
    rewrite (be_other H); [now rewrite Hj|].
    intros Hin. apply in_map_iff in Hin. destruct Hin as (s & Hkey & Hin).
    apply pendingBatch_In in Hin. destruct Hin as [Hstored Hpending].
    pose proof (findOne_unique _ _ Hnd Hstored) as Hs.
    injection Hkey as Ho Hp. rewrite Ho, Hp in Hs.
    assert (s = j) by congruence. subst s.
    apply JobStatus.job_status_eqb_eq in Hpending. contradiction.
  - intros permlink v Hv.
    apply getVideo_inv in Hv. destruct Hv as (_ & _ & Hv). symmetry in Hv.
    destruct (be_video H
      (fun x =>
         x = v \/
         (VideoMetadata.status x = VideoStatus.failed /\
          VideoMetadata.set (VideoMetadata.Status (VideoMetadata.status v))
            (VideoMetadata.set
               (VideoMetadata.UpdatedAt (VideoMetadata.updatedAt v)) x)
          = v))) with (permlink := permlink) (v := v)
      as (v' & Hv' & HP).
    + intros t x [->|[_ Hx]]; right.
      * split; destruct v; reflexivity.
      * split; [destruct x; reflexivity|].
        rewrite <- Hx at 3. destruct x; reflexivity.
    + exact Hv.
    + now left.
    + exists v'. split; [|exact HP].
      rewrite getVideo_connected by apply H. now rewrite Hv'.
Qed.

(** X14. In one poll every job of the batch is attempted exactly once,
    however the other jobs of the batch fare: afterwards it is either
    [encoding] with its [attemptCount] untouched, or its [attemptCount] is
    one higher and it is [pending], or [failed] when the count had already
    reached 3. *)
Theorem processJobs_attempts_each_job w job :
  connected (database w) = true ->
  NoDup (map job_key (jobs (database w))) ->
  In job (pendingBatch 5 (jobs (database w))) ->
  exists w' j',
    processJobs config clock fetch w = (Returns tt, w') /\
    getJob (EncodingJob.owner job) (EncodingJob.permlink job) w'
    = (Returns (Some j'), w') /\
    ((EncodingJob.status j' = JobStatus.encoding /\
      EncodingJob.attemptCount j' = EncodingJob.attemptCount job) \/
     (EncodingJob.attemptCount j' = EncodingJob.attemptCount job + 1 /\
      EncodingJob.status j'
      = if (3 <=? EncodingJob.attemptCount job)%nat
        then JobStatus.failed else JobStatus.pending)).
Proof.
  intros Hc Hnd Hin.
  destruct (processJobs_effect w Hc Hnd) as (w' & Hrun & H).
  destruct (pendingBatch_In _ _ _ Hin) as [Hstored _].
  pose proof (findOne_unique _ _ Hnd Hstored) as Hs.
  destruct (be_job H job Hin Hs) as (j' & Hj' & Hcases).
  exists w', j'. split; [exact Hrun|]. split; [|exact Hcases].
  rewrite getJob_connected by apply H. now rewrite Hj'.
Qed.

(** X15. A poll that has nothing to do does nothing: on a store that is
    not connected, or that holds no [pending] job, [processJobs] returns
    normally and the process state is exactly what it was. *)
Theorem processJobs_idle w :
  connected (database w) = false \/
  (forall j,
      In j (jobs (database w)) -> EncodingJob.status j <> JobStatus.pending) ->
  processJobs config clock fetch w = (Returns tt, w).
Proof.
  intros H.
  unfold processJobs, tryCatch, getPendingJobs, bind, requireConnected, ret.
  destruct (connected (database w)) eqn:Hc; [|reflexivity].
  destruct H as [H|H]; [discriminate|].
  assert (Hnone : filter is_pending (jobs (database w)) = []).
  { induction (jobs (database w)) as [|d rest IH]; [reflexivity|].
    simpl. destruct (is_pending d) eqn:Hd.
    - apply JobStatus.job_status_eqb_eq in Hd.
      exfalso. apply (H d); [now left | exact Hd].
    - apply IH. intros j Hj. apply H. now right. }
  unfold pendingBatch. rewrite Hnone. reflexivity.
Qed.

End AnyPoll.

(** ** dispatcher/jobDispatcher.ts: fairness of the rotation *)

Lemma nth_error_rotate A (l : list A) k i :
  k < length l -> i < length l ->
  nth_error (skipn k l ++ firstn k l)%list i
  = nth_error l ((k + i) mod length l).
Proof.
  intros Hk Hi.
  destruct (Nat.lt_ge_cases (k + i) (length l)) as [Hlt|Hge].
  - rewrite Nat.mod_small by exact Hlt.
    rewrite nth_error_app1 by (rewrite length_skipn; lia).
    apply nth_error_skipn.
  - rewrite nth_error_app2 by (rewrite length_skipn; lia).
    rewrite length_skipn, nth_error_firstn.
    assert (Hin : (i - (length l - k) <? k)%nat = true)
      by (apply Nat.ltb_lt; lia).
    rewrite Hin. f_equal.
    apply Nat.mod_unique with (q := 1); lia.
Qed.

(** X16. Any [N] consecutive selections, [N] being the number of enabled
    encoders, use every enabled encoder exactly once: from cursor [c] they
    return the enabled list rotated by [c mod N], which is a permutation of
    the enabled list. *)
Theorem selection_is_a_rotation config w :
  enabledEncoders config <> [] ->
  let enabled := enabledEncoders config in
  let k := currentEncoderIndex w mod length enabled in
  exists selected w',
    selectMany config (length enabled) w = (Returns selected, w') /\
    selected = (skipn k enabled ++ firstn k enabled)%list /\
    Permutation selected enabled.
Proof.
  intros Hne enabled k.
  destruct (selectMany_spec config (length enabled) w Hne)
    as (selected & Hrun & Hlen & Hsel).
  fold enabled in Hsel, Hrun.
  assert (Hpos : 0 < length enabled).
  { subst enabled. destruct (enabledEncoders config); [congruence|simpl; lia]. }
  assert (Hk : k < length enabled) by (apply Nat.mod_upper_bound; lia).
  assert (Heq : selected = (skipn k enabled ++ firstn k enabled)%list).
  { apply nth_error_ext. intros i.
    destruct (Nat.lt_ge_cases i (length enabled)) as [Hi|Hi].
    - rewrite Hsel, nth_error_rotate by assumption.
      subst k. now rewrite Nat.Div0.add_mod_idemp_l.
    - transitivity (@None EncoderConfig).
      + apply nth_error_None. lia.
      + symmetry. apply nth_error_None.
        rewrite length_app, length_skipn, length_firstn. lia. }
  exists selected. eexists. split; [exact Hrun|]. split; [exact Heq|].
  rewrite Heq.
  rewrite Permutation_app_comm. now rewrite firstn_skipn.
Qed.

(** ** index.ts: the end of an upload *)

Section Uploads.
Variable clock : nat -> Date.
Variable pinFile : nat -> string -> Outcome string.

Lemma onUploadFinish_unfold upload owner permlink filePath :
  finishable upload owner permlink filePath ->
  onUploadFinish clock pinFile upload
  = tryCatch
      (bind (callPinFile pinFile filePath) (fun input_cid =>
       bind (markProcessing clock permlink input_cid
               (size_or_null (upload_size upload))) (fun _ =>
       bind (newDate clock) (fun created =>
       bind (newDate clock) (fun updated =>
       createJob
         (EncodingJob.mk owner permlink JobStatus.pending None None None
            0 None None created updated))))))
      (fun _ => markFailed clock permlink).
Proof.
  intros (Hp & Hpne & Ho & Hone & Hs).
  unfold onUploadFinish. rewrite Hp, Ho, Hs.
  apply String.eqb_neq in Hpne, Hone.
  unfold truthy, or_default. now rewrite Hpne, Hone.
Qed.

(** X17. When the pin succeeds on a connected store that has no job yet
    for the owner and permlink, [onUploadFinish] returns normally; the
    video, when one has the permlink, is then [processing] with the
    returned [input_cid], [encodingProgress] 0 and its size ([null] when
    the upload reports size 0), and a job is stored for the owner and
    permlink that is [pending] with [attemptCount] 0 and every optional
    field null. *)
Theorem onUploadFinish_pinned upload owner permlink filePath input_cid w :
  finishable upload owner permlink filePath ->
  pinFile (ticks w) filePath = Returns input_cid ->
  getJob owner permlink w = (Returns None, w) ->
  exists w',
    onUploadFinish clock pinFile upload w = (Returns tt, w') /\
    getJob owner permlink w'
    = (Returns
         (Some (EncodingJob.mk owner permlink JobStatus.pending None None
                  None 0 None None
                  (clock (S (S (ticks w)))) (clock (S (S (S (ticks w))))))),
       w') /\
    (forall v,
        getVideo permlink w = (Returns (Some v), w) ->
        getVideo permlink w'
        = (Returns
             (Some (VideoMetadata.mk
                      (VideoMetadata.owner v) (VideoMetadata.permlink v)
                      (VideoMetadata.frontend_app v) VideoStatus.processing
                      (Some input_cid) (VideoMetadata.manifest_cid v)
                      (VideoMetadata.thumbnail_url v) (VideoMetadata.short v)
                      (VideoMetadata.duration v)
                      (size_or_null (upload_size upload))
                      0 (VideoMetadata.originalFilename v)
                      (VideoMetadata.createdAt v) (clock (S (ticks w))))),
           w')).
Proof.
  intros Hup Hpin Hj.
  pose proof (getJob_inv _ _ _ Hj) as (Hc & _ & Hfj). symmetry in Hfj.
  rewrite (onUploadFinish_unfold Hup).
  unfold tryCatch, bind, callPinFile, tick. rewrite Hpin.
  unfold markProcessing.
  rewrite updateVideoStatus_connected by exact Hc.
  unfold newDate, createJob, bind, requireConnected, putJobs, tick.
  cbn [database connected jobs videos ticks currentEncoderIndex
       EncodingJob.owner EncodingJob.permlink].
  rewrite Hfj.
  eexists. split; [reflexivity|]. split.
  - rewrite getJob_connected by reflexivity. cbn [database jobs].
    unfold findOne in *. rewrite find_app, Hfj. simpl.
    assert (H : job_is owner permlink
                  (EncodingJob.mk owner permlink JobStatus.pending None None
                     None 0 None None
                     (clock (S (S (ticks w)))) (clock (S (S (S (ticks w))))))
                = true) by now apply job_is_key.
    now rewrite H.
  - intros v Hv. apply getVideo_inv in Hv. destruct Hv as (_ & _ & Hv).
    symmetry in Hv.
    rewrite getVideo_connected by reflexivity. cbn [database videos].
    rewrite video_patched with (v := v); [| no_key | exact Hv].
    destruct v; reflexivity.
Qed.

(** X18. When the pin fails on a connected store, [onUploadFinish] still
    returns normally: the video, when one has the permlink, is marked
    [failed] with [encodingProgress] 0 and nothing else changed but
    [updatedAt], and no job is created. An upload without permlink, owner
    or stored file is ignored altogether. *)
Theorem onUploadFinish_pin_failed upload w :
  (truthy (meta_permlink upload) = false \/
   truthy (meta_owner upload) = false \/
   storage_path upload = None ->
   onUploadFinish clock pinFile upload w = (Returns tt, w)) /\
  (forall owner permlink filePath e,
      finishable upload owner permlink filePath ->
      pinFile (ticks w) filePath = Throws e ->
      connected (database w) = true ->
      exists w',
        onUploadFinish clock pinFile upload w = (Returns tt, w') /\
        jobs (database w') = jobs (database w) /\
        forall v,
          getVideo permlink w = (Returns (Some v), w) ->
          getVideo permlink w'
          = (Returns
               (Some (VideoMetadata.mk
                        (VideoMetadata.owner v) (VideoMetadata.permlink v)
                        (VideoMetadata.frontend_app v) VideoStatus.failed
                        (VideoMetadata.input_cid v)
                        (VideoMetadata.manifest_cid v)
                        (VideoMetadata.thumbnail_url v)
                        (VideoMetadata.short v) (VideoMetadata.duration v)
                        (VideoMetadata.size v) 0
                        (VideoMetadata.originalFilename v)
                        (VideoMetadata.createdAt v) (clock (S (ticks w))))),
             w')).
Proof.
  split.
  - intros H. unfold onUploadFinish.
    destruct (truthy (meta_permlink upload)); [|reflexivity].
    destruct (truthy (meta_owner upload)); cbn [andb]; [|reflexivity].
    destruct H as [H|[H|H]]; try discriminate. now rewrite H.
  - intros owner permlink filePath e Hup Hpin Hc.
    rewrite (onUploadFinish_unfold Hup).
    unfold tryCatch, bind, callPinFile, tick. rewrite Hpin.
    unfold markFailed.
    rewrite updateVideoStatus_connected by exact Hc.
    eexists. split; [reflexivity|]. split; [reflexivity|].
    intros v Hv. apply getVideo_inv in Hv. destruct Hv as (_ & _ & Hv).
    symmetry in Hv.
    rewrite getVideo_connected by reflexivity.
    cbn [database videos ticks].
    rewrite video_patched with (v := v); [| no_key | exact Hv].
    destruct v; reflexivity.
Qed.

(** X19. When the upload is finished a second time, so that a job for the
    owner and permlink is already stored, the pin and the update of the
    video happen first and the insertion of the job is then rejected:
    [onUploadFinish] returns normally, the stored job is left as it was,
    and the video ends [failed] with [encodingProgress] 0 while carrying
    the newly pinned [input_cid]. *)
Theorem onUploadFinish_twice upload owner permlink filePath input_cid w j v :
  finishable upload owner permlink filePath ->
  pinFile (ticks w) filePath = Returns input_cid ->
  getJob owner permlink w = (Returns (Some j), w) ->
  getVideo permlink w = (Returns (Some v), w) ->
  exists w',
    onUploadFinish clock pinFile upload w = (Returns tt, w') /\
    jobs (database w') = jobs (database w) /\
    getVideo permlink w'
    = (Returns
         (Some (VideoMetadata.mk
                  (VideoMetadata.owner v) (VideoMetadata.permlink v)
                  (VideoMetadata.frontend_app v) VideoStatus.failed
                  (Some input_cid) (VideoMetadata.manifest_cid v)
                  (VideoMetadata.thumbnail_url v) (VideoMetadata.short v)
                  (VideoMetadata.duration v)
                  (size_or_null (upload_size upload)) 0
                  (VideoMetadata.originalFilename v)
                  (VideoMetadata.createdAt v)
                  (clock (S (S (S (S (ticks w)))))))),
       w').
Proof.
  intros Hup Hpin Hj Hv.
  pose proof (getJob_inv _ _ _ Hj) as (Hc & _ & Hfj). symmetry in Hfj.
  apply getVideo_inv in Hv. destruct Hv as (_ & _ & Hv). symmetry in Hv.
  rewrite (onUploadFinish_unfold Hup).
  unfold tryCatch, bind, callPinFile, tick. rewrite Hpin.
  unfold markProcessing.
  rewrite updateVideoStatus_connected by exact Hc.
  unfold newDate, createJob, bind, requireConnected, throw, tick.
  cbn [database connected jobs videos ticks currentEncoderIndex
       EncodingJob.owner EncodingJob.permlink].
  rewrite Hfj.
  unfold markFailed.
  rewrite updateVideoStatus_connected by reflexivity.
  eexists. split; [reflexivity|]. split; [reflexivity|].
  rewrite getVideo_connected by reflexivity.
  cbn [database videos ticks].
  rewrite video_patched
    with (v := VideoMetadata.patch
                 [VideoMetadata.Status VideoStatus.processing;
                  VideoMetadata.UpdatedAt (clock (S (ticks w)));
                  VideoMetadata.Size (size_or_null (upload_size upload));
                  VideoMetadata.Input_cid (Some input_cid);
                  VideoMetadata.EncodingProgress 0] v).
  - destruct v; reflexivity.
  - no_key.
  - apply video_patched; [no_key | exact Hv].
Qed.

End Uploads.

(** ** middleware: the credential a request carries *)

Lemma replace_first_bearer token :
  replace_first "Bearer " "" ("Bearer " ++ token) = token.
Proof.
  simpl. destruct token; reflexivity.
Qed.

Lemma bearer_nonempty authorization value :
  bearer authorization = credential value -> value <> "".
Proof.
  unfold bearer. destruct authorization as [a|]; [|discriminate].
  destruct (String.eqb_spec (replace_first "Bearer " "" a) "") as [|Hne];
    [discriminate|].
  now intros [= <-].
Qed.

Lemma credential_nonempty header authorization value :
  credential_of header authorization = credential value -> value <> "".
Proof.
  unfold credential_of. destruct header as [|v|vs].
  - apply bearer_nonempty.
  - destruct (String.eqb_spec v "") as [|Hne];
      [apply bearer_nonempty | now intros [= <-]].
  - discriminate.
Qed.

(** X20. The admin gate lets a request through exactly when the
    credential it carries is the configured admin password. The
    credential is the [X-Admin-Password] header when that is a non-empty
    string, whatever [Authorization] says, and otherwise [Authorization]
    with its first "Bearer " removed; it is never the empty string, so an
    empty configured password lets nobody in. *)
Theorem requireAdminAuth_grants adminPassword x_admin_password authorization :
  (requireAdminAuth adminPassword x_admin_password authorization = next tt
   <-> credential_of x_admin_password authorization
       = credential adminPassword) /\
  (forall password,
      password <> "" ->
      credential_of (single password) authorization = credential password) /\
  (forall token,
      token <> "" ->
      credential_of absent (Some ("Bearer " ++ token)) = credential token /\
      credential_of (single "") (Some ("Bearer " ++ token))
      = credential token) /\
  (adminPassword = "" ->
   requireAdminAuth adminPassword x_admin_password authorization
   <> next tt).
Proof.
  assert (Hiff : requireAdminAuth adminPassword x_admin_password authorization
                 = next tt
                 <-> credential_of x_admin_password authorization
                     = credential adminPassword).
  { unfold requireAdminAuth.
    destruct (credential_of x_admin_password authorization) as [|password|];
      try (split; discriminate).
    destruct (String.eqb_spec password adminPassword) as [->|Hne]; simpl.
    - split; reflexivity.
    - split; [discriminate | intros [= ->]; contradiction]. }
  split; [exact Hiff|]. split; [|split].
  - intros password Hne. simpl.
    apply String.eqb_neq in Hne. now rewrite Hne.
  - intros token Hne. apply String.eqb_neq in Hne.
    unfold credential_of, bearer. rewrite replace_first_bearer.
    cbn [String.eqb]. now rewrite Hne.
  - intros -> Hgrant. apply Hiff in Hgrant.
    now apply credential_nonempty in Hgrant.
Qed.

(** ** middleware/auth.ts and the routes it protects *)

Section KeyGate.
Variable clock : nat -> Date.

Lemma requireDb_connected s :
  connected (database (world s)) = true -> requireDb s = (Returns tt, s).
Proof.
  intros Hc. unfold requireDb, bindK, liftW, requireConnected, retK.
  rewrite Hc. now destruct s.
Qed.

Lemma requireDb_disconnected s :
  connected (database (world s)) = false ->
  requireDb s = (Throws "Database not connected", s).
Proof.
  intros Hc. unfold requireDb, bindK, liftW, requireConnected.
  rewrite Hc. now destruct s.
Qed.

Lemma getApiKey_connected key s :
  connected (database (world s)) = true ->
  getApiKey key s = (Returns (findOne (key_is key) (apiKeys s)), s).
Proof.
  intros Hc. unfold getApiKey, bindK. now rewrite requireDb_connected.
Qed.

Lemma getApiKey_inv key s r s' :
  getApiKey key s = (Returns r, s') ->
  connected (database (world s)) = true /\ s' = s /\
  r = findOne (key_is key) (apiKeys s).
Proof.
  destruct (connected (database (world s))) eqn:Hc.
  - rewrite getApiKey_connected by exact Hc. now intros [= <- <-].
  - unfold getApiKey, bindK. rewrite requireDb_disconnected by exact Hc.
    discriminate.
Qed.

Lemma updateApiKeyLastUsed_connected key s :
  connected (database (world s)) = true ->
  updateApiKeyLastUsed clock key s
  = (Returns tt,
     mkServer (tick (world s))
       (updateOne (key_is key)
          (ApiKey.set_lastUsed (clock (ticks (world s)))) (apiKeys s))).
Proof.
  intros Hc. unfold updateApiKeyLastUsed, bindK.
  rewrite requireDb_connected by exact Hc.
  reflexivity.
Qed.

Lemma requireApiKey_inactive x_api_key authorization key keyData s :
  credential_of x_api_key authorization = credential key ->
  getApiKey key s = (Returns (Some keyData), s) ->
  ApiKey.active keyData = false ->
  exists response,
    requireApiKey clock x_api_key authorization s
    = (Returns (refused response), s) /\
    statusCode response = 403.
Proof.
  intros Hcred Hk Hactive.
  unfold requireApiKey, tryCatchK. rewrite Hcred.
  cbn [findCredential]. unfold bindK. rewrite Hk, Hactive.
  eexists. split; reflexivity.
Qed.

Lemma requireApiKey_active x_api_key authorization key keyData s :
  credential_of x_api_key authorization = credential key ->
  getApiKey key s = (Returns (Some keyData), s) ->
  ApiKey.active keyData = true ->
  requireApiKey clock x_api_key authorization s
  = (Returns (next keyData),
     mkServer (tick (world s))
       (updateOne (key_is key)
          (ApiKey.set_lastUsed (clock (ticks (world s)))) (apiKeys s))).
Proof.
  intros Hcred Hk Hactive.
  unfold requireApiKey, tryCatchK. rewrite Hcred.
  cbn [findCredential touchLastUsed]. unfold bindK.
  rewrite Hk, Hactive. cbn [negb].
  apply getApiKey_inv in Hk. destruct Hk as (Hc & _ & _).
  unfold tryCatchK.
  now rewrite updateApiKeyLastUsed_connected by exact Hc.
Qed.

(** X21. What the API-key gate answers. Without a credential: 401. With
    one, on a connected store: 401 when no stored key equals it, 403 when
    the stored key is not active, and otherwise the request goes on with
    the stored key attached and only that key's [lastUsed] is set to the
    time just read. On a store that is not connected a request with a
    credential is answered 500. Every refusal leaves the state as it
    was. *)
Theorem requireApiKey_decides x_api_key authorization s :
  (credential_of x_api_key authorization = no_credential ->
   exists response,
     requireApiKey clock x_api_key authorization s
     = (Returns (refused response), s) /\
     statusCode response = 401) /\
  (forall key,
      credential_of x_api_key authorization = credential key ->
      (getApiKey key s = (Returns None, s) ->
       exists response,
         requireApiKey clock x_api_key authorization s
         = (Returns (refused response), s) /\
         statusCode response = 401) /\
      (forall keyData,
          getApiKey key s = (Returns (Some keyData), s) ->
          ApiKey.active keyData = false ->
          exists response,
            requireApiKey clock x_api_key authorization s
            = (Returns (refused response), s) /\
            statusCode response = 403) /\
      (forall keyData,
          getApiKey key s = (Returns (Some keyData), s) ->
          ApiKey.active keyData = true ->
          requireApiKey clock x_api_key authorization s
          = (Returns (next keyData),
             mkServer (tick (world s))
               (updateOne (key_is key)
                  (ApiKey.set_lastUsed (clock (ticks (world s))))
                  (apiKeys s))))) /\
  (credential_of x_api_key authorization <> no_credential ->
   connected (database (world s)) = false ->
   exists response,
     requireApiKey clock x_api_key authorization s
     = (Returns (refused response), s) /\
     statusCode response = 500).
Proof.
  unfold requireApiKey, tryCatchK.
  split; [|split].
  - intros ->. eexists. split; reflexivity.
  - intros key ->. cbn [findCredential touchLastUsed]. unfold bindK.
    split; [|split].
    + intros Hk. rewrite Hk. eexists. split; reflexivity.
    + intros keyData Hk Hactive. rewrite Hk, Hactive.
      eexists. split; reflexivity.
    + intros keyData Hk Hactive. rewrite Hk, Hactive. cbn [negb].
      apply getApiKey_inv in Hk. destruct Hk as (Hc & _ & _).
      unfold tryCatchK.
      now rewrite updateApiKeyLastUsed_connected by exact Hc.
  - intros Hsome Hc.
    destruct (credential_of x_api_key authorization) as [|key|];
      [contradiction| |]; cbn [findCredential]; unfold bindK, getApiKey.
    + unfold bindK. rewrite requireDb_disconnected by exact Hc.
      eexists. split; reflexivity.
    + rewrite requireDb_disconnected by exact Hc.
      eexists. split; reflexivity.
Qed.

(** The gate changes nothing and lets nothing through unless a stored
    active key matches. *)
Lemma requireApiKey_refuses x_api_key authorization s :
  (forall key keyData,
      credential_of x_api_key authorization = credential key ->
      findOne (key_is key) (apiKeys s) = Some keyData ->
      ApiKey.active keyData = false) ->
  exists response,
    requireApiKey clock x_api_key authorization s
    = (Returns (refused response), s) /\
    statusCode response <> 200.
Proof.
  intros Hinactive.
  unfold requireApiKey, tryCatchK.
  destruct (credential_of x_api_key authorization) as [|key|] eqn:Hcred.
  - eexists. split; [reflexivity|]. simpl. lia.
  - cbn [findCredential]. unfold bindK.
    destruct (connected (database (world s))) eqn:Hc.
    + rewrite getApiKey_connected by exact Hc.
      destruct (findOne (key_is key) (apiKeys s)) as [keyData|] eqn:Hfind.
      * rewrite (Hinactive key keyData eq_refl Hfind). cbn [negb].
        eexists. split; [reflexivity|]. simpl. lia.
      * eexists. split; [reflexivity|]. simpl. lia.
    + unfold getApiKey, bindK. rewrite requireDb_disconnected by exact Hc.
      eexists. split; [reflexivity|]. simpl. lia.
  - cbn [findCredential]. unfold bindK.
    destruct (connected (database (world s))) eqn:Hc.
    + rewrite requireDb_connected by exact Hc.
      eexists. split; [reflexivity|]. simpl. lia.
    + rewrite requireDb_disconnected by exact Hc.
      eexists. split; [reflexivity|]. simpl. lia.
Qed.

(** X22. The thumbnail route is closed without an active key: when no
    stored active key matches the credential of the request, the route
    answers with a status other than 200 and neither a video nor a job nor
    a key changes; with a stored active key the answer is the one of the
    thumbnail handler, run after the key's [lastUsed] was set. *)
Theorem postThumbnail_needs_active_key x_api_key authorization permlink
  thumbnail_url s :
  ((forall key keyData,
       credential_of x_api_key authorization = credential key ->
       findOne (key_is key) (apiKeys s) = Some keyData ->
       ApiKey.active keyData = false) ->
   exists response,
     postThumbnail clock x_api_key authorization permlink thumbnail_url s
     = (Returns response, s) /\
     statusCode response <> 200) /\
  (forall key keyData,
      credential_of x_api_key authorization = credential key ->
      getApiKey key s = (Returns (Some keyData), s) ->
      ApiKey.active keyData = true ->
      postThumbnail clock x_api_key authorization permlink thumbnail_url s
      = (fst (setThumbnail clock permlink thumbnail_url (tick (world s))),
         mkServer
           (snd (setThumbnail clock permlink thumbnail_url (tick (world s))))
           (updateOne (key_is key)
              (ApiKey.set_lastUsed (clock (ticks (world s)))) (apiKeys s)))).
Proof.
  split.
  - intros Hinactive.
    destruct (requireApiKey_refuses x_api_key authorization s Hinactive)
      as (response & Hrun & Hcode).
    exists response. split; [|exact Hcode].
    unfold postThumbnail, bindK. now rewrite Hrun.
  - intros key keyData Hcred Hk Hactive.
    unfold postThumbnail, bindK.
    rewrite (requireApiKey_active _ _ Hcred Hk Hactive).
    unfold liftW. cbn [world apiKeys].
    now destruct (setThumbnail clock permlink thumbnail_url (tick (world s))).
Qed.

(** X23. Revoking works: once the admin route has set a stored key to
    inactive (answering 200 and touching no video or job), the gate
    answers 403 to that key; once it has set it to active, the gate lets
    the key through. A key that is not stored is answered 404, a body
    whose [active] is not a boolean 400, and neither changes anything. *)
Theorem patchApiKey_then_gate key active authorization s stored :
  key <> "" ->
  getApiKey key s = (Returns (Some stored), s) ->
  exists response s1,
    patchApiKey key (Some active) s = (Returns response, s1) /\
    statusCode response = 200 /\
    world s1 = world s /\
    getApiKey key s1
    = (Returns (Some (ApiKey.set_active active stored)), s1) /\
    (active = false ->
     exists refusal,
       requireApiKey clock (single key) authorization s1
       = (Returns (refused refusal), s1) /\
       statusCode refusal = 403) /\
    (active = true ->
     exists s2,
       requireApiKey clock (single key) authorization s1
       = (Returns (next (ApiKey.set_active true stored)), s2)) /\
    (forall other,
        getApiKey other s = (Returns None, s) ->
        patchApiKey other (Some active) s
        = (Returns (mkResponse 404 [("error", JString "API key not found")]),
           s)) /\
    patchApiKey key None s
    = (Returns
         (mkResponse 400 [("error", JString "active must be a boolean")]),
       s).
Proof.
  intros Hne Hk.
  pose proof (getApiKey_inv _ _ Hk) as (Hc & _ & Hfind). symmetry in Hfind.
  assert (Hrun : patchApiKey key (Some active) s
                 = (Returns
                      (mkResponse 200
                         [("success", JBool true); ("key", JString key);
                          ("active", JBool active)]),
                    mkServer (world s)
                      (updateOne (key_is key) (ApiKey.set_active active)
                         (apiKeys s)))).
  { unfold patchApiKey, tryCatchK, bindK. rewrite Hk.
    unfold updateApiKeyStatus, bindK.
    now rewrite requireDb_connected by exact Hc. }
  set (s1 := mkServer (world s)
               (updateOne (key_is key) (ApiKey.set_active active)
                  (apiKeys s))) in *.
  assert (Hfind1 : findOne (key_is key) (apiKeys s1)
                   = Some (ApiKey.set_active active stored)).
  { subst s1. cbn [apiKeys].
    apply findOne_updateOne_same; [exact Hfind|].
    apply (find_some _ _ Hfind). }
  assert (Hk1 : getApiKey key s1
                = (Returns (Some (ApiKey.set_active active stored)), s1)).
  { rewrite getApiKey_connected by exact Hc. now rewrite Hfind1. }
  assert (Hcred : credential_of (single key) authorization = credential key).
  { simpl. apply String.eqb_neq in Hne. now rewrite Hne. }
  eexists. exists s1. split; [exact Hrun|]. split; [reflexivity|].
  split; [reflexivity|]. split; [exact Hk1|].
  split; [|split; [|split]].
  - intros ->.
    now apply (requireApiKey_inactive _ _ Hcred Hk1).
  - intros ->.
    eexists. now apply (requireApiKey_active _ _ Hcred Hk1).
  - intros other Hnone.
    unfold patchApiKey, tryCatchK, bindK. now rewrite Hnone.
  - reflexivity.
Qed.

End KeyGate.

(** ** utils/keyGenerator.ts and the admin route that creates keys *)





Section KeyCreation.
Variable clock : nat -> Date.
Variable randomHex : nat -> string.


End KeyCreation.

(** ** index.ts: the start of an upload *)

Section UploadCreation.
Variable clock : nat -> Date.
Variable videoId : nat -> string.
Variable baseUrl : string.

(** X26. With a stored active key on a connected store, [onUploadCreate]
    lets the upload go on: the key's [lastUsed] is set, a permlink is
    generated, and a video is stored under it with status [uploading],
    [encodingProgress] 0 and no [input_cid], [manifest_cid] or thumbnail;
    its owner is the [owner] of the upload metadata, else its [username],
    else "unknown". When the permlink was free, [getVideo] returns this
    video; the embed URL handed back is
    [baseUrl?v=owner/permlink]. No job is created. *)
Theorem onUploadCreate_creates x_api_key authorization upload s key keyData :
  credential_of x_api_key authorization = credential key ->
  getApiKey key s = (Returns (Some keyData), s) ->
  ApiKey.active keyData = true ->
  let t := ticks (world s) in
  let permlink := videoId (S t) in
  let owner :=
    match new_owner upload with
    | Some "" | None =>
        match new_username upload with
        | Some "" | None => "unknown"
        | Some username => username
        end
    | Some owner => owner
    end in
  exists s',
    onUploadCreate clock videoId baseUrl x_api_key authorization upload s
    = (Returns
         (created permlink owner (baseUrl ++ "?v=" ++ owner ++ "/" ++ permlink)),
       s') /\
    apiKeys s'
    = updateOne (key_is key) (ApiKey.set_lastUsed (clock t)) (apiKeys s) /\
    jobs (database (world s')) = jobs (database (world s)) /\
    (getVideo permlink (world s) = (Returns None, world s) ->
     getVideo permlink (world s')
     = (Returns
          (Some (VideoMetadata.mk owner permlink
                   (or_default (new_frontend_app upload) "unknown")
                   VideoStatus.uploading None None None
                   (is_true (new_short upload)) None
                   (size_or_null (new_size upload)) 0
                   (or_null (new_filename upload))
                   (clock (S (S t))) (clock (S (S (S t)))))),
        world s')).
Proof.
  intros Hcred Hk Hactive t permlink owner.
  pose proof (getApiKey_inv _ _ Hk) as (Hc & _ & _).
  assert (Howner : or_default (new_owner upload)
                     (or_default (new_username upload) "unknown") = owner).
  { subst owner. unfold or_default.
    destruct (new_owner upload) as [[|c o]|];
      destruct (new_username upload) as [[|c' u]|]; reflexivity. }
  unfold onUploadCreate, tryCatchK. rewrite Hcred.
  cbn [findCredential touchLastUsed]. unfold bindK.
  rewrite Hk, Hactive. unfold tryCatchK.
  rewrite updateApiKeyLastUsed_connected by exact Hc.
  unfold liftW, newDate, tick. cbn [world apiKeys ticks database
                                       currentEncoderIndex].
  unfold createVideoEntry, bind, requireConnected, putVideos.
  cbn [database connected videos jobs ticks currentEncoderIndex].
  rewrite Hc. cbn [world apiKeys retK].
  rewrite Howner.
  eexists. split; [reflexivity|]. split; [reflexivity|].
  split; [reflexivity|].
  intros Hfree. apply getVideo_inv in Hfree.
  destruct Hfree as (_ & _ & Hfree). symmetry in Hfree.
  cbn [world]. rewrite getVideo_connected by exact Hc.
  cbn [database videos]. unfold findOne in *.
  rewrite find_app, Hfree. subst permlink t.
  cbn [find]. unfold video_is. cbn [VideoMetadata.permlink].
  now rewrite String.eqb_refl.
Qed.

(** X27. Without a stored active key no upload starts: when no stored
    active key matches the credential of the request, [onUploadCreate]
    answers with an error and no video, job or key changes; on a connected
    store the error is 401, also for a key that is stored but inactive. *)
Theorem onUploadCreate_denies x_api_key authorization upload s :
  (forall key keyData,
      credential_of x_api_key authorization = credential key ->
      findOne (key_is key) (apiKeys s) = Some keyData ->
      ApiKey.active keyData = false) ->
  exists response,
    onUploadCreate clock videoId baseUrl x_api_key authorization upload s
    = (Returns (denied response), s) /\
    (connected (database (world s)) = true -> statusCode response = 401) /\
    (connected (database (world s)) = false ->
     statusCode response = 401 \/ statusCode response = 500).
Proof.
  intros Hinactive.
  unfold onUploadCreate, tryCatchK.
  destruct (credential_of x_api_key authorization) as [|key|] eqn:Hcred.
  - eexists. split; [reflexivity|]. split; [reflexivity|]. now left.
  - cbn [findCredential]. unfold bindK.
    destruct (connected (database (world s))) eqn:Hc.
    + rewrite getApiKey_connected by exact Hc.
      destruct (findOne (key_is key) (apiKeys s)) as [keyData|] eqn:Hfind.
      * rewrite (Hinactive key keyData eq_refl Hfind).
        eexists. split; [reflexivity|]. split; [reflexivity|discriminate].
      * eexists. split; [reflexivity|]. split; [reflexivity|discriminate].
    + unfold getApiKey, bindK. rewrite requireDb_disconnected by exact Hc.
      eexists. split; [reflexivity|]. split; [discriminate|]. now right.
  - cbn [findCredential]. unfold bindK.
    destruct (connected (database (world s))) eqn:Hc.
    + rewrite requireDb_connected by exact Hc.
      eexists. split; [reflexivity|]. split; [reflexivity|discriminate].
    + rewrite requireDb_disconnected by exact Hc.
      eexists. split; [reflexivity|]. split; [discriminate|]. now right.
Qed.

End UploadCreation.

(** ** dispatcher/jobDispatcher.ts: starting and stopping the poll loop *)

Lemma live_app asked1 : forall asked2 running,
  live (asked1 ++ asked2) running = live asked2 (live asked1 running).
Proof.
  induction asked1 as [|call rest IH]; intros asked2 running; simpl;
    [reflexivity|].
  destruct call; apply IH.
Qed.

Lemma drive_in_step calls : forall fresh p running,
  in_step p running ->
  in_step (fst (drive calls fresh p)) (live (snd (drive calls fresh p)) running).
Proof.
  induction calls as [|call rest IH]; intros fresh p running Hstep;
    [exact Hstep|].
  destruct call as [seconds|]; simpl.
  - destruct (start seconds fresh p) as [p1 asked1] eqn:Hstart.
    specialize (IH (S fresh) p1 (live asked1 running)).
    destruct (drive rest (S fresh) p1) as [p2 asked2].
    simpl in *. rewrite live_app. apply IH.
    unfold start in Hstart. destruct Hstep as [Hrun Hiff].
    destruct (isRunning p) eqn:Hr.
    + injection Hstart as <- <-. simpl.
      split; [exact Hrun | rewrite Hr; exact Hiff].
    + injection Hstart as <- <-. simpl.
      assert (Hnone : intervalId p = None).
      { destruct (intervalId p) as [h|]; [|reflexivity].
        assert (false = true) by (apply Hiff; discriminate). discriminate. }
      rewrite Hnone in Hrun. subst running.
      split; [reflexivity|]. split; [discriminate|reflexivity].
  - destruct (stop p) as [p1 asked1] eqn:Hstop.
    specialize (IH fresh p1 (live asked1 running)).
    destruct (drive rest fresh p1) as [p2 asked2].
    simpl in *. rewrite live_app. apply IH.
    unfold stop in Hstop. destruct Hstep as [Hrun Hiff].
    destruct (intervalId p) as [h|] eqn:Hid.
    + injection Hstop as <- <-. subst running. simpl.
      rewrite Nat.eqb_refl. simpl.
      split; [reflexivity|]. split; [discriminate|]. intros H. now elim H.
    + injection Hstop as <- <-. simpl.
      split; [now rewrite Hid | now rewrite Hid in *].
Qed.

(** X28. However [start] and [stop] are called on a new dispatcher, at
    most one polling interval is ever running: after any sequence of
    calls, the intervals set and not cleared are exactly the one recorded
    in [intervalId], or none when the dispatcher is stopped, and
    [isRunning] is true exactly when there is one; so a [start] on a
    running dispatcher sets no second interval. After a [stop] no interval
    is left running. *)
Theorem poller_runs_at_most_one_interval calls fresh :
  let p := fst (drive calls fresh (mkPoller None false)) in
  let asked := snd (drive calls fresh (mkPoller None false)) in
  live asked [] = match intervalId p with
                  | Some handle => [handle]
                  | None => []
                  end /\
  length (live asked []) <= 1 /\
  (isRunning p = true <-> intervalId p <> None) /\
  live (snd (drive (calls ++ [Stop]) fresh (mkPoller None false))) [] = [].
Proof.
  assert (Hany : forall cs,
            in_step (fst (drive cs fresh (mkPoller None false)))
              (live (snd (drive cs fresh (mkPoller None false))) [])).
  { intros cs. apply drive_in_step. split; [reflexivity|].
    simpl. split; [discriminate|congruence]. }
  assert (Hstopped : forall cs fr p,
            intervalId (fst (drive (cs ++ [Stop]) fr p)) = None).
  { induction cs as [|c rest IH]; intros fr p.
    - simpl. unfold stop. destruct (intervalId p) eqn:Hid; simpl; auto.
    - destruct c as [seconds|]; simpl.
      + destruct (start seconds fr p) as [p1 asked1].
        specialize (IH (S fr) p1).
        destruct (drive (rest ++ [Stop]) (S fr) p1). exact IH.
      + destruct (stop p) as [p1 asked1].
        specialize (IH fr p1).
        destruct (drive (rest ++ [Stop]) fr p1). exact IH. }
  destruct (Hany calls) as [Hlive Hiff].
  split; [exact Hlive|]. split; [|split; [exact Hiff|]].
  - rewrite Hlive. destruct (intervalId _); simpl; lia.
  - destruct (Hany (calls ++ [Stop])%list) as [Hlive' _].
    rewrite Hlive'. now rewrite Hstopped.
Qed.

(** ** config/config.ts: the encoders a configuration is loaded with *)

Lemma filter_id_of_filter A (f : A -> bool) (l : list A) :
  filter f (filter f l) = filter f l.
Proof.
  induction l as [|x rest IH]; simpl; [reflexivity|].
  destruct (f x) eqn:Hx; simpl; [now rewrite Hx, IH | exact IH].
Qed.

(** X29. Every encoder that [parseEncoders] returns is enabled, so on a
    loaded configuration the dispatcher's filter removes nothing and the
    rotation runs over [config.encoders] as it is. The legacy single
    encoder, named "default", is used exactly when [ENCODERS] gave no
    enabled encoder (unset, not parseable, or all disabled) and both
    legacy variables are set; it is never added to a list that has an
    enabled encoder. *)
Theorem parseEncoders_all_enabled parse env webhookApiKey' webhookUrl' :
  let loaded := parseEncoders parse env in
  enabledEncoders (mkConfig loaded webhookApiKey' webhookUrl') = loaded /\
  (forall parsed,
      truthy (ENCODERS env) = true ->
      parse (or_default (ENCODERS env) "") = Returns parsed ->
      filter enabled parsed <> [] ->
      loaded = filter enabled parsed) /\
  ((truthy (ENCODERS env) = false \/
    (exists e, parse (or_default (ENCODERS env) "") = Throws e) \/
    (exists parsed,
        parse (or_default (ENCODERS env) "") = Returns parsed /\
        filter enabled parsed = [])) ->
   loaded
   = if truthy (ENCODER_API_URL env) && truthy (ENCODER_API_KEY env)
     then [mkEncoder "default" (or_default (ENCODER_API_URL env) "")
             (or_default (ENCODER_API_KEY env) "") true]
     else []).
Proof.
  intros loaded. subst loaded. unfold parseEncoders, enabledEncoders.
  cbn [encoders].
  split; [|split].
  - destruct (truthy (ENCODERS env)).
    + destruct (parse _) as [parsed|e].
      * destruct (filter enabled parsed) as [|x rest] eqn:Hf.
        -- cbn [length Nat.eqb andb app].
           destruct (truthy (ENCODER_API_URL env) && truthy (ENCODER_API_KEY env));
             reflexivity.
        -- cbn [length Nat.eqb andb]. rewrite <- Hf.
           apply filter_id_of_filter.
      * cbn [length Nat.eqb andb app].
        destruct (truthy (ENCODER_API_URL env) && truthy (ENCODER_API_KEY env));
          reflexivity.
    + cbn [length Nat.eqb andb app].
      destruct (truthy (ENCODER_API_URL env) && truthy (ENCODER_API_KEY env));
        reflexivity.
  - intros parsed Ht Hp Hne. rewrite Ht, Hp.
    destruct (filter enabled parsed); [congruence|reflexivity].
  - intros [Ht|[[e He]|[parsed [Hp Hnil]]]].
    + rewrite Ht. cbn [length Nat.eqb andb app].
      now destruct (truthy (ENCODER_API_URL env) && truthy (ENCODER_API_KEY env)).
    + rewrite He. destruct (truthy (ENCODERS env));
        cbn [length Nat.eqb andb app];
        now destruct (truthy (ENCODER_API_URL env) && truthy (ENCODER_API_KEY env)).
    + rewrite Hp, Hnil. destruct (truthy (ENCODERS env));
        cbn [length Nat.eqb andb app];
        now destruct (truthy (ENCODER_API_URL env) && truthy (ENCODER_API_KEY env)).
Qed.

(** ** utils/ipfs.ts: pinning with a fallback *)

(** X30. [pinFile] fails only when both endpoints fail. It returns the
    identifier of the local daemon whenever the local daemon answers,
    without regard to the supernode; it returns the supernode's identifier
    exactly when the local daemon failed and the supernode answers; and
    when both fail its message is "Failed to pin file to IPFS: " followed
    by the supernode's error, the local error being dropped. *)
Theorem pinFile_via_fallback addToIpfs supernode filePath :
  let local := addToIpfs 0 "http://127.0.0.1:5001" filePath in
  let remote := addToIpfs 1 supernode filePath in
  (forall cid,
      pinFile_via addToIpfs supernode filePath = Returns cid <->
      local = Returns cid \/
      ((exists e, local = Throws e) /\ remote = Returns cid)) /\
  (forall msg,
      pinFile_via addToIpfs supernode filePath = Throws msg <->
      (exists e, local = Throws e) /\
      exists e', remote = Throws e' /\
                 msg = "Failed to pin file to IPFS: Error: " ++ e').
Proof.
  intros local remote. unfold pinFile_via. fold local. fold remote.
  split.
  - intros cid. destruct local as [c|e].
    + split.
      * intros [= ->]. now left.
      * intros [[= ->]|[[e He] _]]; [reflexivity|discriminate].
    + destruct remote as [c|e'].
      * split.
        -- intros [= ->]. right. split; [now exists e|reflexivity].
        -- intros [H|[_ [= ->]]]; [discriminate|reflexivity].
      * split; [discriminate|].
        intros [H|[_ H]]; discriminate.
  - intros msg. destruct local as [c|e].
    + split; [discriminate|]. intros [[e He] _]. discriminate.
    + destruct remote as [c|e'].
      * split; [discriminate|]. intros [_ (e' & He' & _)]. discriminate.
      * split.
        -- intros [= <-]. split; [now exists e|].
           exists e'. split; reflexivity.
        -- intros [_ (e'' & [= <-] & ->)]. reflexivity.
Qed.

(** ** The further properties at the sample data *)


Lemma createJob_then_getJob_witness :
  exists w',
    createJob (queued_job "dave" "dd44dd44" JobStatus.pending 40) busy_world
    = (Returns tt, w') /\
    jobStatusOf "dave" "dd44dd44" w' = Some JobStatus.pending.
Proof.
  destruct (@createJob_then_getJob
              (queued_job "dave" "dd44dd44" JobStatus.pending 40) busy_world
              eq_refl)
    as (Hfresh & _).
  destruct (Hfresh eq_refl) as (w' & Hrun & Hfound & _).
  exists w'. split; [exact Hrun|].
  apply getJob_inv in Hfound. destruct Hfound as (_ & _ & Hfound).
  unfold jobStatusOf. simpl in Hfound. now rewrite <- Hfound.
Defined.

Lemma createVideoEntry_then_getVideo_witness :
  exists w',
    createVideoEntry (sample_video VideoStatus.uploading) busy_world
    = (Returns tt, w') /\
    videoStatusOf "ab12cd34" w' = Some VideoStatus.processing.
Proof.
  destruct (@createVideoEntry_then_getVideo
              (sample_video VideoStatus.uploading) busy_world eq_refl)
    as (w' & Hrun & _ & Hold & _).
  exists w'. split; [exact Hrun|].
  specialize (Hold (sample_video VideoStatus.processing) eq_refl).
  apply getVideo_inv in Hold. destruct Hold as (_ & _ & Hold).
  unfold videoStatusOf. simpl in Hold. now rewrite <- Hold.
Defined.

Lemma webhook_failed_report_witness :
  exists w',
    snd (webhook sample_config sample_clock (single "secret") failed_report
           (sample_world VideoStatus.processing 0)) = w' /\
    videoStatusOf "ab12cd34" w' = Some VideoStatus.failed /\
    jobStatusOf "alice" "ab12cd34" w' = Some JobStatus.failed.
Proof.
  destruct (@webhook_failed_report sample_config sample_clock failed_report
              (sample_world VideoStatus.processing 0)
              (sample_video VideoStatus.processing) (sample_job 0))
    as (w' & Hrun & Hvideo & Hjob); [reflexivity | reflexivity | reflexivity |].
  exists w'. change (webhookApiKey sample_config) with "secret" in Hrun.
  rewrite Hrun. split; [reflexivity|]. split.
  - apply getVideo_inv in Hvideo. destruct Hvideo as (_ & _ & Hvideo).
    unfold videoStatusOf. simpl in Hvideo. now rewrite <- Hvideo.
  - apply getJob_inv in Hjob. destruct Hjob as (_ & _ & Hjob).
    unfold jobStatusOf. simpl in Hjob. now rewrite <- Hjob.
Defined.


Lemma webhook_last_report_wins_witness :
  exists w1 w2,
    snd (webhook sample_config sample_clock (single "secret") sample_report
           (sample_world VideoStatus.processing 0)) = w1 /\
    snd (webhook sample_config sample_clock (single "secret") failed_report
           w1) = w2 /\
    videoStatusOf "ab12cd34" w1 = Some VideoStatus.published /\
    jobStatusOf "alice" "ab12cd34" w2 = Some JobStatus.failed.
Proof.
  destruct (@webhook_last_report_wins sample_config sample_clock
              sample_report failed_report
              (sample_world VideoStatus.processing 0)
              (sample_video VideoStatus.processing) (sample_job 0))
    as (r1 & w1 & r2 & w2 & Hrun1 & Hv1 & _ & Hrun2 & _ & _ & Hj2);
    try reflexivity.
  exists w1, w2. change (webhookApiKey sample_config) with "secret" in *.
  rewrite Hrun1, Hrun2. auto.
Defined.

Lemma webhook_replay_witness :
  exists w1 w2,
    snd (webhook sample_config sample_clock (single "secret") sample_report
           (sample_world VideoStatus.processing 0)) = w1 /\
    snd (webhook sample_config sample_clock (single "secret") sample_report
           w1) = w2 /\
    jobs (database w2) <> [].
Proof.
  destruct (@webhook_replay sample_config sample_clock sample_report
              (sample_world VideoStatus.processing 0)
              (sample_video VideoStatus.processing) (sample_job 0))
    as (r & w1 & w2 & v1 & j1 & Hrun1 & _ & _ & Hrun2 & _ & _ & Hj2);
    try reflexivity.
  exists w1, w2. change (webhookApiKey sample_config) with "secret" in *.
  rewrite Hrun1, Hrun2. split; [reflexivity|]. split; [reflexivity|].
  apply getJob_inv in Hj2. destruct Hj2 as (_ & _ & Hj2).
  intros Hnil. rewrite Hnil in Hj2. discriminate Hj2.
Defined.

Lemma webhook_unknown_upload_witness :
  exists response w',
    webhook sample_config sample_clock (single "secret")
      (mkWebhookBody "zoe" "zz99zz99" "complete" (Some "Qm456") None)
      (sample_world VideoStatus.processing 0) = (Returns response, w') /\
    statusCode response = 200 /\
    database w' = database (sample_world VideoStatus.processing 0).
Proof.
  apply (@webhook_unknown_upload sample_config sample_clock
           (mkWebhookBody "zoe" "zz99zz99" "complete" (Some "Qm456") None)
           (sample_world VideoStatus.processing 0));
    [now left | reflexivity | reflexivity].
Defined.

Lemma setThumbnail_refusals_witness :
  setThumbnail sample_clock "zz99zz99" (Some "https://img.example/t.jpg")
    (sample_world VideoStatus.processing 0)
  = (Returns (mkResponse 404 [("error", JString "Video not found")]),
     sample_world VideoStatus.processing 0).
Proof.
  destruct (@setThumbnail_refusals sample_clock "zz99zz99"
              (Some "https://img.example/t.jpg")
              (sample_world VideoStatus.processing 0))
    as (_ & Hmissing & _).
  apply Hmissing; reflexivity.
Defined.

Lemma dispatchJob_cannot_start_witness :
  dispatchJob sample_config sample_clock accepting_fetch "zoe" "zz99zz99"
    (sample_world VideoStatus.processing 0)
  = (Throws "Video not found: zz99zz99", sample_world VideoStatus.processing 0).
Proof.
  destruct (@dispatchJob_cannot_start sample_config sample_clock
              accepting_fetch "zoe" "zz99zz99"
              (sample_world VideoStatus.processing 0))
    as (_ & Hmissing & _).
  apply Hmissing. reflexivity.
Defined.

Lemma dispatchJob_refused_witness :
  dispatchJob sample_config sample_clock refusing_fetch "alice" "ab12cd34"
    (sample_world VideoStatus.processing 0)
  = (Throws "Encoder API error: 503 - busy",
     mkWorld (database (sample_world VideoStatus.processing 0)) 1 1).
Proof.
  destruct (@dispatchJob_refused sample_config sample_clock refusing_fetch
              "alice" "ab12cd34" (sample_world VideoStatus.processing 0)
              (sample_video VideoStatus.processing) "Qm123"
              (sample_encoder "w1" true))
    as (_ & Hrefused & _);
    [reflexivity | reflexivity | discriminate | reflexivity |].
  apply (Hrefused (mkHttpResponse false 503 (Returns "busy")
                     (Throws "no body")) "busy"); reflexivity.
Defined.

Lemma dispatchJob_accepted_witness :
  exists w',
    dispatchJob sample_config sample_clock accepting_fetch "alice" "ab12cd34"
      (sample_world VideoStatus.processing 0) = (Returns tt, w') /\
    jobStatusOf "alice" "ab12cd34" w' = Some JobStatus.encoding.
Proof.
  destruct (@dispatchJob_accepted sample_config sample_clock accepting_fetch
              "alice" "ab12cd34" (sample_world VideoStatus.processing 0)
              (sample_video VideoStatus.processing) "Qm123"
              (sample_encoder "w1" true)
              (mkHttpResponse true 200 (Returns "") (Returns (Some "job-1")))
              (Some "job-1") (sample_job 0))
    as (w' & Hrun & _ & _ & Hjob);
    [reflexivity | reflexivity | discriminate | reflexivity | reflexivity
    | reflexivity | reflexivity | reflexivity |].
  exists w'. split; [exact Hrun|].
  apply getJob_inv in Hjob. destruct Hjob as (_ & _ & Hjob).
  unfold jobStatusOf. simpl in Hjob. now rewrite <- Hjob.
Defined.

Lemma busy_world_keys : NoDup (map job_key (jobs (database busy_world))).
Proof.
  simpl. repeat constructor; simpl; intuition discriminate.
Defined.

Lemma processJobs_spares_the_rest_witness :
  exists w',
    processJobs sample_config sample_clock refusing_fetch busy_world
    = (Returns tt, w') /\
    getJob "bob" "bb22bb22" w'
    = (Returns (Some (queued_job "bob" "bb22bb22" JobStatus.completed 20)),
       w').
Proof.
  destruct (@processJobs_spares_the_rest sample_config sample_clock
              refusing_fetch busy_world eq_refl busy_world_keys)
    as (w' & Hrun & _ & _ & Hspared & _).
  exists w'. split; [exact Hrun|].
  apply Hspared; [reflexivity | discriminate].
Defined.

Lemma processJobs_attempts_each_job_witness :
  exists w' j',
    processJobs sample_config sample_clock refusing_fetch busy_world
    = (Returns tt, w') /\
    getJob "carol" "cc33cc33" w' = (Returns (Some j'), w').
Proof.
  destruct (@processJobs_attempts_each_job sample_config sample_clock
              refusing_fetch busy_world
              (queued_job "carol" "cc33cc33" JobStatus.pending 10)
              eq_refl busy_world_keys)
    as (w' & j' & Hrun & Hjob & _).
  - simpl. now left.
  - exists w', j'. now split.
Defined.

Lemma processJobs_idle_witness :
  processJobs sample_config sample_clock accepting_fetch
    (mkWorld (mkDatabase false [] []) 0 0)
  = (Returns tt, mkWorld (mkDatabase false [] []) 0 0).
Proof.
  apply processJobs_idle. now left.
Defined.

Lemma selection_is_a_rotation_witness :
  exists selected w',
    selectMany sample_config 3 (mkWorld (mkDatabase true [] []) 4 0)
    = (Returns selected, w') /\
    selected
    = [sample_encoder "w2" true; sample_encoder "w3" true;
       sample_encoder "w1" true].
Proof.
  destruct (@selection_is_a_rotation sample_config
              (mkWorld (mkDatabase true [] []) 4 0))
    as (selected & w' & Hrun & Heq & _); [discriminate|].
  exists selected, w'. split; [exact Hrun | exact Heq].
Defined.

Lemma onUploadFinish_pinned_witness :
  exists w',
    onUploadFinish sample_clock sample_pin sample_upload fresh_upload_world
    = (Returns tt, w') /\
    jobStatusOf "alice" "ab12cd34" w' = Some JobStatus.pending /\
    videoStatusOf "ab12cd34" w' = Some VideoStatus.processing.
Proof.
  destruct (@onUploadFinish_pinned sample_clock sample_pin sample_upload
              "alice" "ab12cd34" "/uploads/f00" "Qm123" fresh_upload_world)
    as (w' & Hrun & Hjob & Hvideo).
  - repeat split; try reflexivity; discriminate.
  - reflexivity.
  - reflexivity.
  - exists w'. split; [exact Hrun|]. split.
    + apply getJob_inv in Hjob. destruct Hjob as (_ & _ & Hjob).
      unfold jobStatusOf. simpl in Hjob. now rewrite <- Hjob.
    + specialize (Hvideo _ eq_refl).
      apply getVideo_inv in Hvideo. destruct Hvideo as (_ & _ & Hvideo).
      unfold videoStatusOf. simpl in Hvideo. now rewrite <- Hvideo.
Defined.

Lemma onUploadFinish_pin_failed_witness :
  exists w',
    onUploadFinish sample_clock failing_pin sample_upload fresh_upload_world
    = (Returns tt, w') /\
    jobs (database w') = [] /\
    videoStatusOf "ab12cd34" w' = Some VideoStatus.failed.
Proof.
  destruct (@onUploadFinish_pin_failed sample_clock failing_pin sample_upload
              fresh_upload_world)
    as (_ & Hfailed).
  destruct (Hfailed "alice" "ab12cd34" "/uploads/f00" "connect ECONNREFUSED")
    as (w' & Hrun & Hjobs & Hvideo).
  - repeat split; try reflexivity; discriminate.
  - reflexivity.
  - reflexivity.
  - exists w'. split; [exact Hrun|]. split; [exact Hjobs|].
    specialize (Hvideo _ eq_refl).
    apply getVideo_inv in Hvideo. destruct Hvideo as (_ & _ & Hvideo).
    unfold videoStatusOf. simpl in Hvideo. now rewrite <- Hvideo.
Defined.

Lemma onUploadFinish_twice_witness :
  exists w',
    onUploadFinish sample_clock sample_pin sample_upload
      (sample_world VideoStatus.processing 0) = (Returns tt, w') /\
    videoStatusOf "ab12cd34" w' = Some VideoStatus.failed.
Proof.
  destruct (@onUploadFinish_twice sample_clock sample_pin sample_upload
              "alice" "ab12cd34" "/uploads/f00" "Qm123"
              (sample_world VideoStatus.processing 0) (sample_job 0)
              (sample_video VideoStatus.processing))
    as (w' & Hrun & _ & Hvideo).
  - repeat split; try reflexivity; discriminate.
  - reflexivity.
  - reflexivity.
  - reflexivity.
  - exists w'. split; [exact Hrun|].
    apply getVideo_inv in Hvideo. destruct Hvideo as (_ & _ & Hvideo).
    unfold videoStatusOf. simpl in Hvideo. now rewrite <- Hvideo.
Defined.

Lemma requireAdminAuth_grants_witness :
  requireAdminAuth "hunter2" absent (Some "Bearer hunter2") = next tt /\
  requireAdminAuth "" (single "") None <> next tt.
Proof.
  split.
  - destruct (@requireAdminAuth_grants "hunter2" absent
                (Some "Bearer hunter2"))
      as (Hgrant & _).
    apply Hgrant. reflexivity.
  - destruct (@requireAdminAuth_grants "" (single "") None)
      as (_ & _ & _ & Hempty).
    apply Hempty. reflexivity.
Defined.

Lemma requireApiKey_decides_witness :
  exists response,
    requireApiKey sample_clock (single "sk_demo_0123") None
      (sample_server false)
    = (Returns (refused response), sample_server false) /\
    statusCode response = 403.
Proof.
  destruct (@requireApiKey_decides sample_clock (single "sk_demo_0123") None
              (sample_server false))
    as (_ & Hkey & _).
  destruct (Hkey "sk_demo_0123" eq_refl) as (_ & Hinactive & _).
  apply (Hinactive (sample_key false)); reflexivity.
Defined.

Lemma postThumbnail_needs_active_key_witness :
  exists response,
    postThumbnail sample_clock (single "sk_demo_0123") None "ab12cd34"
      (Some "https://img.example/t.jpg") (sample_server false)
    = (Returns response, sample_server false) /\
    statusCode response <> 200.
Proof.
  destruct (@postThumbnail_needs_active_key sample_clock
              (single "sk_demo_0123") None "ab12cd34"
              (Some "https://img.example/t.jpg") (sample_server false))
    as (Hdenied & _).
  apply Hdenied. intros key keyData Hcredential Hfound.
  injection Hcredential as <-. injection Hfound as <-. reflexivity.
Defined.

Lemma patchApiKey_then_gate_witness :
  exists response s1,
    patchApiKey "sk_demo_0123" (Some false) (sample_server true)
    = (Returns response, s1) /\
    statusCode response = 200 /\
    exists refusal,
      requireApiKey sample_clock (single "sk_demo_0123") None s1
      = (Returns (refused refusal), s1) /\
      statusCode refusal = 403.
Proof.
  destruct (@patchApiKey_then_gate sample_clock "sk_demo_0123" false None
              (sample_server true) (sample_key true))
    as (response & s1 & Hrun & Hcode & _ & _ & Hoff & _);
    [discriminate | reflexivity |].
  exists response, s1. split; [exact Hrun|]. split; [exact Hcode|].
  apply Hoff. reflexivity.
Defined.



Lemma onUploadCreate_creates_witness :
  exists s',
    onUploadCreate sample_clock sample_videoId "https://play.example/"
      (single "sk_demo_0123") None sample_new_upload (sample_server true)
    = (Returns
         (created "zz99zz99" "bob" "https://play.example/?v=bob/zz99zz99"),
       s') /\
    videoStatusOf "zz99zz99" (world s') = Some VideoStatus.uploading.
Proof.
  destruct (@onUploadCreate_creates sample_clock sample_videoId
              "https://play.example/" (single "sk_demo_0123") None
              sample_new_upload (sample_server true) "sk_demo_0123"
              (sample_key true))
    as (s' & Hrun & _ & _ & Hvideo);
    [reflexivity | reflexivity | reflexivity |].
  exists s'. split; [exact Hrun|].
  specialize (Hvideo eq_refl).
  apply getVideo_inv in Hvideo. destruct Hvideo as (_ & _ & Hvideo).
  unfold videoStatusOf. unfold sample_videoId in Hvideo. simpl in Hvideo.
  now rewrite <- Hvideo.
Defined.

Lemma onUploadCreate_denies_witness :
  exists response,
    onUploadCreate sample_clock sample_videoId "https://play.example/"
      (single "sk_demo_0123") None sample_new_upload (sample_server false)
    = (Returns (denied response), sample_server false) /\
    statusCode response = 401.
Proof.
  destruct (@onUploadCreate_denies sample_clock sample_videoId
              "https://play.example/" (single "sk_demo_0123") None
              sample_new_upload (sample_server false))
    as (response & Hrun & Hcode & _).
  - intros key keyData Hcredential Hfound.
    injection Hcredential as <-. injection Hfound as <-. reflexivity.
  - exists response. split; [exact Hrun | apply Hcode; reflexivity].
Defined.

Lemma poller_runs_at_most_one_interval_witness :
  live (snd (drive [Start (Some 5); Start None; Stop; Start (Some 2)] 7
               (mkPoller None false))) []
  = [9].
Proof.
  destruct (@poller_runs_at_most_one_interval
              [Start (Some 5); Start None; Stop; Start (Some 2)] 7)
    as (Hlive & _).
  exact Hlive.
Defined.

Lemma parseEncoders_all_enabled_witness :
  parseEncoders sample_parse sample_env = [sample_encoder "w1" true] /\
  parseEncoders sample_parse (mkEnv None (Some "https://enc.example") None)
  = [].
Proof.
  split.
  - destruct (@parseEncoders_all_enabled sample_parse sample_env "secret"
                "https://hooks.example")
      as (_ & Hparsed & _).
    apply (Hparsed [sample_encoder "w1" true; sample_encoder "off" false]);
      [reflexivity | reflexivity | discriminate].
  - destruct (@parseEncoders_all_enabled sample_parse
                (mkEnv None (Some "https://enc.example") None) "secret"
                "https://hooks.example")
      as (_ & _ & Hfallback).
    apply Hfallback. now left.
Defined.

Lemma pinFile_via_fallback_witness :
  pinFile_via sample_addToIpfs "https://ipfs.example" "/uploads/f00"
  = Returns "Qm123".
Proof.
  destruct (@pinFile_via_fallback sample_addToIpfs "https://ipfs.example"
              "/uploads/f00")
    as (Hcid & _).
  apply Hcid. right. split; [now exists "connect ECONNREFUSED" | reflexivity].
Defined.
